(** * Lucid AI dream journal: recording session, history store and sample encoding

    A shallow embedding of the TypeScript sources
      - [components/DreamRecorder.tsx]  (createBlob, stopRecording, startRecording,
        the effect that starts a recording, the live-session callbacks),
      - [App.tsx]                       (the local-storage service, handleRecordingComplete,
        handleUpdateDream, handleToggleFavorite, sortedDreams),
      - [services/geminiService.ts]     (generateDreamImage, interpretDream,
        generateDreamAnalysis),
      - [components/DreamAnalysis.tsx]  (handleToggleFavorite, handleRegenerate),
      - [components/ChatInterface.tsx]  (stopVoiceRecording and the cleanup that
        calls it, startVoiceRecording, the dictation callback, handleSend,
        handleMicClick),
      - [types.ts]                      (AppState, AspectRatio, DreamEntry),
    followed by the properties of the specification proved about them.

    Conventions.
      - A JavaScript string is the list of its UTF-16 code units.
      - Handlers are state transformers in a small monad that threads the
        component state, may throw, and records the calls made to the browser
        and to the remote service.  As in JavaScript, the state written before
        a throw stays written.
      - An async handler is suspended at each [await]: the rest of its body
        runs later, on the state of that time, after whatever the event loop
        ran meanwhile (a render and its effects, other handlers, callbacks).
        [Async] has the suspended calls, the run of one call amid what the
        others do, and the event loop.
      - A React handler is a closure of the render it was created in: it
        reads the [useState] cells of that render and the refs of the moment.
        The handlers under [Handler] take the render; the handlers of the
        same name outside it are the handler of the render that shows the
        current state, run with nothing else happening during its awaits. *)

From Stdlib Require Import List ZArith NArith QArith Qminmax Lia String Ascii Bool.
From Stdlib Require Import Permutation Sorted.
Import ListNotations.
Close Scope Q_scope.

Set Implicit Arguments.

(* ===================================================================== *)
(** ** JavaScript values used by the program *)
(* ===================================================================== *)

Module JS.

(** A string, as its UTF-16 code units. *)
Definition jsstring := list N.

(** A literal of the source, written with the characters of its text. *)
Definition str (s : string) : jsstring :=
  map N_of_ascii (list_ascii_of_string s).

(** The double quote character, U+0022. *)
Definition dquote : jsstring := [34%N].

(** [===] on strings. *)
Definition eqb (a b : jsstring) : bool :=
  if list_eq_dec N.eq_dec a b then true else false.

(** ToBoolean on a string: only the empty string is falsy. *)
Definition truthy (s : jsstring) : bool :=
  match s with [] => false | _ :: _ => true end.

(** ToBoolean on an optional boolean: [undefined] is falsy. *)
Definition truthy_flag (b : option bool) : bool :=
  match b with Some true => true | _ => false end.

(** WhiteSpace and LineTerminator code points of ECMAScript, the characters
    removed by [String.prototype.trim]. *)
Definition isWhiteSpace (c : N) : bool :=
  (((9 <=? c) && (c <=? 13)) || (c =? 32) || (c =? 160) || (c =? 5760)
   || ((8192 <=? c) && (c <=? 8202)) || (c =? 8232) || (c =? 8233)
   || (c =? 8239) || (c =? 8287) || (c =? 12288) || (c =? 65279))%N.

Fixpoint trimStart (s : jsstring) : jsstring :=
  match s with
  | [] => []
  | c :: s' => if isWhiteSpace c then trimStart s' else s
  end.

Definition trimEnd (s : jsstring) : jsstring := rev (trimStart (rev s)).

Definition trim (s : jsstring) : jsstring := trimEnd (trimStart s).

(** An exception, by the name or message it carries. *)
Definition exn := string.

(** How a call ends. *)
Inductive outcome (A : Type) : Type :=
| Returns (a : A)
| Throws (e : exn).
Arguments Throws {A} e.

(** A settled promise. *)
Inductive promise (A : Type) : Type :=
| Fulfilled (a : A)
| Rejected (e : exn).
Arguments Rejected {A} e.

End JS.

(* ===================================================================== *)
(** ** The monad of handlers: state, exceptions and a log of calls *)
(* ===================================================================== *)

Module Eff.
Import JS.

Section Monad.
Variables St Ev : Type.

Definition M (A : Type) : Type := St -> outcome A * St * list Ev.

Definition ret {A} (a : A) : M A := fun s => (Returns a, s, []).

Definition bind {A B} (c : M A) (k : A -> M B) : M B :=
  fun s =>
    match c s with
    | (Returns a, s1, l1) =>
        match k a s1 with
        | (o, s2, l2) => (o, s2, l1 ++ l2)
        end
    | (Throws e, s1, l1) => (Throws e, s1, l1)
    end.

Definition throw {A} (e : exn) : M A := fun s => (Throws e, s, []).

(** [try { c } catch (e) { h e }] *)
Definition try_catch {A} (c : M A) (h : exn -> M A) : M A :=
  fun s =>
    match c s with
    | (Returns a, s1, l1) => (Returns a, s1, l1)
    | (Throws e, s1, l1) =>
        match h e s1 with
        | (o, s2, l2) => (o, s2, l1 ++ l2)
        end
    end.

Definition get : M St := fun s => (Returns s, s, []).

Definition modify (f : St -> St) : M unit := fun s => (Returns tt, f s, []).

Definition emit (e : Ev) : M unit := fun s => (Returns tt, s, [e]).

(** [await p] *)
Definition await {A} (p : promise A) : M A :=
  match p with
  | Fulfilled a => ret a
  | Rejected e => throw e
  end.

(** [l.forEach(f)] *)
Fixpoint forEach {A} (f : A -> M unit) (l : list A) : M unit :=
  match l with
  | [] => ret tt
  | a :: l' => bind (f a) (fun _ => forEach f l')
  end.

(** The outcome, the state and the calls of a run. *)
Definition outcome_of {A} (c : M A) (s : St) : outcome A := fst (fst (c s)).
Definition state_after {A} (c : M A) (s : St) : St := snd (fst (c s)).
Definition calls_of {A} (c : M A) (s : St) : list Ev := snd (c s).

(** [await Promise.all([a, b])] for two async calls: both are started, in
    array order, and the join rejects as soon as one of them rejects. *)
Definition Promise_all2 {A B} (a : M A) (b : M B) : M (A * B) :=
  fun s =>
    match a s with
    | (oa, s1, l1) =>
        match b s1 with
        | (ob, s2, l2) =>
            (match oa, ob with
             | Returns x, Returns y => Returns (x, y)
             | Throws e, _ => Throws e
             | Returns _, Throws e => Throws e
             end, s2, l1 ++ l2)
        end
    end.

End Monad.

Arguments ret {St Ev A} a.
Arguments throw {St Ev A} e.
Arguments get {St Ev}.
Arguments modify {St Ev} f.
Arguments emit {St Ev} e.
Arguments await {St Ev A} p.

Declare Scope eff_scope.
Delimit Scope eff_scope with eff.
Notation "x <- c ;; k" := (bind c (fun x => k))
  (at level 61, c at next level, right associativity) : eff_scope.
Notation "c ;; k" := (bind c (fun _ => k))
  (at level 61, right associativity) : eff_scope.

(** *** Async functions *)

(** A call of an async function runs until it returns, throws or reaches an
    [await]; there it is suspended, and the rest of its body runs later, on
    the state of that later time.  What runs in between is not the call's:
    a render and its effects, other handlers, the callbacks of a session. *)
Module Async.

Section Task.
Variables St Ev : Type.

(** A call when control leaves it: settled, or suspended with the rest of
    the body.  Either way it has left a state and made calls. *)
Inductive task (A : Type) : Type :=
| settled (o : outcome A) (s : St) (calls : list Ev)
| suspended (s : St) (calls : list Ev) (rest : St -> task A).

Definition async (A : Type) : Type := St -> task A.

(** The calls made before a task began come first. *)
Definition said {A} (before : list Ev) (t : task A) : task A :=
  match t with
  | settled o s l => settled o s (before ++ l)
  | suspended s l rest => suspended s (before ++ l) rest
  end.

Fixpoint continue {A B} (t : task A) (k : A -> async B) : task B :=
  match t with
  | settled (Returns a) s l => said l (k a s)
  | settled (Throws e) s l => settled (Throws e) s l
  | suspended s l rest => suspended s l (fun s' => continue (rest s') k)
  end.

Definition ret {A} (a : A) : async A := fun s => settled (Returns a) s [].

Definition bind {A B} (c : async A) (k : A -> async B) : async B :=
  fun s => continue (c s) k.

(** Statements without an [await] run at once. *)
Definition lift {A} (c : M St Ev A) : async A :=
  fun s => match c s with (o, s', l) => settled o s' l end.

Definition throw {A} (e : exn) : async A := lift (Eff.throw e).
Definition get : async St := lift Eff.get.
Definition modify (f : St -> St) : async unit := lift (Eff.modify f).
Definition emit (e : Ev) : async unit := lift (Eff.emit e).

(** The suspension of an [await]. *)
Definition yield : async unit :=
  fun s => suspended s [] (fun s' => settled (Returns tt) s' []).

(** [await p]: the call is suspended, whether [p] is settled already or
    not, and resumes with the value of [p] or throws its error. *)
Definition await {A} (p : promise A) : async A :=
  bind yield (fun _ => lift (Eff.await p)).

(** [await f()] for a call [f()] of an async function: the call runs up to
    its first [await] at once, and the caller resumes after it has
    settled, with its outcome. *)
Definition await_call {A} (c : async A) : async A :=
  bind c (fun a => bind yield (fun _ => ret a)).

(** [try { c } catch (e) { h e }] *)
Fixpoint catching {A} (t : task A) (h : exn -> async A) : task A :=
  match t with
  | settled (Returns a) s l => settled (Returns a) s l
  | settled (Throws e) s l => said l (h e s)
  | suspended s l rest => suspended s l (fun s' => catching (rest s') h)
  end.

Definition try_catch {A} (c : async A) (h : exn -> async A) : async A :=
  fun s => catching (c s) h.

(** [try { c } finally { f }] *)
Fixpoint finishing {A} (t : task A) (f : async unit) : task A :=
  match t with
  | settled o s l => said l (continue (f s) (fun _ s' => settled o s' []))
  | suspended s l rest => suspended s l (fun s' => finishing (rest s') f)
  end.

Definition try_finally {A} (c : async A) (f : async unit) : async A :=
  fun s => finishing (c s) f.

(** **** One call, and what the others do meanwhile *)

(** The run of a call to its end when the others change the state while it
    is suspended: [during] gives, for each suspension in turn, what has
    happened to the state when the call resumes.  Past the end of [during]
    the call resumes on the state it left.  The calls are the call's own. *)
Fixpoint amid {A} (t : task A) (during : list (St -> St))
  : outcome A * (St * list (St -> St)) * list Ev :=
  match t with
  | settled o s l => (o, (s, during), l)
  | suspended s l rest =>
      match
        match during with
        | [] => amid (rest s) []
        | d :: later => amid (rest (d s)) later
        end
      with
      | (o, x, l') => (o, x, l ++ l')
      end
  end.

Definition woven {A} (c : async A) : M (St * list (St -> St)) Ev A :=
  fun x => amid (c (fst x)) (snd x).

Definition interleaved {A} (c : async A) (during : list (St -> St)) : M St Ev A :=
  fun s => match amid (c s) during with (o, x, l) => (o, fst x, l) end.

(** The run of a call during whose awaits nothing else happens. *)
Definition uninterrupted {A} (c : async A) : M St Ev A := interleaved c [].

(** What the first segment of a call, up to its first [await], does to the
    state. *)
Definition segment {A} (c : async A) (s : St) : St :=
  match c s with
  | settled _ s' _ => s'
  | suspended s' _ _ => s'
  end.

(** **** The event loop *)

(** A turn of the loop calls a handler, which runs to its first [await], or
    resumes a suspended call, which runs to its next one. *)
Inductive turn : Type :=
| call (h : async unit)
| resume (n : nat).

(** The state, the suspended calls (oldest first), the calls made and the
    errors of the calls that rejected. *)
Record Loop : Type := {
  state : St;
  waiting : list (St -> task unit);
  log : list Ev;
  unhandled : list exn
}.

Definition start (s : St) : Loop :=
  {| state := s; waiting := []; log := []; unhandled := [] |}.

Definition land (t : task unit) (waiting : list (St -> task unit))
  (log : list Ev) (unhandled : list exn) : Loop :=
  match t with
  | settled (Returns _) s l =>
      {| state := s; waiting := waiting; log := log ++ l; unhandled := unhandled |}
  | settled (Throws e) s l =>
      {| state := s; waiting := waiting; log := log ++ l;
         unhandled := unhandled ++ [e] |}
  | suspended s l rest =>
      {| state := s; waiting := waiting ++ [rest]; log := log ++ l;
         unhandled := unhandled |}
  end.

Fixpoint without {T} (n : nat) (l : list T) : list T :=
  match n, l with
  | _, [] => []
  | O, _ :: rest => rest
  | S m, x :: rest => x :: without m rest
  end.

Definition step (t : turn) (now : Loop) : Loop :=
  match t with
  | call h => land (h (state now)) (waiting now) (log now) (unhandled now)
  | resume n =>
      match nth_error (waiting now) n with
      | Some rest =>
          land (rest (state now)) (without n (waiting now)) (log now) (unhandled now)
      | None => now
      end
  end.

Definition run (turns : list turn) (now : Loop) : Loop :=
  fold_left (fun l t => step t l) turns now.

End Task.

Arguments settled {St Ev A} o s calls.
Arguments suspended {St Ev A} s calls rest.
Arguments ret {St Ev A} a.
Arguments throw {St Ev A} e.
Arguments get {St Ev}.
Arguments modify {St Ev} f.
Arguments emit {St Ev} e.
Arguments yield {St Ev}.
Arguments await {St Ev A} p.
Arguments lift {St Ev A} c.
Arguments call {St Ev} h.
Arguments resume {St Ev} n.
Arguments start {St Ev} s.

Declare Scope async_scope.
Delimit Scope async_scope with async.
Notation "x <- c ;; k" := (bind c (fun x => k))
  (at level 61, c at next level, right associativity) : async_scope.
Notation "c ;; k" := (bind c (fun _ => k))
  (at level 61, right associativity) : async_scope.

End Async.

End Eff.

(* ===================================================================== *)
(** ** components/DreamRecorder.tsx *)
(* ===================================================================== *)

Module DreamRecorder.
Import JS Eff.
Local Open Scope eff_scope.

(** *** createBlob: Float32 samples to 16-bit PCM *)

(** A sample of a [Float32Array].  A finite sample is the rational it
    denotes.  The products [x * 32768] and [x * 32767] of the source are
    computed in double precision; a Float32 has a 24-bit significand, 32768
    is a power of two and 32767 fits in 15 bits, so each product fits the
    53-bit significand of a double: it is the exact product, and the model
    multiplies rationals. *)
Inductive sample : Type :=
| Finite (x : Q)
| Infinite (negative : bool)
| NaN.

(** [data[i] < 0 ? data[i] * 32768 : data[i] * 32767] *)
Definition scale (v : sample) : sample :=
  match v with
  | Finite x => if Qlt_le_dec x 0 then Finite (x * 32768) else Finite (x * 32767)
  | Infinite b => Infinite b
  | NaN => NaN
  end.

(** Truncation of a rational towards zero. *)
Definition truncate (x : Q) : Z := Z.quot (Qnum x) (Zpos (Qden x)).

(** The value modulo 2^16, read as a two's-complement 16-bit integer. *)
Definition wrap16 (n : Z) : Z :=
  let k := (n mod 65536)%Z in
  if (32768 <=? k)%Z then (k - 65536)%Z else k.

(** ToInt16, the conversion applied by a store into an [Int16Array]:
    NaN and the infinities become 0, a finite number is truncated and
    wrapped. *)
Definition ToInt16 (v : sample) : Z :=
  match v with
  | Finite x => wrap16 (truncate x)
  | Infinite _ => 0%Z
  | NaN => 0%Z
  end.

(** The loop of [createBlob]: the contents of [int16] when it ends. *)
Definition createBlob_int16 (data : list sample) : list Z :=
  map (fun v => ToInt16 (scale v)) data.

(** A conversion that clamps to [-1, 1] first, which the source does not
    have; the reference against which the absence of clamping is stated. *)
Definition clamped_int16 (v : sample) : Z :=
  match v with
  | Finite x =>
      if Qlt_le_dec x (-1) then (-32768)%Z
      else if Qlt_le_dec 1 x then 32767%Z
      else ToInt16 (scale v)
  | Infinite true => (-32768)%Z
  | Infinite false => 32767%Z
  | NaN => 0%Z
  end.

(** *** The component state *)

Definition Track := N.
Definition MediaStream := list Track.
Definition LiveSession := N.

Inductive ContextState : Type := suspended | running | closed.

Record AudioContext : Type := {
  ctx_id : N;
  ctx_state : ContextState
}.

Definition is_closed (c : AudioContext) : bool :=
  match ctx_state c with closed => true | _ => false end.

Inductive NodeKind : Type := ScriptProcessor | Gain | Analyser.

(** The [useState] cells and the [useRef] cells of the component. *)
Record Recorder : Type := {
  isRecording : bool;
  finalTranscription : jsstring;
  interimTranscription : jsstring;
  sensitivity : Q;
  audioLevel : Q;
  sessionPromiseRef : option (promise LiveSession);
  audioContextRef : option AudioContext;
  scriptProcessorRef : option N;
  mediaStreamRef : option MediaStream;
  transcriptionRef : jsstring;
  gainNodeRef : option N;
  analyserNodeRef : option N;
  (* requestAnimationFrame hands out handles from 1 upwards, so the
     truthiness test of the source is the test against null *)
  animationFrameIdRef : option positive
}.

Definition setIsRecording (b : bool) (r : Recorder) : Recorder :=
  {| isRecording := b;
     finalTranscription := finalTranscription r;
     interimTranscription := interimTranscription r;
     sensitivity := sensitivity r;
     audioLevel := audioLevel r;
     sessionPromiseRef := sessionPromiseRef r;
     audioContextRef := audioContextRef r;
     scriptProcessorRef := scriptProcessorRef r;
     mediaStreamRef := mediaStreamRef r;
     transcriptionRef := transcriptionRef r;
     gainNodeRef := gainNodeRef r;
     analyserNodeRef := analyserNodeRef r;
     animationFrameIdRef := animationFrameIdRef r |}.

Definition setFinalTranscription (t : jsstring) (r : Recorder) : Recorder :=
  {| isRecording := isRecording r;
     finalTranscription := t;
     interimTranscription := interimTranscription r;
     sensitivity := sensitivity r;
     audioLevel := audioLevel r;
     sessionPromiseRef := sessionPromiseRef r;
     audioContextRef := audioContextRef r;
     scriptProcessorRef := scriptProcessorRef r;
     mediaStreamRef := mediaStreamRef r;
     transcriptionRef := transcriptionRef r;
     gainNodeRef := gainNodeRef r;
     analyserNodeRef := analyserNodeRef r;
     animationFrameIdRef := animationFrameIdRef r |}.

Definition setInterimTranscription (t : jsstring) (r : Recorder) : Recorder :=
  {| isRecording := isRecording r;
     finalTranscription := finalTranscription r;
     interimTranscription := t;
     sensitivity := sensitivity r;
     audioLevel := audioLevel r;
     sessionPromiseRef := sessionPromiseRef r;
     audioContextRef := audioContextRef r;
     scriptProcessorRef := scriptProcessorRef r;
     mediaStreamRef := mediaStreamRef r;
     transcriptionRef := transcriptionRef r;
     gainNodeRef := gainNodeRef r;
     analyserNodeRef := analyserNodeRef r;
     animationFrameIdRef := animationFrameIdRef r |}.

Definition setAudioLevel (v : Q) (r : Recorder) : Recorder :=
  {| isRecording := isRecording r;
     finalTranscription := finalTranscription r;
     interimTranscription := interimTranscription r;
     sensitivity := sensitivity r;
     audioLevel := v;
     sessionPromiseRef := sessionPromiseRef r;
     audioContextRef := audioContextRef r;
     scriptProcessorRef := scriptProcessorRef r;
     mediaStreamRef := mediaStreamRef r;
     transcriptionRef := transcriptionRef r;
     gainNodeRef := gainNodeRef r;
     analyserNodeRef := analyserNodeRef r;
     animationFrameIdRef := animationFrameIdRef r |}.

Definition set_sessionPromiseRef (v : option (promise LiveSession)) (r : Recorder) : Recorder :=
  {| isRecording := isRecording r;
     finalTranscription := finalTranscription r;
     interimTranscription := interimTranscription r;
     sensitivity := sensitivity r;
     audioLevel := audioLevel r;
     sessionPromiseRef := v;
     audioContextRef := audioContextRef r;
     scriptProcessorRef := scriptProcessorRef r;
     mediaStreamRef := mediaStreamRef r;
     transcriptionRef := transcriptionRef r;
     gainNodeRef := gainNodeRef r;
     analyserNodeRef := analyserNodeRef r;
     animationFrameIdRef := animationFrameIdRef r |}.

Definition set_audioContextRef (v : option AudioContext) (r : Recorder) : Recorder :=
  {| isRecording := isRecording r;
     finalTranscription := finalTranscription r;
     interimTranscription := interimTranscription r;
     sensitivity := sensitivity r;
     audioLevel := audioLevel r;
     sessionPromiseRef := sessionPromiseRef r;
     audioContextRef := v;
     scriptProcessorRef := scriptProcessorRef r;
     mediaStreamRef := mediaStreamRef r;
     transcriptionRef := transcriptionRef r;
     gainNodeRef := gainNodeRef r;
     analyserNodeRef := analyserNodeRef r;
     animationFrameIdRef := animationFrameIdRef r |}.

Definition set_scriptProcessorRef (v : option N) (r : Recorder) : Recorder :=
  {| isRecording := isRecording r;
     finalTranscription := finalTranscription r;
     interimTranscription := interimTranscription r;
     sensitivity := sensitivity r;
     audioLevel := audioLevel r;
     sessionPromiseRef := sessionPromiseRef r;
     audioContextRef := audioContextRef r;
     scriptProcessorRef := v;
     mediaStreamRef := mediaStreamRef r;
     transcriptionRef := transcriptionRef r;
     gainNodeRef := gainNodeRef r;
     analyserNodeRef := analyserNodeRef r;
     animationFrameIdRef := animationFrameIdRef r |}.

Definition set_mediaStreamRef (v : option MediaStream) (r : Recorder) : Recorder :=
  {| isRecording := isRecording r;
     finalTranscription := finalTranscription r;
     interimTranscription := interimTranscription r;
     sensitivity := sensitivity r;
     audioLevel := audioLevel r;
     sessionPromiseRef := sessionPromiseRef r;
     audioContextRef := audioContextRef r;
     scriptProcessorRef := scriptProcessorRef r;
     mediaStreamRef := v;
     transcriptionRef := transcriptionRef r;
     gainNodeRef := gainNodeRef r;
     analyserNodeRef := analyserNodeRef r;
     animationFrameIdRef := animationFrameIdRef r |}.

Definition set_transcriptionRef (v : jsstring) (r : Recorder) : Recorder :=
  {| isRecording := isRecording r;
     finalTranscription := finalTranscription r;
     interimTranscription := interimTranscription r;
     sensitivity := sensitivity r;
     audioLevel := audioLevel r;
     sessionPromiseRef := sessionPromiseRef r;
     audioContextRef := audioContextRef r;
     scriptProcessorRef := scriptProcessorRef r;
     mediaStreamRef := mediaStreamRef r;
     transcriptionRef := v;
     gainNodeRef := gainNodeRef r;
     analyserNodeRef := analyserNodeRef r;
     animationFrameIdRef := animationFrameIdRef r |}.

Definition set_gainNodeRef (v : option N) (r : Recorder) : Recorder :=
  {| isRecording := isRecording r;
     finalTranscription := finalTranscription r;
     interimTranscription := interimTranscription r;
     sensitivity := sensitivity r;
     audioLevel := audioLevel r;
     sessionPromiseRef := sessionPromiseRef r;
     audioContextRef := audioContextRef r;
     scriptProcessorRef := scriptProcessorRef r;
     mediaStreamRef := mediaStreamRef r;
     transcriptionRef := transcriptionRef r;
     gainNodeRef := v;
     analyserNodeRef := analyserNodeRef r;
     animationFrameIdRef := animationFrameIdRef r |}.

Definition set_analyserNodeRef (v : option N) (r : Recorder) : Recorder :=
  {| isRecording := isRecording r;
     finalTranscription := finalTranscription r;
     interimTranscription := interimTranscription r;
     sensitivity := sensitivity r;
     audioLevel := audioLevel r;
     sessionPromiseRef := sessionPromiseRef r;
     audioContextRef := audioContextRef r;
     scriptProcessorRef := scriptProcessorRef r;
     mediaStreamRef := mediaStreamRef r;
     transcriptionRef := transcriptionRef r;
     gainNodeRef := gainNodeRef r;
     analyserNodeRef := v;
     animationFrameIdRef := animationFrameIdRef r |}.

Definition set_animationFrameIdRef (v : option positive) (r : Recorder) : Recorder :=
  {| isRecording := isRecording r;
     finalTranscription := finalTranscription r;
     interimTranscription := interimTranscription r;
     sensitivity := sensitivity r;
     audioLevel := audioLevel r;
     sessionPromiseRef := sessionPromiseRef r;
     audioContextRef := audioContextRef r;
     scriptProcessorRef := scriptProcessorRef r;
     mediaStreamRef := mediaStreamRef r;
     transcriptionRef := transcriptionRef r;
     gainNodeRef := gainNodeRef r;
     analyserNodeRef := analyserNodeRef r;
     animationFrameIdRef := v |}.

(** The state of a freshly mounted component: [useState(initialState ===
    'recording')], empty transcripts, every ref null. *)
Definition mount (initialRecording : bool) : Recorder :=
  {| isRecording := initialRecording;
     finalTranscription := [];
     interimTranscription := [];
     sensitivity := 1;
     audioLevel := 0;
     sessionPromiseRef := None;
     audioContextRef := None;
     scriptProcessorRef := None;
     mediaStreamRef := None;
     transcriptionRef := [];
     gainNodeRef := None;
     analyserNodeRef := None;
     animationFrameIdRef := None |}.

(** *** Calls that leave the component *)

Inductive Call : Type :=
| cancelAnimationFrame (id : positive)
| track_stop (t : Track)
| node_disconnect (k : NodeKind) (n : N)
| audioContext_close (c : N)
| session_close (s : LiveSession)
| onRecordingStart
| onRecordingComplete (transcription : jsstring)
| console_error (what : string).

Definition R := M Recorder Call.

(** *** stopRecording *)

(** [cancelAnimationFrame], [MediaStreamTrack.stop], [AudioNode.disconnect]
    without argument, [close] on a context that is not closed and
    [session.close] do not throw; the step of [stopRecording] that can fail
    is the [await] of the session promise, which rejects when the
    connection to the remote service failed. *)

(** [if (ref.current) { release; ref.current = null }] for a ref holding a
    handle. *)
Definition release {A} (ref : Recorder -> option A) (free : A -> R unit)
  (clear : Recorder -> Recorder) : R unit :=
  r <- get ;;
  match ref r with
  | Some h => free h ;; modify clear
  | None => ret tt
  end.

(** *** The handlers, as closures of a render *)

(** The prop [initialState]. *)
Inductive InitialState : Type := idle | recording.

Module Handler.
Import Eff.Async.
Local Open Scope async_scope.

(** [stopRecording] of a render.  [isRecording] is the cell of that render;
    the refs are read when the statement runs.  The handler is suspended
    while the audio context closes and while it awaits the session
    promise. *)
Definition stopRecording (render : Recorder) : async Recorder Call unit :=
  if negb (isRecording render) then ret tt
  else
    modify (setIsRecording false) ;;
    modify (setAudioLevel 0) ;;
    lift (release animationFrameIdRef
            (fun id => Eff.emit (cancelAnimationFrame id))
            (set_animationFrameIdRef None)) ;;
    lift (release mediaStreamRef
            (fun stream => forEach (fun track => Eff.emit (track_stop track)) stream)
            (set_mediaStreamRef None)) ;;
    lift (release scriptProcessorRef
            (fun n => Eff.emit (node_disconnect ScriptProcessor n))
            (set_scriptProcessorRef None)) ;;
    lift (release gainNodeRef
            (fun n => Eff.emit (node_disconnect Gain n))
            (set_gainNodeRef None)) ;;
    lift (release analyserNodeRef
            (fun n => Eff.emit (node_disconnect Analyser n))
            (set_analyserNodeRef None)) ;;
    (r <- get ;;
     match audioContextRef r with
     | Some ctx =>
         if negb (is_closed ctx)
         then emit (audioContext_close (ctx_id ctx)) ;;
              yield ;;
              modify (set_audioContextRef None)
         else ret tt
     | None => ret tt
     end) ;;
    (r <- get ;;
     match sessionPromiseRef r with
     | Some p =>
         session <- await p ;;
         emit (session_close session) ;;
         modify (set_sessionPromiseRef None)
     | None => ret tt
     end) ;;
    r <- get ;;
    emit (onRecordingComplete (trim (transcriptionRef r))).

(** [startRecording], given how [getUserMedia] settles and the promise
    returned by [ai.live.connect].  The handler is suspended while
    [getUserMedia] is pending. *)
Definition startRecording (media : promise MediaStream)
  (connect : promise LiveSession) : async Recorder Call unit :=
  emit onRecordingStart ;;
  modify (setIsRecording true) ;;
  modify (setFinalTranscription []) ;;
  modify (setInterimTranscription []) ;;
  modify (set_transcriptionRef []) ;;
  try_catch
    (stream <- await media ;;
     modify (set_mediaStreamRef (Some stream)) ;;
     modify (set_sessionPromiseRef (Some connect)))
    (fun _ =>
       emit (console_error "Failed to start recording:") ;;
       modify (setIsRecording false)).

(** The effect of a render, [if (initialState === 'recording' &&
    !isRecording) startRecording()]: React runs it after the render when
    the prop, the cell or [startRecording] differ from the render
    before. *)
Definition autostart (initialState : InitialState) (render : Recorder)
  (media : promise MediaStream) (connect : promise LiveSession)
  : async Recorder Call unit :=
  match initialState with
  | recording =>
      if negb (isRecording render) then startRecording media connect else ret tt
  | idle => ret tt
  end.

(** The button, [onClick={isRecording ? stopRecording : startRecording}]. *)
Definition onClick (render : Recorder) (media : promise MediaStream)
  (connect : promise LiveSession) : async Recorder Call unit :=
  if isRecording render then stopRecording render
  else startRecording media connect.

End Handler.

(** *** stopRecording and startRecording with nothing else in between *)

(** The run of [Handler.stopRecording] of the render that shows the current
    state, to its end, when nothing else happens during its awaits.  The
    guard, the calls and their order are those of any run; the state left
    and the transcript delivered are those of a run during which the
    others leave the cells and the refs alone, which [Handler.autostart]
    does not when the prop is [recording]. *)
Definition stopRecording : R unit :=
  fun r => Async.uninterrupted (Handler.stopRecording r) r.

(** The run of [Handler.startRecording] to its end when nothing else
    happens while [getUserMedia] is pending. *)
Definition startRecording (media : promise MediaStream)
  (connect : promise LiveSession) : R unit :=
  Async.uninterrupted (Handler.startRecording media connect).

(** What the others do during an await leaves a cell or a ref as it is. *)
Definition keeps {T} (cell : Recorder -> T) (d : Recorder -> Recorder) : Prop :=
  forall s, cell (d s) = cell s.

(** What the others do during an await adds nothing to an accumulator that
    is empty. *)
Definition keeps_silence (d : Recorder -> Recorder) : Prop :=
  forall s, transcriptionRef s = [] -> transcriptionRef (d s) = [].

(** What a render with the prop [initialState] does to the state: its
    effect runs, up to the first [await] of the recording it may start. *)
Definition rendered (initialState : InitialState) (media : promise MediaStream)
  (connect : promise LiveSession) (r : Recorder) : Recorder :=
  Async.segment (Handler.autostart initialState r media connect) r.

(** [visualize], given the handle returned by [requestAnimationFrame] and
    the frequency data read from the analyser ([bufferLength] is 128, half
    of [fftSize]). *)
Definition visualize (handle : positive) (dataArray : list Z) : R unit :=
  r <- get ;;
  match analyserNodeRef r with
  | None => ret tt
  | Some _ =>
      modify (set_animationFrameIdRef (Some handle)) ;;
      let sum := fold_left Z.add dataArray 0%Z in
      let average := (inject_Z sum / 128)%Q in
      modify (setAudioLevel (Qmin 1 (average / 128)))
  end.

(** [onopen], given the audio context and the three nodes it creates, and
    what the first call of [visualize] is given.  The wiring of the nodes
    and the [onaudioprocess] handler, which sends [createBlob] of each buffer
    to the session, touch no cell of the component. *)
Definition onopen (ctx : AudioContext) (gain analyser processor : N)
  (handle : positive) (dataArray : list Z) : R unit :=
  modify (set_audioContextRef (Some ctx)) ;;
  modify (set_gainNodeRef (Some gain)) ;;
  modify (set_analyserNodeRef (Some analyser)) ;;
  modify (set_scriptProcessorRef (Some processor)) ;;
  visualize handle dataArray.

Record Transcription : Type := {
  text : jsstring;
  isFinal : bool
}.

Record ServerContent : Type := {
  inputTranscription : option Transcription
}.

Record LiveServerMessage : Type := {
  serverContent : option ServerContent
}.

(** [message.serverContent?.inputTranscription] *)
Definition message_transcription (message : LiveServerMessage)
  : option Transcription :=
  match serverContent message with
  | Some c => inputTranscription c
  | None => None
  end.

Definition onmessage (message : LiveServerMessage) : R unit :=
  match message_transcription message with
  | Some t =>
      if isFinal t then
        r <- get ;;
        modify (set_transcriptionRef (transcriptionRef r ++ text t ++ str " ")) ;;
        r <- get ;;
        modify (setFinalTranscription (transcriptionRef r)) ;;
        modify (setInterimTranscription [])
      else
        modify (setInterimTranscription (text t))
  | None => ret tt
  end.

(** A transcription message, final or interim. *)
Definition transcript_message (final : bool) (t : jsstring) : LiveServerMessage :=
  {| serverContent :=
       Some {| inputTranscription := Some {| text := t; isFinal := final |} |} |}.

(** The fragments of the final transcription messages, in receipt order. *)
Fixpoint final_fragments (messages : list LiveServerMessage) : list jsstring :=
  match messages with
  | [] => []
  | m :: rest =>
      match message_transcription m with
      | Some t => if isFinal t then text t :: final_fragments rest
                  else final_fragments rest
      | None => final_fragments rest
      end
  end.

(** The blocks of [stopRecording] that release a resource, in program
    order. *)
Inductive Step : Type :=
| CancelVisualization
| StopTracks
| DisconnectProcessor
| DisconnectGain
| DisconnectAnalyser
| CloseContext
| CloseSession.

Definition release_order : list Step :=
  [CancelVisualization; StopTracks; DisconnectProcessor; DisconnectGain;
   DisconnectAnalyser; CloseContext; CloseSession].

(** The release step a call belongs to, if it releases something. *)
Definition step_of (c : Call) : option Step :=
  match c with
  | cancelAnimationFrame _ => Some CancelVisualization
  | track_stop _ => Some StopTracks
  | node_disconnect ScriptProcessor _ => Some DisconnectProcessor
  | node_disconnect Gain _ => Some DisconnectGain
  | node_disconnect Analyser _ => Some DisconnectAnalyser
  | audioContext_close _ => Some CloseContext
  | session_close _ => Some CloseSession
  | onRecordingStart => None
  | onRecordingComplete _ => None
  | console_error _ => None
  end.

Definition is_release (c : Call) : bool :=
  match step_of c with Some _ => true | None => false end.

(** The calls that release the resources held by a state. *)
Definition held (r : Recorder) : list Call :=
  match animationFrameIdRef r with
  | Some id => [cancelAnimationFrame id] | None => [] end
  ++ match mediaStreamRef r with
     | Some stream => map track_stop stream | None => [] end
  ++ match scriptProcessorRef r with
     | Some n => [node_disconnect ScriptProcessor n] | None => [] end
  ++ match gainNodeRef r with
     | Some n => [node_disconnect Gain n] | None => [] end
  ++ match analyserNodeRef r with
     | Some n => [node_disconnect Analyser n] | None => [] end
  ++ match audioContextRef r with
     | Some ctx => if is_closed ctx then [] else [audioContext_close (ctx_id ctx)]
     | None => [] end
  ++ match sessionPromiseRef r with
     | Some (Fulfilled s) => [session_close s] | _ => [] end.

(** The statements of [stopRecording] before its first [await] reset the
    two cells and release five refs; [released] is the state they leave,
    the audio context still in its ref. *)
Definition released (r : Recorder) : Recorder :=
  set_analyserNodeRef None
    (set_gainNodeRef None
       (set_scriptProcessorRef None
          (set_mediaStreamRef None
             (set_animationFrameIdRef None
                (setAudioLevel 0 (setIsRecording false r)))))).

(** The calls of those statements: all of [held] but the close of the
    session, which comes after an [await]. *)
Definition released_at_once (r : Recorder) : list Call :=
  match animationFrameIdRef r with
  | Some id => [cancelAnimationFrame id] | None => [] end
  ++ match mediaStreamRef r with
     | Some stream => map track_stop stream | None => [] end
  ++ match scriptProcessorRef r with
     | Some n => [node_disconnect ScriptProcessor n] | None => [] end
  ++ match gainNodeRef r with
     | Some n => [node_disconnect Gain n] | None => [] end
  ++ match analyserNodeRef r with
     | Some n => [node_disconnect Analyser n] | None => [] end
  ++ match audioContextRef r with
     | Some ctx => if is_closed ctx then [] else [audioContext_close (ctx_id ctx)]
     | None => [] end.

(** What the others do during an await leaves the seven refs of the
    resources as they are. *)
Definition keeps_resources (d : Recorder -> Recorder) : Prop :=
  keeps animationFrameIdRef d /\ keeps mediaStreamRef d
  /\ keeps scriptProcessorRef d /\ keeps gainNodeRef d
  /\ keeps analyserNodeRef d /\ keeps audioContextRef d
  /\ keeps sessionPromiseRef d.

(** The remote connection did not fail: there is no session promise, or it
    is fulfilled. *)
Definition session_settled_ok (r : Recorder) : bool :=
  match sessionPromiseRef r with
  | Some (Rejected _) => false
  | _ => true
  end.

(** How [stopRecording] ends on an active session: it rejects exactly when
    the awaited session promise is rejected. *)
Definition stop_outcome (r : Recorder) : outcome unit :=
  match sessionPromiseRef r with
  | Some (Rejected e) => Throws e
  | _ => Returns tt
  end.

(** The delivery of the transcript at the end of [stopRecording], reached
    unless the awaited session promise is rejected. *)
Definition stop_delivery (r : Recorder) : list Call :=
  match sessionPromiseRef r with
  | Some (Rejected _) => []
  | _ => [onRecordingComplete (trim (transcriptionRef r))]
  end.

(** The release steps among the calls of a run, in the order of the calls. *)
Definition steps (calls : list Call) : list Step :=
  flat_map (fun c => match step_of c with Some s => [s] | None => [] end) calls.

(** The position of a step in [release_order]. *)
Definition rank (s : Step) : nat :=
  match s with
  | CancelVisualization => 0
  | StopTracks => 1
  | DisconnectProcessor => 2
  | DisconnectGain => 3
  | DisconnectAnalyser => 4
  | CloseContext => 5
  | CloseSession => 6
  end.

(** The key of a call: the position of its release step, 7 for a call that
    releases nothing. *)
Definition call_key (c : Call) : nat :=
  match step_of c with Some s => rank s | None => 7 end.

End DreamRecorder.

(* ===================================================================== *)
(** ** types.ts *)
(* ===================================================================== *)

Module Types.
Import JS.

Inductive AppState : Type := IDLE | RECORDING | ANALYZING | VIEWING.

Inductive AspectRatio : Type := ratio_16_9 | ratio_1_1 | ratio_9_16.

Record DreamEntry : Type := {
  id : jsstring;
  date : jsstring;
  transcription : jsstring;
  imageUrl : jsstring;
  interpretation : jsstring;
  isFavorite : option bool   (* isFavorite?: boolean *)
}.

(** [{ ...d, isFavorite: v }] *)
Definition with_isFavorite (v : bool) (d : DreamEntry) : DreamEntry :=
  {| id := id d;
     date := date d;
     transcription := transcription d;
     imageUrl := imageUrl d;
     interpretation := interpretation d;
     isFavorite := Some v |}.

End Types.

(* ===================================================================== *)
(** ** What the program calls but does not define *)
(* ===================================================================== *)

Module Host.
Import JS Types.

(** The builtins and the remote service, as the functions the program
    sees during one handler run.
      - [JSON_parse s] is [None] when [JSON.parse(s)] throws a SyntaxError; a
        blob that parses is taken to hold an array of entries, the type the
        source gives it.
      - [quota_exceeded v] tells whether [localStorage.setItem] rejects the
        value [v] with a QuotaExceededError.
      - [Date_getTime s] is [new Date(s).getTime()], [None] standing for NaN.
      - [Date_now_toString] and [Date_toISOString] are what
        [Date.now().toString()] and [new Date().toISOString()] return.
      - [generateImages] and [generateContent] tell how the two requests to
        the remote model settle; [generatedImages] of a response may be
        missing. *)
Record Env : Type := {
  JSON_parse : jsstring -> option (list DreamEntry);
  JSON_stringify : list DreamEntry -> jsstring;
  quota_exceeded : jsstring -> bool;
  Date_getTime : jsstring -> option Z;
  Date_now_toString : jsstring;
  Date_toISOString : jsstring;
  generateImages : jsstring -> AspectRatio -> promise (option (list jsstring));
  generateContent : jsstring -> promise jsstring
}.

(** The image bytes of a response to [generateImages], when the request
    succeeded and returned an image. *)
Definition image_of (response : promise (option (list jsstring))) : option jsstring :=
  match response with
  | Fulfilled (Some (bytes :: _)) => Some bytes
  | _ => None
  end.

(** The text of a response to [generateContent], when the request
    succeeded. *)
Definition text_of (response : promise jsstring) : option jsstring :=
  match response with
  | Fulfilled t => Some t
  | Rejected _ => None
  end.

(** Calls that leave the application. *)
Inductive Call : Type :=
| ai_generateImages (prompt : jsstring) (aspectRatio : AspectRatio)
| ai_generateContent (model : string) (contents : jsstring)
| console_error (what : string).

End Host.

(* ===================================================================== *)
(** ** services/geminiService.ts *)
(* ===================================================================== *)

Module GeminiService.
Import JS Eff Types Host.
Local Open Scope eff_scope.

Section Service.
Variable St : Type.
Variable env : Env.

Definition image_prompt (transcription style customPrompt : jsstring) : jsstring :=
  let prompt :=
    str "A " ++ style
    ++ str ", high-resolution, emotionally evocative painting representing the core essence of this dream: "
    ++ dquote ++ transcription ++ dquote in
  if truthy (trim customPrompt)
  then prompt ++ str ". Also, incorporate the following creative direction: "
       ++ dquote ++ trim customPrompt ++ dquote
  else prompt.

Definition generateDreamImage (transcription style : jsstring)
  (aspectRatio : AspectRatio) (customPrompt : jsstring) : M St Call jsstring :=
  let prompt := image_prompt transcription style customPrompt in
  emit (ai_generateImages prompt aspectRatio) ;;
  response <- await (generateImages env prompt aspectRatio) ;;
  match response with
  | Some (base64ImageBytes :: _) =>
      ret (str "data:image/jpeg;base64," ++ base64ImageBytes)
  | _ => throw "Image generation failed or returned no images."%string
  end.

(** The system instruction sent along is a constant of the source. *)
Definition interpretDream (transcription : jsstring) : M St Call jsstring :=
  emit (ai_generateContent "gemini-2.5-pro" transcription) ;;
  await (generateContent env transcription).

Definition generateDreamAnalysis (transcription style : jsstring)
  (aspectRatio : AspectRatio) (customPrompt : jsstring)
  : M St Call (jsstring * jsstring) :=
  try_catch
    (Promise_all2
       (generateDreamImage transcription style aspectRatio customPrompt)
       (interpretDream transcription))
    (fun _ =>
       emit (console_error "Error in generateDreamAnalysis:") ;;
       throw "Failed to generate dream analysis."%string).

End Service.

End GeminiService.

(* ===================================================================== *)
(** ** components/DreamAnalysis.tsx *)
(* ===================================================================== *)

Module DreamAnalysis.
Import JS Eff Types Host.

(** [handleToggleFavorite] of the detail view; [dream] and [onUpdateDream]
    are props. *)
Definition handleToggleFavorite {St} (onUpdateDream : DreamEntry -> M St Call unit)
  (dream : DreamEntry) : M St Call unit :=
  onUpdateDream (with_isFavorite (negb (truthy_flag (isFavorite dream))) dream).

End DreamAnalysis.

(* ===================================================================== *)
(** ** App.tsx *)
(* ===================================================================== *)

Module App.
Import JS Eff Types Host.
Local Open Scope eff_scope.

(** The [useState] cells of the component. *)
Record State : Type := {
  appState : AppState;
  currentDream : option DreamEntry;
  allDreams : list DreamEntry;
  error : option jsstring;
  artStyle : jsstring;
  aspectRatio : AspectRatio;
  customImagePrompt : jsstring
}.

(** The component together with the blob stored under [DREAMS_KEY];
    [None] when the key is absent. *)
Record World : Type := {
  ui : State;
  localStorage : option jsstring
}.

Definition A := M World Call.

Definition with_ui (f : State -> State) (w : World) : World :=
  {| ui := f (ui w); localStorage := localStorage w |}.

Definition with_localStorage (v : option jsstring) (w : World) : World :=
  {| ui := ui w; localStorage := v |}.

Definition setAppState (v : AppState) : A unit :=
  modify (with_ui (fun s =>
    {| appState := v;
       currentDream := currentDream s;
       allDreams := allDreams s;
       error := error s;
       artStyle := artStyle s;
       aspectRatio := aspectRatio s;
       customImagePrompt := customImagePrompt s |})).

Definition setCurrentDream (v : option DreamEntry) : A unit :=
  modify (with_ui (fun s =>
    {| appState := appState s;
       currentDream := v;
       allDreams := allDreams s;
       error := error s;
       artStyle := artStyle s;
       aspectRatio := aspectRatio s;
       customImagePrompt := customImagePrompt s |})).

(** [setAllDreams(prev => f(prev))]; a plain value is the constant
    function. *)
Definition setAllDreams (f : list DreamEntry -> list DreamEntry) : A unit :=
  modify (with_ui (fun s =>
    {| appState := appState s;
       currentDream := currentDream s;
       allDreams := f (allDreams s);
       error := error s;
       artStyle := artStyle s;
       aspectRatio := aspectRatio s;
       customImagePrompt := customImagePrompt s |})).

Definition setError (v : option jsstring) : A unit :=
  modify (with_ui (fun s =>
    {| appState := appState s;
       currentDream := currentDream s;
       allDreams := allDreams s;
       error := v;
       artStyle := artStyle s;
       aspectRatio := aspectRatio s;
       customImagePrompt := customImagePrompt s |})).

Section Handlers.
Variable env : Env.

(** *** Local storage service *)

Definition localStorage_getItem : A (option jsstring) :=
  w <- get ;; ret (localStorage w).

Definition localStorage_removeItem : A unit :=
  modify (with_localStorage None).

Definition localStorage_setItem (v : jsstring) : A unit :=
  if quota_exceeded env v then throw "QuotaExceededError"%string
  else modify (with_localStorage (Some v)).

Definition parse (s : jsstring) : A (list DreamEntry) :=
  match JSON_parse env s with
  | Some dreams => ret dreams
  | None => throw "SyntaxError"%string
  end.

Definition getSavedDreams : A (list DreamEntry) :=
  try_catch
    (savedDreams <- localStorage_getItem ;;
     match savedDreams with
     | Some s => if truthy s then parse s else ret []
     | None => ret []
     end)
    (fun _ =>
       emit (console_error "Failed to parse dreams from local storage:") ;;
       localStorage_removeItem ;;
       ret []).

Definition saveDreams (dreams : list DreamEntry) : A unit :=
  try_catch
    (localStorage_setItem (JSON_stringify env dreams))
    (fun _ => emit (console_error "Failed to save dreams to local storage:")).

Definition saveNewDream (newDream : DreamEntry) : A unit :=
  try_catch
    (existingDreams <- getSavedDreams ;;
     let updatedDreams := newDream :: existingDreams in
     saveDreams updatedDreams)
    (fun _ => emit (console_error "Failed to save dream to local storage:")).

(** *** Handlers *)

(** The effect run on mount. *)
Definition load : A unit :=
  dreams <- getSavedDreams ;;
  setAllDreams (fun _ => dreams).

Definition handleRecordingComplete (transcription : jsstring) : A unit :=
  w <- get ;;
  if negb (truthy (trim transcription)) then
    setError (Some (str "The recording was empty. Please try again.")) ;;
    setAppState IDLE
  else
    setAppState ANALYZING ;;
    setError None ;;
    try_catch
      (analysis <- GeminiService.generateDreamAnalysis env transcription
                     (artStyle (ui w)) (aspectRatio (ui w))
                     (customImagePrompt (ui w)) ;;
       let newDream :=
         {| id := Date_now_toString env;
            date := Date_toISOString env;
            transcription := transcription;
            imageUrl := fst analysis;
            interpretation := snd analysis;
            isFavorite := Some false |} in
       saveNewDream newDream ;;
       setAllDreams (fun prev => newDream :: prev) ;;
       setCurrentDream (Some newDream) ;;
       setAppState VIEWING)
      (fun _ =>
         emit (console_error "Error during dream analysis:") ;;
         setError (Some (str
           "There was an error analyzing your dream. Please check your API key and try again.")) ;;
         setAppState IDLE).

Definition handleSelectDream (dreamToView : DreamEntry) : A unit :=
  setCurrentDream (Some dreamToView) ;;
  setAppState VIEWING.

Definition handleGoHome : A unit :=
  setAppState IDLE ;;
  setCurrentDream None ;;
  setError None.

(** The props of the recorder, [onRecordingStart={() =>
    setAppState(AppState.RECORDING)}] and [initialState={isRec ?
    'recording' : 'idle'}], where [isRec] is [appState ===
    AppState.RECORDING]. *)
Definition onRecordingStart : A unit := setAppState RECORDING.

Definition initialState (w : World) : DreamRecorder.InitialState :=
  match appState (ui w) with
  | RECORDING => DreamRecorder.recording
  | _ => DreamRecorder.idle
  end.

Definition handleUpdateDream (updatedDream : DreamEntry) : A unit :=
  w <- get ;;
  setCurrentDream (Some updatedDream) ;;
  let updatedDreams :=
    map (fun d => if eqb (id d) (id updatedDream) then updatedDream else d)
        (allDreams (ui w)) in
  setAllDreams (fun _ => updatedDreams) ;;
  saveDreams updatedDreams.

Definition toggle (dreamId : jsstring) (d : DreamEntry) : DreamEntry :=
  if eqb (id d) dreamId
  then with_isFavorite (negb (truthy_flag (isFavorite d))) d
  else d.

Definition handleToggleFavorite (dreamId : jsstring) : A unit :=
  w <- get ;;
  let updatedDreams := map (toggle dreamId) (allDreams (ui w)) in
  setAllDreams (fun _ => updatedDreams) ;;
  saveDreams updatedDreams.

(** *** sortedDreams *)

(** The comparator passed to [sort].  A NaN difference, which [sort] reads
    as +0, is returned as 0. *)
Definition compareDreams (a b : DreamEntry) : Z :=
  if truthy_flag (isFavorite a) && negb (truthy_flag (isFavorite b)) then (-1)%Z
  else if negb (truthy_flag (isFavorite a)) && truthy_flag (isFavorite b) then 1%Z
  else
    match Date_getTime env (date b), Date_getTime env (date a) with
    | Some tb, Some ta => (tb - ta)%Z
    | _, _ => 0%Z
    end.

(** An entry whose date the engine can read. *)
Definition dated (d : DreamEntry) : Prop := Date_getTime env (date d) <> None.

(** [a] may stand before [b] in the history: a favorite never follows a
    plain entry, and of two entries with the same favorite status the one
    standing first is not the older. *)
Definition history_order (a b : DreamEntry) : Prop :=
  (truthy_flag (isFavorite b) = true -> truthy_flag (isFavorite a) = true)
  /\ (truthy_flag (isFavorite a) = truthy_flag (isFavorite b) ->
      exists ta tb,
        Date_getTime env (date a) = Some ta
        /\ Date_getTime env (date b) = Some tb
        /\ (tb <= ta)%Z).

(** *** What a run of [handleRecordingComplete] is compared with *)

(** The world after a recording that is dropped or whose analysis failed:
    only the error message and the application state change. *)
Definition back_to_idle (message : string) (w : World) : World :=
  {| ui :=
       {| appState := IDLE;
          currentDream := currentDream (ui w);
          allDreams := allDreams (ui w);
          error := Some (str message);
          artStyle := artStyle (ui w);
          aspectRatio := aspectRatio (ui w);
          customImagePrompt := customImagePrompt (ui w) |};
     localStorage := localStorage w |}.

(** The entry built from the two responses. *)
Definition new_entry (transcription bytes text : jsstring) : DreamEntry :=
  {| id := Date_now_toString env;
     date := Date_toISOString env;
     transcription := transcription;
     imageUrl := str "data:image/jpeg;base64," ++ bytes;
     interpretation := text;
     isFavorite := Some false |}.

(** The two requests of one analysis. *)
Definition analysis_requests (transcription : jsstring) (w : World) : list Call :=
  [ai_generateImages
     (GeminiService.image_prompt transcription (artStyle (ui w))
        (customImagePrompt (ui w)))
     (aspectRatio (ui w));
   ai_generateContent "gemini-2.5-pro" transcription].

End Handlers.

(** [Array.prototype.sort] is stable, so for a comparator that is a
    consistent ordering its result depends on the comparator alone; the
    model is the stable insertion sort. *)
Section Sort.
Variable T : Type.
Variable comparefn : T -> T -> Z.

Fixpoint insert (x : T) (l : list T) : list T :=
  match l with
  | [] => [x]
  | y :: l' => if (0 <? comparefn x y)%Z then y :: insert x l' else x :: l
  end.

Fixpoint Array_sort (l : list T) : list T :=
  match l with
  | [] => []
  | x :: l' => insert x (Array_sort l')
  end.

End Sort.

Definition sortedDreams (env : Env) (allDreams : list DreamEntry) : list DreamEntry :=
  Array_sort (compareDreams env) allDreams.

(** The state of a freshly mounted component. *)
Definition mount : State :=
  {| appState := IDLE;
     currentDream := None;
     allDreams := [];
     error := None;
     artStyle := str "surrealist, dream-like";
     aspectRatio := ratio_16_9;
     customImagePrompt := [] |}.

End App.

(* ===================================================================== *)
(** ** Sample sessions and histories *)
(* ===================================================================== *)

Module Samples.
Import JS Eff Types Host.
Local Open Scope eff_scope.

(** *** Recording sessions *)

Definition context : DreamRecorder.AudioContext :=
  {| DreamRecorder.ctx_id := 1%N; DreamRecorder.ctx_state := DreamRecorder.running |}.

(** A session that is started and opened, after the given messages have
    arrived. *)
Definition session (messages : list DreamRecorder.LiveServerMessage)
  : DreamRecorder.Recorder :=
  state_after
    (DreamRecorder.startRecording (Fulfilled [1%N]) (Fulfilled 7%N) ;;
     DreamRecorder.onopen context 1%N 2%N 3%N 1%positive [] ;;
     forEach DreamRecorder.onmessage messages)
    (DreamRecorder.mount false).

(** An interim fragment, then two final ones. *)
Definition two_finals : list DreamRecorder.LiveServerMessage :=
  [DreamRecorder.transcript_message false (str "a");
   DreamRecorder.transcript_message true (str "a");
   DreamRecorder.transcript_message true (str "b")].

(** A session whose connection to the remote service failed: the
    microphone was acquired, the session promise is rejected. *)
Definition rejected_session : DreamRecorder.Recorder :=
  state_after
    (DreamRecorder.startRecording (Fulfilled [1%N]) (Rejected "connect failed"%string))
    (DreamRecorder.mount false).

(** *** Histories *)

Definition entry (i d : string) (favorite : option bool) : DreamEntry :=
  {| id := str i;
     date := str d;
     transcription := str "a river of glass";
     imageUrl := str "data:image/jpeg;base64,AAAA";
     interpretation := str "**Core Emotional Theme:** calm";
     isFavorite := favorite |}.

Definition older_favorite : DreamEntry :=
  entry "1704067200000" "2024-01-01T00:00:00.000Z" (Some true).
Definition newer_plain : DreamEntry :=
  entry "1704153600000" "2024-01-02T00:00:00.000Z" (Some false).
Definition newest_plain : DreamEntry :=
  entry "1704240000000" "2024-01-03T00:00:00.000Z" None.
Definition newest_favorite : DreamEntry :=
  entry "1704326400000" "2024-01-04T00:00:00.000Z" (Some true).

Definition history : list DreamEntry :=
  [newer_plain; older_favorite; newest_plain; newest_favorite].

(** A printer of entries, without escapes, standing for [JSON.stringify]
    on the sample histories. *)
Definition print_field (name : string) (value : jsstring) : jsstring :=
  dquote ++ str name ++ dquote ++ str ":" ++ dquote ++ value ++ dquote.

Definition print_entry (d : DreamEntry) : jsstring :=
  str "{" ++ print_field "id" (id d)
  ++ str "," ++ print_field "date" (date d)
  ++ str "," ++ print_field "transcription" (transcription d)
  ++ str "," ++ print_field "imageUrl" (imageUrl d)
  ++ str "," ++ print_field "interpretation" (interpretation d)
  ++ match isFavorite d with
     | Some true => str "," ++ dquote ++ str "isFavorite" ++ dquote ++ str ":true"
     | Some false => str "," ++ dquote ++ str "isFavorite" ++ dquote ++ str ":false"
     | None => []
     end
  ++ str "}".

Fixpoint print_entries (l : list DreamEntry) : jsstring :=
  match l with
  | [] => []
  | [d] => print_entry d
  | d :: rest => print_entry d ++ str "," ++ print_entries rest
  end.

(** The instants of the sample dates, in milliseconds. *)
Definition getTime (s : jsstring) : option Z :=
  if eqb s (str "2024-01-01T00:00:00.000Z") then Some 1704067200000%Z
  else if eqb s (str "2024-01-02T00:00:00.000Z") then Some 1704153600000%Z
  else if eqb s (str "2024-01-03T00:00:00.000Z") then Some 1704240000000%Z
  else if eqb s (str "2024-01-04T00:00:00.000Z") then Some 1704326400000%Z
  else None.

(** A host in which both requests succeed and the store accepts every
    write.  Its parser knows the empty array and rejects everything else. *)
Definition host : Env :=
  {| JSON_parse := fun s => if eqb s (str "[]") then Some [] else None;
     JSON_stringify := fun l => str "[" ++ print_entries l ++ str "]";
     quota_exceeded := fun _ => false;
     Date_getTime := getTime;
     Date_now_toString := str "1704412800000";
     Date_toISOString := str "2024-01-05T00:00:00.000Z";
     generateImages := fun _ _ => Fulfilled (Some [str "AAAA"]);
     generateContent := fun _ => Fulfilled (str "**Core Emotional Theme:** calm") |}.

(** The same host with the image request answered without images. *)
Definition host_without_image : Env :=
  {| JSON_parse := JSON_parse host;
     JSON_stringify := JSON_stringify host;
     quota_exceeded := quota_exceeded host;
     Date_getTime := Date_getTime host;
     Date_now_toString := Date_now_toString host;
     Date_toISOString := Date_toISOString host;
     generateImages := fun _ _ => Fulfilled (Some []);
     generateContent := generateContent host |}.

(** The application showing [history], the store holding its
    serialization. *)
Definition world : App.World :=
  {| App.ui :=
       {| App.appState := IDLE;
          App.currentDream := None;
          App.allDreams := history;
          App.error := None;
          App.artStyle := App.artStyle App.mount;
          App.aspectRatio := App.aspectRatio App.mount;
          App.customImagePrompt := [] |};
     App.localStorage := Some (JSON_stringify host history) |}.

(** A transcript made of a space, a tab, a line feed, a no-break space and
    an ideographic space. *)
Definition blank_transcript : jsstring := [32; 9; 10; 160; 12288]%N.

End Samples.

(* ===================================================================== *)
(** ** The persisted history, as the application reads it *)
(* ===================================================================== *)

Module History.
Import JS Eff Types Host App.

(** The list [getSavedDreams] finds in a store: the parsed blob, and the
    empty list when the key is absent, the blob empty or not parseable. *)
Definition stored_dreams (env : Env) (w : World) : list DreamEntry :=
  match localStorage w with
  | Some s =>
      if truthy s then
        match JSON_parse env s with Some dreams => dreams | None => [] end
      else []
  | None => []
  end.

(** The store holds a blob that [getSavedDreams] has to discard. *)
Definition corrupt (env : Env) (w : World) : bool :=
  match localStorage w with
  | Some s =>
      if truthy s then
        match JSON_parse env s with Some _ => false | None => true end
      else false
  | None => false
  end.

(** The store holds the serialization of the list in memory. *)
Definition in_sync (env : Env) (w : World) : Prop :=
  localStorage w = Some (JSON_stringify env (allDreams (ui w))).

(** The requests among the calls of a run. *)
Definition is_request (c : Call) : bool :=
  match c with
  | ai_generateImages _ _ => true
  | ai_generateContent _ _ => true
  | console_error _ => false
  end.

(** A host like [Samples.host] whose parser also reads the serialization
    of [Samples.history] and of that history with the entry of one more
    recording at its head. *)
Definition recorded : DreamEntry :=
  new_entry Samples.host (str "a river of glass") (str "AAAA")
    (str "**Core Emotional Theme:** calm").

Definition reading_host : Env :=
  {| JSON_parse := fun s =>
       if eqb s (str "[]") then Some []
       else if eqb s (JSON_stringify Samples.host Samples.history)
            then Some Samples.history
       else if eqb s (JSON_stringify Samples.host (recorded :: Samples.history))
            then Some (recorded :: Samples.history)
       else None;
     JSON_stringify := JSON_stringify Samples.host;
     quota_exceeded := quota_exceeded Samples.host;
     Date_getTime := Date_getTime Samples.host;
     Date_now_toString := Date_now_toString Samples.host;
     Date_toISOString := Date_toISOString Samples.host;
     generateImages := generateImages Samples.host;
     generateContent := generateContent Samples.host |}.

(** A world whose store holds a blob that does not parse. *)
Definition corrupt_world : World :=
  {| ui := ui Samples.world; localStorage := Some (str "{not json") |}.

End History.

(* ===================================================================== *)
(** ** Trimmed text *)
(* ===================================================================== *)

Module Text.
Import JS.

(** The string is empty or starts with a character that is not
    whitespace. *)
Definition starts_clean (s : jsstring) : bool :=
  match s with
  | [] => true
  | c :: _ => negb (isWhiteSpace c)
  end.

(** The string is empty or ends with a character that is not whitespace. *)
Definition ends_clean (s : jsstring) : bool := starts_clean (rev s).

(** A word: not empty, no whitespace at either end. *)
Definition word (s : jsstring) : bool :=
  truthy s && starts_clean s && ends_clean s.

(** Words separated by single spaces. *)
Fixpoint join_words (words : list jsstring) : jsstring :=
  match words with
  | [] => []
  | [w] => w
  | w :: rest => w ++ str " " ++ join_words rest
  end.

(** The strings that are not blank, trimmed. *)
Definition words_of (texts : list jsstring) : list jsstring :=
  filter truthy (map trim texts).

End Text.

(* ===================================================================== *)
(** ** createBlob: the bytes and their base64 envelope *)
(* ===================================================================== *)

Module Pcm.
Import JS DreamRecorder.

(** The two bytes of a 16-bit integer in an [Int16Array] buffer, as the
    [Uint8Array] over the buffer shows them: two's complement, low byte
    first (typed arrays use the byte order of the platform, little-endian on
    the platforms browsers run on). *)
Definition int16_bytes (n : Z) : list N :=
  let u := (n mod 65536)%Z in
  [Z.to_N (u mod 256); Z.to_N (u / 256)].

(** [new Uint8Array(int16.buffer)] *)
Definition Uint8Array_of (int16 : list Z) : list N := flat_map int16_bytes int16.

(** The base64 alphabet and its padding character. *)
Definition alphabet : jsstring :=
  str "ABCDEFGHIJKLMNOPQRSTUVWXYZabcdefghijklmnopqrstuvwxyz0123456789+/".

Definition pad : N := 61%N.

Definition digit (n : N) : N := nth (N.to_nat n) alphabet pad.

(** The base64 encoding of a sequence of bytes, three bytes to four
    characters. *)
Fixpoint base64 (bytes : list N) : jsstring :=
  match bytes with
  | [] => []
  | [a] => [digit (a / 4); digit ((a mod 4) * 16); pad; pad]
  | [a; b] =>
      [digit (a / 4); digit ((a mod 4) * 16 + b / 16);
       digit ((b mod 16) * 4); pad]
  | a :: b :: c :: rest =>
      digit (a / 4)
      :: digit ((a mod 4) * 16 + b / 16)
      :: digit ((b mod 16) * 4 + c / 64)
      :: digit (c mod 64)
      :: base64 rest
  end%N.

(** [btoa]: a character above U+00FF raises InvalidCharacterError. *)
Definition btoa (binary : jsstring) : outcome jsstring :=
  if forallb (fun c => (c <=? 255)%N) binary
  then Returns (base64 binary)
  else Throws "InvalidCharacterError"%string.

(** [encode]: the loop appends [String.fromCharCode(bytes[i])], the
    character whose code is the byte, so [binary] is the bytes read as
    code units. *)
Definition encode (bytes : list N) : outcome jsstring := btoa bytes.

Record Blob : Type := {
  data : jsstring;
  mimeType : jsstring
}.

Definition createBlob (samples : list sample) : outcome Blob :=
  match encode (Uint8Array_of (createBlob_int16 samples)) with
  | Returns d => Returns {| data := d; mimeType := str "audio/pcm;rate=16000" |}
  | Throws e => Throws e
  end.

(** *** Reading a payload back *)

(** The position of a character in the alphabet, 0 for a character that
    is not in it. *)
Fixpoint index_in (c : N) (l : list N) : N :=
  match l with
  | [] => 0
  | x :: l' => if (x =? c)%N then 0 else (1 + index_in c l')%N
  end.

Definition undigit (c : N) : N :=
  let i := index_in c alphabet in
  if (i <? 64)%N then i else 0%N.

(** Base64 decoding of a padded payload. *)
Fixpoint unbase64 (s : jsstring) : list N :=
  match s with
  | c1 :: c2 :: c3 :: c4 :: rest =>
      let d1 := undigit c1 in
      let d2 := undigit c2 in
      let d3 := undigit c3 in
      let d4 := undigit c4 in
      if (c3 =? pad)%N then [d1 * 4 + d2 / 16]
      else if (c4 =? pad)%N then [d1 * 4 + d2 / 16; (d2 mod 16) * 16 + d3 / 4]
      else (d1 * 4 + d2 / 16)
           :: ((d2 mod 16) * 16 + d3 / 4)
           :: ((d3 mod 4) * 64 + d4)
           :: unbase64 rest
  | _ => []
  end%N.

(** Little-endian signed 16-bit integers of a sequence of bytes. *)
Fixpoint int16_of_bytes (bytes : list N) : list Z :=
  match bytes with
  | lo :: hi :: rest => wrap16 (Z.of_N lo + 256 * Z.of_N hi) :: int16_of_bytes rest
  | _ => []
  end.

(** What a receiver of 16-bit little-endian PCM in base64 reads. *)
Definition decode_pcm (payload : jsstring) : list Z :=
  int16_of_bytes (unbase64 payload).

(** The digit of [n] is in the alphabet, is not the padding character and
    is read back by [undigit]. *)
Definition digit_check (n : N) : bool :=
  ((undigit (digit n) =? n) && negb (digit n =? pad)
   && existsb (N.eqb (digit n)) alphabet)%N.

End Pcm.

(* ===================================================================== *)
(** ** The title of a dream: match of the core-theme pattern *)
(* ===================================================================== *)

Module Theme.
Import JS.

(** The pattern matched against an interpretation is the literal text
    below, then any run of whitespace, then a group capturing any run of
    characters other than line terminators. *)
Definition marker : jsstring := str "**Core Emotional Theme:**".

(** The rest of [s] after the prefix [p], when [s] starts with [p]. *)
Fixpoint strip_prefix (p s : jsstring) : option jsstring :=
  match p, s with
  | [], _ => Some s
  | _ :: _, [] => None
  | a :: p', b :: s' => if (a =? b)%N then strip_prefix p' s' else None
  end.

(** What follows the first occurrence of [p] in [s]. *)
Fixpoint find_after (p s : jsstring) : option jsstring :=
  match strip_prefix p s with
  | Some rest => Some rest
  | None =>
      match s with
      | [] => None
      | _ :: s' => find_after p s'
      end
  end.

(** The characters [.] does not match. *)
Definition isLineTerminator (c : N) : bool :=
  ((c =? 10) || (c =? 13) || (c =? 8232) || (c =? 8233))%N.

(** The longest prefix without a line terminator: what the group
    captures. *)
Fixpoint line (s : jsstring) : jsstring :=
  match s with
  | [] => []
  | c :: s' => if isLineTerminator c then [] else c :: line s'
  end.

(** Group 1 of the match of the pattern in [interpretation], [None] when
    there is no match.  What follows the literal matches at every position,
    so the match is at the first occurrence of the literal; the whitespace
    run takes all the whitespace that follows, line breaks included, and the
    group the rest of the line it stops on. *)
Definition core_theme (interpretation : jsstring) : option jsstring :=
  match find_after marker interpretation with
  | Some rest => Some (line (trimStart rest))
  | None => None
  end.

(** [titleMatch ? titleMatch[1] : "A Recorded Dream"], the title of a
    history item. *)
Definition title (interpretation : jsstring) : jsstring :=
  match core_theme interpretation with
  | Some t => t
  | None => str "A Recorded Dream"
  end.

(** [titleMatch ? titleMatch[1] : ""], the initial keywords of the detail
    view. *)
Definition initialPrompt (interpretation : jsstring) : jsstring :=
  match core_theme interpretation with
  | Some t => t
  | None => []
  end.

End Theme.
(* ===================================================================== *)
(** ** More control flow for handlers *)
(* ===================================================================== *)

Module Control.
Import JS Eff.

Section Finally.
Variables St Ev : Type.

(** [try { c } finally { f }]: [f] runs however [c] ends; the outcome is
    that of [c] unless [f] throws. *)
Definition try_finally {A} (c : M St Ev A) (f : M St Ev unit) : M St Ev A :=
  fun s =>
    match c s with
    | (o, s1, l1) =>
        match f s1 with
        | (Returns _, s2, l2) => (o, s2, l1 ++ l2)
        | (Throws e, s2, l2) => (Throws e, s2, l1 ++ l2)
        end
    end.

(** A handler of one component run inside a larger state that holds the
    component's state. *)
Definition on_part {Whole A} (part : Whole -> St) (update : St -> Whole -> Whole)
  (c : M St Ev A) : M Whole Ev A :=
  fun w =>
    match c (part w) with
    | (o, s, l) => (o, update s w, l)
    end.

End Finally.

End Control.

(* ===================================================================== *)
(** ** components/ChatInterface.tsx *)
(* ===================================================================== *)

Module ChatInterface.
Import JS Eff.
Local Open Scope eff_scope.

(** [ChatMessage] of types.ts. *)
Inductive Role : Type := user | model.

Record ChatMessage : Type := {
  role : Role;
  text : jsstring
}.

(** The [useState] cells and the [useRef] cells of the component;
    [chatRef] holds the chat created for the dream, if any. *)
Record Chat : Type := {
  messages : list ChatMessage;
  input : jsstring;
  isLoading : bool;
  isVoiceRecording : bool;
  chatRef : option N;
  sessionPromiseRef : option (promise DreamRecorder.LiveSession);
  audioContextRef : option DreamRecorder.AudioContext;
  scriptProcessorRef : option N;
  mediaStreamRef : option DreamRecorder.MediaStream
}.

(** [setMessages(prev => f(prev))] *)
Definition setMessages (f : list ChatMessage -> list ChatMessage) (c : Chat) : Chat :=
  {| messages := f (messages c);
     input := input c;
     isLoading := isLoading c;
     isVoiceRecording := isVoiceRecording c;
     chatRef := chatRef c;
     sessionPromiseRef := sessionPromiseRef c;
     audioContextRef := audioContextRef c;
     scriptProcessorRef := scriptProcessorRef c;
     mediaStreamRef := mediaStreamRef c |}.

(** [setInput(prev => f(prev))] *)
Definition setInput (f : jsstring -> jsstring) (c : Chat) : Chat :=
  {| messages := messages c;
     input := f (input c);
     isLoading := isLoading c;
     isVoiceRecording := isVoiceRecording c;
     chatRef := chatRef c;
     sessionPromiseRef := sessionPromiseRef c;
     audioContextRef := audioContextRef c;
     scriptProcessorRef := scriptProcessorRef c;
     mediaStreamRef := mediaStreamRef c |}.

Definition setIsLoading (v : bool) (c : Chat) : Chat :=
  {| messages := messages c;
     input := input c;
     isLoading := v;
     isVoiceRecording := isVoiceRecording c;
     chatRef := chatRef c;
     sessionPromiseRef := sessionPromiseRef c;
     audioContextRef := audioContextRef c;
     scriptProcessorRef := scriptProcessorRef c;
     mediaStreamRef := mediaStreamRef c |}.

Definition setIsVoiceRecording (v : bool) (c : Chat) : Chat :=
  {| messages := messages c;
     input := input c;
     isLoading := isLoading c;
     isVoiceRecording := v;
     chatRef := chatRef c;
     sessionPromiseRef := sessionPromiseRef c;
     audioContextRef := audioContextRef c;
     scriptProcessorRef := scriptProcessorRef c;
     mediaStreamRef := mediaStreamRef c |}.

Definition set_chatRef (v : option N) (c : Chat) : Chat :=
  {| messages := messages c;
     input := input c;
     isLoading := isLoading c;
     isVoiceRecording := isVoiceRecording c;
     chatRef := v;
     sessionPromiseRef := sessionPromiseRef c;
     audioContextRef := audioContextRef c;
     scriptProcessorRef := scriptProcessorRef c;
     mediaStreamRef := mediaStreamRef c |}.

Definition set_sessionPromiseRef (v : option (promise DreamRecorder.LiveSession))
  (c : Chat) : Chat :=
  {| messages := messages c;
     input := input c;
     isLoading := isLoading c;
     isVoiceRecording := isVoiceRecording c;
     chatRef := chatRef c;
     sessionPromiseRef := v;
     audioContextRef := audioContextRef c;
     scriptProcessorRef := scriptProcessorRef c;
     mediaStreamRef := mediaStreamRef c |}.

Definition set_audioContextRef (v : option DreamRecorder.AudioContext) (c : Chat) : Chat :=
  {| messages := messages c;
     input := input c;
     isLoading := isLoading c;
     isVoiceRecording := isVoiceRecording c;
     chatRef := chatRef c;
     sessionPromiseRef := sessionPromiseRef c;
     audioContextRef := v;
     scriptProcessorRef := scriptProcessorRef c;
     mediaStreamRef := mediaStreamRef c |}.

Definition set_scriptProcessorRef (v : option N) (c : Chat) : Chat :=
  {| messages := messages c;
     input := input c;
     isLoading := isLoading c;
     isVoiceRecording := isVoiceRecording c;
     chatRef := chatRef c;
     sessionPromiseRef := sessionPromiseRef c;
     audioContextRef := audioContextRef c;
     scriptProcessorRef := v;
     mediaStreamRef := mediaStreamRef c |}.

Definition set_mediaStreamRef (v : option DreamRecorder.MediaStream) (c : Chat) : Chat :=
  {| messages := messages c;
     input := input c;
     isLoading := isLoading c;
     isVoiceRecording := isVoiceRecording c;
     chatRef := chatRef c;
     sessionPromiseRef := sessionPromiseRef c;
     audioContextRef := audioContextRef c;
     scriptProcessorRef := scriptProcessorRef c;
     mediaStreamRef := v |}.

(** The state of a freshly mounted component. *)
Definition mount : Chat :=
  {| messages := [];
     input := [];
     isLoading := false;
     isVoiceRecording := false;
     chatRef := None;
     sessionPromiseRef := None;
     audioContextRef := None;
     scriptProcessorRef := None;
     mediaStreamRef := None |}.

(** Calls that leave the component. *)
Inductive Call : Type :=
| track_stop (t : DreamRecorder.Track)
| processor_disconnect (n : N)
| audioContext_close (c : N)
| session_close (s : DreamRecorder.LiveSession)
| chat_sendMessage (chat : N) (message : jsstring)
| console_error (what : string).

Definition C := M Chat Call.

(** The effect run when the dream changes: [createChatSession] gives the
    chat, and the messages are reset. *)
Definition onDreamChange (chat : N) : C unit :=
  modify (set_chatRef (Some chat)) ;;
  modify (setMessages (fun _ => [])).

(** [onopen], given the audio context and the processing node it
    creates. *)
Definition onopen (ctx : DreamRecorder.AudioContext) (processor : N) : C unit :=
  modify (set_audioContextRef (Some ctx)) ;;
  modify (set_scriptProcessorRef (Some processor)).

(** [(prev.trim() ? prev.trim() + ' ' : '') + text.trim() + ' '] *)
Definition dictate (fragment prev : jsstring) : jsstring :=
  (if truthy (trim prev) then trim prev ++ str " " else [])
  ++ trim fragment ++ str " ".

Definition onmessage (message : DreamRecorder.LiveServerMessage) : C unit :=
  match DreamRecorder.message_transcription message with
  | Some t =>
      if DreamRecorder.isFinal t && truthy (DreamRecorder.text t)
      then modify (setInput (dictate (DreamRecorder.text t)))
      else ret tt
  | None => ret tt
  end.

Definition apology : jsstring :=
  str "Sorry, I encountered an error. Please try again.".

(** *** The handlers, as closures of a render *)

Module Handler.
Import Eff.Async.
Local Open Scope async_scope.

(** [stopVoiceRecording] of a render.  [isVoiceRecording] is the cell of
    that render; the refs are read when the statement runs.  The handler is
    suspended while the audio context closes and while it awaits the
    session promise. *)
Definition stopVoiceRecording (render : Chat) : async Chat Call unit :=
  if negb (isVoiceRecording render) then ret tt
  else
    modify (setIsVoiceRecording false) ;;
    (c <- get ;;
     match mediaStreamRef c with
     | Some stream =>
         lift (forEach (fun track => Eff.emit (track_stop track)) stream) ;;
         modify (set_mediaStreamRef None)
     | None => ret tt
     end) ;;
    (c <- get ;;
     match scriptProcessorRef c with
     | Some n => emit (processor_disconnect n) ;; modify (set_scriptProcessorRef None)
     | None => ret tt
     end) ;;
    (c <- get ;;
     match audioContextRef c with
     | Some ctx =>
         if negb (DreamRecorder.is_closed ctx)
         then emit (audioContext_close (DreamRecorder.ctx_id ctx)) ;;
              yield ;;
              modify (set_audioContextRef None)
         else ret tt
     | None => ret tt
     end) ;;
    (c <- get ;;
     match sessionPromiseRef c with
     | Some p =>
         session <- await p ;;
         emit (session_close session) ;;
         modify (set_sessionPromiseRef None)
     | None => ret tt
     end).

(** The cleanup of the effect of a render, [return () => {
    stopVoiceRecording(); }]: React runs it when the component unmounts,
    and after a render whose [stopVoiceRecording] is not the one of the
    render before, that is when [isVoiceRecording] has changed.  It calls
    the [stopVoiceRecording] of the render before. *)
Definition cleanup (previous : Chat) : async Chat Call unit :=
  stopVoiceRecording previous.

(** [startVoiceRecording], given how [getUserMedia] settles and the
    promise returned by [ai.live.connect]. *)
Definition startVoiceRecording (media : promise DreamRecorder.MediaStream)
  (connect : promise DreamRecorder.LiveSession) : async Chat Call unit :=
  modify (setIsVoiceRecording true) ;;
  try_catch
    (stream <- await media ;;
     modify (set_mediaStreamRef (Some stream)) ;;
     modify (set_sessionPromiseRef (Some connect)))
    (fun _ =>
       emit (console_error "Failed to start voice recording:") ;;
       modify (setIsVoiceRecording false)).

(** [chatRef.current.sendMessage(message)] *)
Definition send (sendMessage : jsstring -> promise jsstring) (message : jsstring)
  : async Chat Call jsstring :=
  c <- get ;;
  match chatRef c with
  | Some chat =>
      emit (chat_sendMessage chat message) ;;
      await (sendMessage message)
  | None => throw "TypeError"%string
  end.

(** [handleSend] of a render, given how [chat.sendMessage] settles for a
    message.  [input], [isLoading] and [isVoiceRecording] are the cells of
    that render, as is the [stopVoiceRecording] it calls. *)
Definition handleSend (sendMessage : jsstring -> promise jsstring) (render : Chat)
  : async Chat Call unit :=
  (if isVoiceRecording render
   then await_call (stopVoiceRecording render)
   else ret tt) ;;
  now <- get ;;
  if negb (truthy (trim (input render))) || isLoading render
     || match chatRef now with Some _ => false | None => true end
  then ret tt
  else
    let userMessage := {| role := user; text := input render |} in
    modify (setMessages (fun prev => prev ++ [userMessage])) ;;
    modify (setInput (fun _ => [])) ;;
    modify (setIsLoading true) ;;
    try_finally
      (try_catch
         (response <- send sendMessage (input render) ;;
          let modelMessage := {| role := model; text := response |} in
          modify (setMessages (fun prev => prev ++ [modelMessage])))
         (fun _ =>
            emit (console_error "Chat error:") ;;
            let errorMessage := {| role := model; text := apology |} in
            modify (setMessages (fun prev => prev ++ [errorMessage]))))
      (modify (setIsLoading false)).

(** [handleMicClick] of a render. *)
Definition handleMicClick (render : Chat) (media : promise DreamRecorder.MediaStream)
  (connect : promise DreamRecorder.LiveSession) : async Chat Call unit :=
  if isVoiceRecording render then stopVoiceRecording render
  else startVoiceRecording media connect.

End Handler.

(** *** The handlers with nothing else in between *)

(** The run of each handler of the render that shows the current state, to
    its end, when nothing else happens during its awaits.  After a stop of
    a dictation React runs [Handler.cleanup] during the await of the
    session promise; the event loop of [Async] has that run. *)
Definition stopVoiceRecording : C unit :=
  fun c => Async.uninterrupted (Handler.stopVoiceRecording c) c.

Definition startVoiceRecording (media : promise DreamRecorder.MediaStream)
  (connect : promise DreamRecorder.LiveSession) : C unit :=
  Async.uninterrupted (Handler.startVoiceRecording media connect).

Definition handleSend (sendMessage : jsstring -> promise jsstring) : C unit :=
  fun c => Async.uninterrupted (Handler.handleSend sendMessage c) c.

Definition handleMicClick (media : promise DreamRecorder.MediaStream)
  (connect : promise DreamRecorder.LiveSession) : C unit :=
  fun c => Async.uninterrupted (Handler.handleMicClick c media connect) c.

(** The calls that release the resources held by a state. *)
Definition held (c : Chat) : list Call :=
  match mediaStreamRef c with
  | Some stream => map track_stop stream | None => [] end
  ++ match scriptProcessorRef c with
     | Some n => [processor_disconnect n] | None => [] end
  ++ match audioContextRef c with
     | Some ctx =>
         if DreamRecorder.is_closed ctx then []
         else [audioContext_close (DreamRecorder.ctx_id ctx)]
     | None => [] end
  ++ match sessionPromiseRef c with
     | Some (Fulfilled s) => [session_close s] | _ => [] end.

(** The statements of [stopVoiceRecording] before its first [await] reset
    the cell and release two refs; [released] is the state they leave. *)
Definition released (c : Chat) : Chat :=
  set_scriptProcessorRef None (set_mediaStreamRef None (setIsVoiceRecording false c)).

(** The calls of those statements when there is no audio context to
    close. *)
Definition released_at_once (c : Chat) : list Call :=
  match mediaStreamRef c with
  | Some stream => map track_stop stream | None => [] end
  ++ match scriptProcessorRef c with
     | Some n => [processor_disconnect n] | None => [] end.

(** The ref holds an audio context that is not closed. *)
Definition context_open (c : Chat) : bool :=
  match audioContextRef c with
  | Some ctx => negb (DreamRecorder.is_closed ctx)
  | None => false
  end.

(** How [stopVoiceRecording] ends on an active dictation. *)
Definition stop_outcome (c : Chat) : outcome unit :=
  match sessionPromiseRef c with
  | Some (Rejected e) => Throws e
  | _ => Returns tt
  end.

(** The conversation is a sequence of exchanges, a message of the user
    followed by a message of the model. *)
Fixpoint exchanges (l : list ChatMessage) : bool :=
  match l with
  | [] => true
  | q :: a :: rest =>
      match role q, role a with
      | user, model => exchanges rest
      | _, _ => false
      end
  | [_] => false
  end.

(** The texts of the final transcription messages that have a text, in
    receipt order. *)
Fixpoint dictated (messages : list DreamRecorder.LiveServerMessage) : list jsstring :=
  match messages with
  | [] => []
  | m :: rest =>
      match DreamRecorder.message_transcription m with
      | Some t =>
          if DreamRecorder.isFinal t && truthy (DreamRecorder.text t)
          then DreamRecorder.text t :: dictated rest
          else dictated rest
      | None => dictated rest
      end
  end.

End ChatInterface.

(* ===================================================================== *)
(** ** components/DreamAnalysis.tsx: the detail view *)
(* ===================================================================== *)

Module DetailView.
Import JS Eff Types Host.
Local Open Scope eff_scope.

(** The [useState] cells of the component. *)
Record View : Type := {
  showRegenOptions : bool;
  isRegenerating : bool;
  error : option jsstring;
  isImageLoaded : bool;
  isContentLoaded : bool;
  artStyle : jsstring;
  aspectRatio : AspectRatio;
  customImagePrompt : jsstring
}.

(** The detail view inside the application that renders it. *)
Record Page : Type := {
  view : View;
  world : App.World
}.

Definition P := M Page Call.

Definition with_view (f : View -> View) (p : Page) : Page :=
  {| view := f (view p); world := world p |}.

Definition setShowRegenOptions (v : bool) : P unit :=
  modify (with_view (fun s =>
    {| showRegenOptions := v;
       isRegenerating := isRegenerating s;
       error := error s;
       isImageLoaded := isImageLoaded s;
       isContentLoaded := isContentLoaded s;
       artStyle := artStyle s;
       aspectRatio := aspectRatio s;
       customImagePrompt := customImagePrompt s |})).

Definition setIsRegenerating (v : bool) : P unit :=
  modify (with_view (fun s =>
    {| showRegenOptions := showRegenOptions s;
       isRegenerating := v;
       error := error s;
       isImageLoaded := isImageLoaded s;
       isContentLoaded := isContentLoaded s;
       artStyle := artStyle s;
       aspectRatio := aspectRatio s;
       customImagePrompt := customImagePrompt s |})).

Definition setError (v : option jsstring) : P unit :=
  modify (with_view (fun s =>
    {| showRegenOptions := showRegenOptions s;
       isRegenerating := isRegenerating s;
       error := v;
       isImageLoaded := isImageLoaded s;
       isContentLoaded := isContentLoaded s;
       artStyle := artStyle s;
       aspectRatio := aspectRatio s;
       customImagePrompt := customImagePrompt s |})).

Definition setIsImageLoaded (v : bool) : P unit :=
  modify (with_view (fun s =>
    {| showRegenOptions := showRegenOptions s;
       isRegenerating := isRegenerating s;
       error := error s;
       isImageLoaded := v;
       isContentLoaded := isContentLoaded s;
       artStyle := artStyle s;
       aspectRatio := aspectRatio s;
       customImagePrompt := customImagePrompt s |})).

(** The cells when the view mounts on a dream: the keywords start as the
    core theme of its interpretation. *)
Definition mount (dream : DreamEntry) : View :=
  {| showRegenOptions := false;
     isRegenerating := false;
     error := None;
     isImageLoaded := false;
     isContentLoaded := false;
     artStyle := str "surrealist, dream-like";
     aspectRatio := ratio_16_9;
     customImagePrompt := Theme.initialPrompt (interpretation dream) |}.

(** [{ ...d, imageUrl: u }] *)
Definition with_imageUrl (u : jsstring) (d : DreamEntry) : DreamEntry :=
  {| id := id d;
     date := date d;
     transcription := transcription d;
     imageUrl := u;
     interpretation := interpretation d;
     isFavorite := isFavorite d |}.

(** The prop [onUpdateDream], which is [handleUpdateDream] of the
    application. *)
Definition onUpdateDream (env : Env) (updatedDream : DreamEntry) : P unit :=
  Control.on_part world
    (fun w p => {| view := view p; world := w |})
    (App.handleUpdateDream env updatedDream).

(** [handleRegenerate]; [dream] is the prop of the render the handler was
    created in, as are the style, the ratio and the keywords, read when it
    starts. *)
Definition handleRegenerate (env : Env) (dream : DreamEntry) : P unit :=
  p <- get ;;
  setIsRegenerating true ;;
  setError None ;;
  setIsImageLoaded false ;;
  Control.try_finally
    (try_catch
       (newImageUrl <- GeminiService.generateDreamImage env (transcription dream)
                         (artStyle (view p)) (aspectRatio (view p))
                         (customImagePrompt (view p)) ;;
        let updatedDream := with_imageUrl newImageUrl dream in
        onUpdateDream env updatedDream ;;
        setShowRegenOptions false)
       (fun _ =>
          emit (console_error "Error regenerating image:") ;;
          setError (Some (str "Failed to generate a new image. Please try again."))))
    (setIsRegenerating false).

(** The request of one regeneration. *)
Definition regeneration_request (dream : DreamEntry) (p : Page) : Call :=
  ai_generateImages
    (GeminiService.image_prompt (transcription dream) (artStyle (view p))
       (customImagePrompt (view p)))
    (aspectRatio (view p)).

(** The detail view of the newest favorite of the sample history, the
    regeneration options open. *)
Definition page : Page :=
  {| view :=
       {| showRegenOptions := true;
          isRegenerating := false;
          error := None;
          isImageLoaded := true;
          isContentLoaded := true;
          artStyle := str "dark, gothic, moody";
          aspectRatio := ratio_1_1;
          customImagePrompt := customImagePrompt (mount Samples.newest_favorite) |};
     world := Samples.world |}.

End DetailView.

(* ===================================================================== *)
(** ** Running handlers *)
(* ===================================================================== *)

Section Running.
Import JS Eff.
Variables St Ev : Type.

Lemma bind_ok (A B : Type) (c : M St Ev A) (k : A -> M St Ev B) s a s1 l1 o s2 l2 :
  c s = (Returns a, s1, l1) -> k a s1 = (o, s2, l2) ->
  bind c k s = (o, s2, l1 ++ l2).
Proof. intros Hc Hk. unfold bind. rewrite Hc, Hk. reflexivity. Qed.

Lemma bind_throw (A B : Type) (c : M St Ev A) (k : A -> M St Ev B) s e s1 l1 :
  c s = (Throws e, s1, l1) -> bind c k s = (Throws e, s1, l1).
Proof. intros Hc. unfold bind. rewrite Hc. reflexivity. Qed.

Lemma forEach_emit (A : Type) (f : A -> Ev) (l : list A) (s : St) :
  forEach (fun a => emit (f a)) l s = (Returns tt, s, map f l).
Proof.
  induction l as [|a l IH]; simpl.
  - reflexivity.
  - unfold bind at 1. simpl. rewrite IH. reflexivity.
Qed.

(** A loop whose body always returns and calls nothing does the same. *)
Lemma forEach_silent (A : Type) (f : A -> M St Ev unit) (g : A -> St -> St) :
  (forall a s, f a s = (Returns tt, g a s, [])) ->
  forall l s, forEach f l s = (Returns tt, fold_left (fun s a => g a s) l s, []).
Proof.
  intros Hf. induction l as [|a l IH]; intros s; simpl.
  - reflexivity.
  - erewrite bind_ok; [ | apply Hf | apply IH ]. reflexivity.
Qed.

End Running.

(* ===================================================================== *)
(** ** Async calls: a run amid others is the run of the statements *)
(* ===================================================================== *)

Section AsyncFacts.
Import JS Eff.
Variables St Ev : Type.

Lemma bind_ext (A B : Type) (c c' : M St Ev A) (k k' : A -> M St Ev B) (s : St) :
  c s = c' s -> (forall a s, k a s = k' a s) ->
  bind c k s = bind c' k' s.
Proof.
  intros Hc Hk. unfold bind. rewrite Hc.
  destruct (c' s) as [[[a|e] s1] l1]; [ rewrite Hk | ]; reflexivity.
Qed.

Lemma bind_ret_l (A B : Type) (a : A) (k : A -> M St Ev B) (s : St) :
  bind (ret a) k s = k a s.
Proof. unfold bind, ret. destruct (k a s) as [[o s2] l2]. reflexivity. Qed.

Lemma bind_get (B : Type) (k : St -> M St Ev B) (s : St) :
  bind get k s = k s s.
Proof. unfold bind, get. destruct (k s s) as [[o s2] l2]. reflexivity. Qed.

Lemma bind_assoc (A B C : Type) (c : M St Ev A) (k : A -> M St Ev B)
  (h : B -> M St Ev C) (s : St) :
  bind (bind c k) h s = bind c (fun a => bind (k a) h) s.
Proof.
  unfold bind. destruct (c s) as [[[a|e] s1] l1]; [ | reflexivity ].
  destruct (k a s1) as [[[b|e] s2] l2]; [ | reflexivity ].
  destruct (h b s2) as [[o s3] l3]. rewrite app_assoc. reflexivity.
Qed.

Lemma amid_said (A : Type) (before : list Ev) (t : Async.task St Ev A)
  (during : list (St -> St)) :
  Async.amid (Async.said before t) during
  = match Async.amid t during with (o, x, l) => (o, x, before ++ l) end.
Proof.
  destruct t as [o s l|s l rest]; simpl.
  - reflexivity.
  - destruct during as [|d later];
      match goal with |- context [Async.amid ?t ?d] => destruct (Async.amid t d) as [[o x] l'] end;
      rewrite app_assoc; reflexivity.
Qed.

(** A call woven with what the others do is a handler on the state and
    what is still to happen: [woven] commutes with sequencing. *)
Lemma amid_continue (A B : Type) (t : Async.task St Ev A)
  (k : A -> Async.async St Ev B) (during : list (St -> St)) :
  Async.amid (Async.continue t k) during
  = match Async.amid t during with
    | (Returns a, x, l) =>
        match Async.amid (k a (fst x)) (snd x) with
        | (o, x', l') => (o, x', l ++ l')
        end
    | (Throws e, x, l) => (Throws e, x, l)
    end.
Proof.
  revert during. induction t as [o s l|s l rest IH]; intros during.
  - destruct o as [a|e]; simpl; [ apply amid_said | reflexivity ].
  - simpl. destruct during as [|d later]; rewrite IH;
      match goal with |- context [Async.amid (rest ?s) ?d] =>
        destruct (Async.amid (rest s) d) as [[[a|e] x] l1] end;
      try reflexivity;
      match goal with |- context [Async.amid ?t ?d] =>
        destruct (Async.amid t d) as [[o x'] l2] end;
      rewrite app_assoc; reflexivity.
Qed.

Lemma woven_bind (A B : Type) (c : Async.async St Ev A)
  (k : A -> Async.async St Ev B) (x : St * list (St -> St)) :
  Async.woven (Async.bind c k) x
  = bind (Async.woven c) (fun a => Async.woven (k a)) x.
Proof.
  unfold Async.woven, Async.bind, bind. rewrite amid_continue.
  destruct (Async.amid (c (fst x)) (snd x)) as [[[a|e] x1] l1]; reflexivity.
Qed.

Lemma woven_lift (A : Type) (c : M St Ev A) (s : St) (during : list (St -> St)) :
  Async.woven (Async.lift c) (s, during)
  = match c s with (o, s', l) => (o, (s', during), l) end.
Proof.
  unfold Async.woven, Async.lift. simpl. destruct (c s) as [[o s'] l]. reflexivity.
Qed.

Lemma amid_catching (A : Type) (t : Async.task St Ev A)
  (h : exn -> Async.async St Ev A) (during : list (St -> St)) :
  Async.amid (Async.catching t h) during
  = match Async.amid t during with
    | (Returns a, x, l) => (Returns a, x, l)
    | (Throws e, x, l) =>
        match Async.amid (h e (fst x)) (snd x) with
        | (o, x', l') => (o, x', l ++ l')
        end
    end.
Proof.
  revert during. induction t as [o s l|s l rest IH]; intros during.
  - destruct o as [a|e]; simpl; [ reflexivity | apply amid_said ].
  - simpl. destruct during as [|d later]; rewrite IH;
      match goal with |- context [Async.amid (rest ?s) ?d] =>
        destruct (Async.amid (rest s) d) as [[[a|e] x] l1] end;
      try reflexivity;
      match goal with |- context [Async.amid ?t ?d] =>
        destruct (Async.amid t d) as [[o x'] l2] end;
      rewrite app_assoc; reflexivity.
Qed.

Lemma woven_try_catch (A : Type) (c : Async.async St Ev A)
  (h : exn -> Async.async St Ev A) (x : St * list (St -> St)) :
  Async.woven (Async.try_catch c h) x
  = try_catch (Async.woven c) (fun e => Async.woven (h e)) x.
Proof.
  unfold Async.woven, Async.try_catch, try_catch. rewrite amid_catching.
  destruct (Async.amid (c (fst x)) (snd x)) as [[[a|e] x1] l1]; reflexivity.
Qed.

Lemma amid_finishing (A : Type) (t : Async.task St Ev A)
  (f : Async.async St Ev unit) (during : list (St -> St)) :
  Async.amid (Async.finishing t f) during
  = match Async.amid t during with
    | (o, x, l) =>
        match Async.amid (f (fst x)) (snd x) with
        | (Returns _, x', l') => (o, x', l ++ l')
        | (Throws e, x', l') => (Throws e, x', l ++ l')
        end
    end.
Proof.
  revert during. induction t as [o s l|s l rest IH]; intros during.
  - simpl. rewrite amid_said, amid_continue.
    destruct (Async.amid (f s) during) as [[[[]|e] [s1 d1]] l1]; simpl;
      try rewrite app_nil_r; reflexivity.
  - simpl. destruct during as [|d later]; rewrite IH;
      match goal with |- context [Async.amid (rest ?s) ?d] =>
        destruct (Async.amid (rest s) d) as [[o x] l1] end;
      match goal with |- context [Async.amid ?t ?d] =>
        destruct (Async.amid t d) as [[[[]|e] x'] l2] end;
      rewrite app_assoc; reflexivity.
Qed.

(** The run with nothing in between is the run of the statements, the
    awaits taken at once. *)
Lemma uninterrupted_woven (A : Type) (c : Async.async St Ev A) (s : St) :
  Async.uninterrupted c s
  = match Async.woven c (s, []) with (o, x, l) => (o, fst x, l) end.
Proof. reflexivity. Qed.

Lemma amid_nothing_left (A : Type) (t : Async.task St Ev A) :
  snd (snd (fst (Async.amid t []))) = [].
Proof.
  induction t as [o s l|s l rest IH]; simpl.
  - reflexivity.
  - specialize (IH s). destruct (Async.amid (rest s) []) as [[o x] l']. exact IH.
Qed.

Lemma uninterrupted_bind (A B : Type) (c : Async.async St Ev A)
  (k : A -> Async.async St Ev B) (s : St) :
  Async.uninterrupted (Async.bind c k) s
  = bind (Async.uninterrupted c) (fun a => Async.uninterrupted (k a)) s.
Proof.
  unfold Async.uninterrupted, Async.interleaved, Async.bind, bind.
  rewrite amid_continue.
  pose proof (amid_nothing_left (c s)) as Hleft.
  destruct (Async.amid (c s) []) as [[[a|e] [s1 d1]] l1]; simpl in *; [ | reflexivity ].
  subst d1.
  destruct (Async.amid (k a s1) []) as [[o x'] l2]. reflexivity.
Qed.

Lemma uninterrupted_lift (A : Type) (c : M St Ev A) (s : St) :
  Async.uninterrupted (Async.lift c) s = c s.
Proof.
  unfold Async.uninterrupted, Async.interleaved, Async.lift.
  destruct (c s) as [[o s'] l]. reflexivity.
Qed.

Lemma uninterrupted_yield (B : Type) (k : unit -> Async.async St Ev B) (s : St) :
  Async.uninterrupted (Async.bind Async.yield k) s = Async.uninterrupted (k tt) s.
Proof.
  rewrite uninterrupted_bind. unfold bind. cbn.
  destruct (Async.uninterrupted (k tt) s) as [[o s2] l2]. reflexivity.
Qed.

Lemma uninterrupted_await (A : Type) (p : promise A) (s : St) :
  Async.uninterrupted (Async.await (Ev := Ev) p) s = await p s.
Proof. destruct p; reflexivity. Qed.

Lemma uninterrupted_try_catch (A : Type) (c : Async.async St Ev A)
  (h : exn -> Async.async St Ev A) (s : St) :
  Async.uninterrupted (Async.try_catch c h) s
  = try_catch (Async.uninterrupted c) (fun e => Async.uninterrupted (h e)) s.
Proof.
  unfold Async.uninterrupted, Async.interleaved, Async.try_catch, try_catch.
  rewrite amid_catching.
  pose proof (amid_nothing_left (c s)) as Hleft.
  destruct (Async.amid (c s) []) as [[[a|e] [s1 d1]] l1]; simpl in *; [ reflexivity | ].
  subst d1.
  destruct (Async.amid (h e s1) []) as [[o x'] l2]. reflexivity.
Qed.

Lemma uninterrupted_try_finally (A : Type) (c : Async.async St Ev A)
  (f : Async.async St Ev unit) (s : St) :
  Async.uninterrupted (Async.try_finally c f) s
  = Control.try_finally (Async.uninterrupted c) (Async.uninterrupted f) s.
Proof.
  unfold Async.uninterrupted, Async.interleaved, Async.try_finally, Control.try_finally.
  rewrite amid_finishing.
  pose proof (amid_nothing_left (c s)) as Hleft.
  destruct (Async.amid (c s) []) as [[o [s1 d1]] l1]; simpl in *. subst d1.
  destruct (Async.amid (f s1) []) as [[[[]|e] x'] l2]; reflexivity.
Qed.

Lemma uninterrupted_await_call (A : Type) (c : Async.async St Ev A) (s : St) :
  Async.uninterrupted (Async.await_call c) s = Async.uninterrupted c s.
Proof.
  unfold Async.await_call. rewrite uninterrupted_bind. unfold bind.
  destruct (Async.uninterrupted c s) as [[[a|e] s1] l1]; [ | reflexivity ].
  cbn. rewrite app_nil_r. reflexivity.
Qed.

Lemma try_catch_ext (A : Type) (c c' : M St Ev A) (h h' : exn -> M St Ev A) (s : St) :
  c s = c' s -> (forall e s, h e s = h' e s) ->
  try_catch c h s = try_catch c' h' s.
Proof.
  intros Hc Hh. unfold try_catch. rewrite Hc.
  destruct (c' s) as [[[a|e] s1] l1]; [ | rewrite Hh ]; reflexivity.
Qed.

Lemma try_finally_ext (A : Type) (c c' : M St Ev A) (f f' : M St Ev unit) (s : St) :
  c s = c' s -> (forall s, f s = f' s) ->
  Control.try_finally c f s = Control.try_finally c' f' s.
Proof.
  intros Hc Hf. unfold Control.try_finally. rewrite Hc.
  destruct (c' s) as [[o s1] l1]. rewrite Hf. reflexivity.
Qed.

End AsyncFacts.

(** One statement without an [await], then the rest. *)
Ltac lifted :=
  rewrite uninterrupted_bind; apply bind_ext;
  [ intros; apply uninterrupted_lift | intros ].

(** The run of the statements of an async body, block by block. *)
Ltac sequential :=
  lazymatch goal with
  | |- Eff.Async.uninterrupted (Eff.Async.bind Eff.Async.yield _) _ = _ =>
      rewrite uninterrupted_yield; sequential
  | |- Eff.Async.uninterrupted (Eff.Async.bind _ _) _ = Eff.bind _ _ _ =>
      rewrite uninterrupted_bind; apply bind_ext; intros; sequential
  | |- Eff.Async.uninterrupted (Eff.Async.try_catch _ _) _ = _ =>
      rewrite uninterrupted_try_catch; apply try_catch_ext; intros; sequential
  | |- Eff.Async.uninterrupted (Eff.Async.try_finally _ _) _ = _ =>
      rewrite uninterrupted_try_finally; apply try_finally_ext; intros; sequential
  | |- Eff.Async.uninterrupted (Eff.Async.await_call _) _ = _ =>
      rewrite uninterrupted_await_call; sequential
  | |- Eff.Async.uninterrupted (Eff.Async.await _) _ = _ =>
      apply uninterrupted_await
  | |- Eff.Async.uninterrupted (Eff.Async.lift _) _ = _ =>
      apply uninterrupted_lift
  | |- Eff.Async.uninterrupted (if ?b then _ else _) _ = _ =>
      destruct b; sequential
  | |- Eff.Async.uninterrupted (match ?x with Some _ => _ | None => _ end) _ = _ =>
      destruct x; sequential
  | |- _ => try reflexivity
  end.


(* ===================================================================== *)
(** ** Lists made of segments with increasing keys *)
(* ===================================================================== *)

Section Segments.
Variable T : Type.
Variable key : T -> nat.

Lemma from_app (k : nat) (seg rest : list T) :
  Forall (fun x => key x = k) seg ->
  Forall (fun x => S k <= key x) rest ->
  Forall (fun x => k <= key x) (seg ++ rest).
Proof.
  intros Hseg Hrest. apply Forall_app. split.
  - eapply Forall_impl; [ | exact Hseg ]. simpl. intros x ->. apply le_n.
  - eapply Forall_impl; [ | exact Hrest ]. simpl. intros x Hx. lia.
Qed.

Lemma sorted_app (k : nat) (seg rest : list T) :
  Forall (fun x => key x = k) seg ->
  Forall (fun x => S k <= key x) rest ->
  StronglySorted (fun a b => key a <= key b) rest ->
  StronglySorted (fun a b => key a <= key b) (seg ++ rest).
Proof.
  intros Hseg Hrest Hsorted.
  induction Hseg as [|x seg Hx Hseg IH]; simpl.
  - exact Hsorted.
  - constructor; [exact IH|].
    apply Forall_app. split.
    + eapply Forall_impl; [ | exact Hseg ]. simpl. intros y Hy. lia.
    + eapply Forall_impl; [ | exact Hrest ]. simpl. intros y Hy. lia.
Qed.

Lemma NoDup_seg_app (k : nat) (seg rest : list T) :
  Forall (fun x => key x = k) seg ->
  Forall (fun x => S k <= key x) rest ->
  NoDup seg -> NoDup rest -> NoDup (seg ++ rest).
Proof.
  intros Hseg Hrest Hnd1 Hnd2.
  induction Hnd1 as [|x seg Hx Hnd1 IH]; simpl.
  - exact Hnd2.
  - inversion Hseg as [|? ? Hkx Hseg']; subst.
    constructor; [ | apply IH; exact Hseg' ].
    rewrite in_app_iff. intros [Hin|Hin]; [ exact (Hx Hin) | ].
    rewrite Forall_forall in Hrest.
    specialize (Hrest _ Hin). lia.
Qed.

End Segments.

(* ===================================================================== *)
(** ** The recording session *)
(* ===================================================================== *)

Section RecorderFacts.
Import JS Eff DreamRecorder.

(** One guarded release block: the ref is null afterwards and the calls
    are those of the release, none if the ref was null already. *)
Lemma release_run (A : Type) (ref : Recorder -> option A) (free : A -> R unit)
  (clear : Recorder -> Recorder) (calls : A -> list Call) (s : Recorder) :
  (forall h, free h s = (Returns tt, s, calls h)) ->
  (ref s = None -> clear s = s) ->
  release ref free clear s
  = (Returns tt, clear s, match ref s with Some h => calls h | None => [] end).
Proof.
  intros Hfree Hclear. unfold release, bind, get.
  destruct (ref s) as [h|].
  - rewrite Hfree. unfold modify. rewrite app_nil_r. reflexivity.
  - rewrite Hclear by reflexivity. reflexivity.
Qed.

Ltac clear_noop :=
  let H := fresh in
  intros H;
  match goal with |- _ ?s = ?s => destruct s end;
  simpl in H; rewrite H; reflexivity.

Ltac release_step :=
  eapply bind_ok;
  [ eapply release_run; [ intros; try apply forEach_emit; reflexivity | clear_noop ] | ].

(** The block that closes the audio context. *)
Lemma close_context_run (s : Recorder) :
  exists s',
    bind get (fun r =>
      match audioContextRef r with
      | Some ctx =>
          if negb (is_closed ctx)
          then bind (emit (audioContext_close (ctx_id ctx)))
                    (fun _ => modify (set_audioContextRef None))
          else ret tt
      | None => ret tt
      end) s
    = (Returns tt, s',
       match audioContextRef s with
       | Some ctx => if is_closed ctx then [] else [audioContext_close (ctx_id ctx)]
       | None => []
       end)
    /\ isRecording s' = isRecording s
    /\ transcriptionRef s' = transcriptionRef s
    /\ sessionPromiseRef s' = sessionPromiseRef s
    /\ animationFrameIdRef s' = animationFrameIdRef s
    /\ mediaStreamRef s' = mediaStreamRef s
    /\ scriptProcessorRef s' = scriptProcessorRef s
    /\ gainNodeRef s' = gainNodeRef s
    /\ analyserNodeRef s' = analyserNodeRef s
    /\ match audioContextRef s' with Some ctx => is_closed ctx = true | None => True end.
Proof.
  unfold bind, get.
  destruct (audioContextRef s) as [ctx|] eqn:Hctx.
  - destruct (is_closed ctx) eqn:Hclosed; simpl.
    + exists s. rewrite Hctx. repeat split; trivial.
    + eexists. split; [reflexivity|]. simpl. repeat split; trivial.
  - exists s. rewrite Hctx. repeat split; trivial.
Qed.

(** With nothing else happening during its awaits, [stopRecording] of the
    render that shows the current state is the run of its statements in
    program order. *)
Lemma stopRecording_sequential (r : Recorder) :
  stopRecording r
  = (r <- get ;;
      if negb (isRecording r) then ret tt
      else
        modify (setIsRecording false) ;;
        modify (setAudioLevel 0) ;;
        release animationFrameIdRef
          (fun id => emit (cancelAnimationFrame id))
          (set_animationFrameIdRef None) ;;
        release mediaStreamRef
          (fun stream => forEach (fun track => emit (track_stop track)) stream)
          (set_mediaStreamRef None) ;;
        release scriptProcessorRef
          (fun n => emit (node_disconnect ScriptProcessor n))
          (set_scriptProcessorRef None) ;;
        release gainNodeRef
          (fun n => emit (node_disconnect Gain n))
          (set_gainNodeRef None) ;;
        release analyserNodeRef
          (fun n => emit (node_disconnect Analyser n))
          (set_analyserNodeRef None) ;;
        (r <- get ;;
         match audioContextRef r with
         | Some ctx =>
             if negb (is_closed ctx)
             then emit (audioContext_close (ctx_id ctx)) ;;
                  modify (set_audioContextRef None)
             else ret tt
         | None => ret tt
         end) ;;
        release sessionPromiseRef
          (fun p => session <- await p ;; emit (session_close session))
          (set_sessionPromiseRef None) ;;
        r <- get ;;
        emit (onRecordingComplete (trim (transcriptionRef r))))%eff r.
Proof.
  unfold stopRecording, Handler.stopRecording.
  rewrite bind_get.
  destruct (isRecording r); cbn [negb]; [ | reflexivity ].
  unfold Async.modify, Async.emit, Async.get.
  do 7 lifted.
  rewrite uninterrupted_bind; apply bind_ext; [ | intros _ ? ].
  { lifted.
    match goal with |- context [audioContextRef ?x] =>
      destruct (audioContextRef x) as [ctx|] end; [ | reflexivity ].
    destruct (is_closed ctx); [ reflexivity | ]. cbn [negb].
    lifted.
    rewrite uninterrupted_yield. apply uninterrupted_lift. }
  rewrite uninterrupted_bind; apply bind_ext; [ | intros _ ? ].
  { unfold release. lifted.
    match goal with |- context [sessionPromiseRef ?x] =>
      destruct (sessionPromiseRef x) as [p|] end; [ | reflexivity ].
    rewrite bind_assoc.
    rewrite uninterrupted_bind; apply bind_ext;
      [ intros; apply uninterrupted_await | intros ].
    lifted. apply uninterrupted_lift. }
  lifted. apply uninterrupted_lift.
Qed.

(** With nothing else happening while [getUserMedia] is pending,
    [startRecording] is the run of its statements in program order. *)
Lemma startRecording_sequential (media : promise MediaStream)
  (connect : promise LiveSession) (r : Recorder) :
  startRecording media connect r
  = (emit onRecordingStart ;;
      modify (setIsRecording true) ;;
      modify (setFinalTranscription []) ;;
      modify (setInterimTranscription []) ;;
      modify (set_transcriptionRef []) ;;
      try_catch
        (stream <- await media ;;
         modify (set_mediaStreamRef (Some stream)) ;;
         modify (set_sessionPromiseRef (Some connect)))
        (fun _ =>
           emit (console_error "Failed to start recording:") ;;
           modify (setIsRecording false)))%eff r.
Proof.
  unfold startRecording, Handler.startRecording.
  unfold Async.modify, Async.emit.
  do 5 lifted.
  rewrite uninterrupted_try_catch; apply try_catch_ext; intros.
  - rewrite uninterrupted_bind; apply bind_ext;
      [ intros; apply uninterrupted_await | intros ].
    lifted. apply uninterrupted_lift.
  - lifted. apply uninterrupted_lift.
Qed.

(** [stopRecording] on an inactive component. *)
Lemma stopRecording_inactive (r : Recorder) :
  isRecording r = false -> stopRecording r = (Returns tt, r, []).
Proof.
  intros H. rewrite stopRecording_sequential. unfold bind, get. rewrite H. reflexivity.
Qed.

(** [stopRecording] on an active session, in closed form. *)
Lemma stopRecording_active (r : Recorder) :
  isRecording r = true ->
  exists r',
    stopRecording r = (stop_outcome r, r', held r ++ stop_delivery r)
    /\ isRecording r' = false
    /\ held r' = []
    /\ transcriptionRef r' = transcriptionRef r.
Proof.
  intros Hrec.
  pose (s5 := set_analyserNodeRef None (set_gainNodeRef None
               (set_scriptProcessorRef None (set_mediaStreamRef None
                 (set_animationFrameIdRef None
                   (setAudioLevel 0 (setIsRecording false r))))))).
  destruct (close_context_run s5)
    as (s6 & Hrun & Hrec6 & Htr6 & Hsess6 & Hf & Hm & Hp & Hg & Ha & Hc).
  simpl in Hrec6, Htr6, Hsess6, Hf, Hm, Hp, Hg, Ha.
  assert (exists o r' calls,
            stopRecording r = (o, r', calls)
            /\ o = stop_outcome r
            /\ calls = held r ++ stop_delivery r
            /\ isRecording r' = false
            /\ held r' = []
            /\ transcriptionRef r' = transcriptionRef r)
    as (o & r' & calls & H & -> & -> & ?); [ | eauto ].
  assert (Hheld : forall s, animationFrameIdRef s = None -> mediaStreamRef s = None ->
            scriptProcessorRef s = None -> gainNodeRef s = None ->
            analyserNodeRef s = None ->
            match audioContextRef s with Some ctx => is_closed ctx = true | None => True end ->
            match sessionPromiseRef s with Some (Fulfilled _) => False | _ => True end ->
            held s = []).
  { intros s E1 E2 E3 E4 E5 E6 E7. unfold held. rewrite E1, E2, E3, E4, E5.
    destruct (audioContextRef s) as [ctx|]; [rewrite E6|];
      destruct (sessionPromiseRef s) as [[?|?]|]; simpl; tauto. }
  unfold stop_outcome, stop_delivery.
  destruct (sessionPromiseRef r) as [[session|e]|] eqn:Hsess.
  - do 3 eexists. split.
    + rewrite stopRecording_sequential.
      eapply bind_ok; [reflexivity|]. rewrite Hrec. cbn [negb].
      do 2 (eapply bind_ok; [reflexivity|]).
      do 5 release_step.
      eapply bind_ok; [exact Hrun|].
      eapply bind_ok.
      { unfold release. eapply bind_ok; [reflexivity|]. rewrite Hsess6.
        eapply bind_ok; [ | reflexivity ].
        eapply bind_ok; reflexivity. }
      eapply bind_ok; reflexivity.
    + subst s5. simpl. rewrite Htr6. unfold held. rewrite Hsess.
      rewrite <- !app_assoc. repeat split; trivial.
      apply Hheld; simpl; trivial.
  - do 3 eexists. split.
    + rewrite stopRecording_sequential.
      eapply bind_ok; [reflexivity|]. rewrite Hrec. cbn [negb].
      do 2 (eapply bind_ok; [reflexivity|]).
      do 5 release_step.
      eapply bind_ok; [exact Hrun|].
      eapply bind_throw.
      unfold release. eapply bind_ok; [reflexivity|]. rewrite Hsess6.
      eapply bind_throw. eapply bind_throw. reflexivity.
    + subst s5. simpl. unfold held. rewrite Hsess.
      rewrite <- !app_assoc. repeat split; trivial.
      apply Hheld; trivial. rewrite Hsess6. exact I.
  - do 3 eexists. split.
    + rewrite stopRecording_sequential.
      eapply bind_ok; [reflexivity|]. rewrite Hrec. cbn [negb].
      do 2 (eapply bind_ok; [reflexivity|]).
      do 5 release_step.
      eapply bind_ok; [exact Hrun|].
      eapply bind_ok.
      { unfold release. eapply bind_ok; [reflexivity|]. rewrite Hsess6.
        reflexivity. }
      eapply bind_ok; reflexivity.
    + subst s5. simpl. rewrite Htr6. unfold held. rewrite Hsess.
      rewrite <- !app_assoc. repeat split; trivial.
      apply Hheld; trivial. rewrite Hsess6. exact I.
Qed.


Lemma Forall_track_stop (P : Call -> Prop) :
  (forall t, P (track_stop t)) ->
  forall stream : MediaStream, Forall P (map track_stop stream).
Proof. intros HP. induction stream; simpl; constructor; auto. Qed.

Lemma track_stop_NoDup (stream : MediaStream) :
  NoDup stream -> NoDup (map track_stop stream).
Proof.
  induction 1 as [|t stream Ht Hnd IH]; simpl; constructor; [ | exact IH ].
  rewrite in_map_iff. intros (t' & Heq & Hin).
  inversion Heq; subst. exact (Ht Hin).
Qed.

Ltac segment :=
  match goal with
  | |- Forall _ (map track_stop _) =>
      apply Forall_track_stop; intros; reflexivity
  | |- Forall _ (match ?x with _ => _ end) =>
      destruct x; try segment
  | |- Forall _ (if ?x then _ else _) => destruct x; try segment
  | |- Forall _ _ => repeat constructor
  end.

Ltac distinct :=
  match goal with
  | |- NoDup (map track_stop _) => apply track_stop_NoDup; auto
  | |- NoDup (match ?x with _ => _ end) => destruct x; try distinct
  | |- NoDup (if ?x then _ else _) => destruct x; try distinct
  | |- NoDup [] => constructor
  | |- NoDup [_] => constructor; [ intros [] | constructor ]
  end.

Lemma filter_all (A : Type) (p : A -> bool) (l : list A) :
  Forall (fun x => p x = true) l -> filter p l = l.
Proof.
  induction 1 as [|x l Hx Hl IH]; simpl; [ reflexivity | ].
  rewrite Hx, IH. reflexivity.
Qed.

(** The calls releasing what a state holds are all releases. *)
Lemma held_releases (r : Recorder) : filter is_release (held r) = held r.
Proof.
  apply filter_all. unfold held.
  repeat (apply Forall_app; split); segment.
Qed.

Lemma delivery_not_release (r : Recorder) : filter is_release (stop_delivery r) = [].
Proof. unfold stop_delivery. destruct (sessionPromiseRef r) as [[?|?]|]; reflexivity. Qed.

(** No handle is listed twice among the calls releasing what a state
    holds, when the tracks of its stream are distinct. *)
Lemma held_NoDup (r : Recorder) :
  (forall stream, mediaStreamRef r = Some stream -> NoDup stream) ->
  NoDup (held r).
Proof.
  intros Htracks. unfold held.
  assert (Hlast : Forall (fun c => 6 <= call_key c)
            match sessionPromiseRef r with
            | Some (Fulfilled s) => [session_close s] | _ => [] end).
  { destruct (sessionPromiseRef r) as [[?|?]|]; repeat constructor. }
  assert (Hlast' : NoDup
            match sessionPromiseRef r with
            | Some (Fulfilled s) => [session_close s] | _ => [] end).
  { destruct (sessionPromiseRef r) as [[?|?]|]; distinct. }
  apply (NoDup_seg_app call_key (k := 0)); [ segment | | distinct | ].
  { repeat (apply from_app; [ segment | ]). exact Hlast. }
  apply (NoDup_seg_app call_key (k := 1)); [ segment | | | ].
  { repeat (apply from_app; [ segment | ]). exact Hlast. }
  { destruct (mediaStreamRef r) as [stream|]; [ | constructor ].
    apply track_stop_NoDup. apply Htracks. reflexivity. }
  apply (NoDup_seg_app call_key (k := 2)); [ segment | | distinct | ].
  { repeat (apply from_app; [ segment | ]). exact Hlast. }
  apply (NoDup_seg_app call_key (k := 3)); [ segment | | distinct | ].
  { repeat (apply from_app; [ segment | ]). exact Hlast. }
  apply (NoDup_seg_app call_key (k := 4)); [ segment | | distinct | ].
  { repeat (apply from_app; [ segment | ]). exact Hlast. }
  apply (NoDup_seg_app call_key (k := 5)); [ segment | exact Hlast | distinct | exact Hlast' ].
Qed.


(** What one message does to the accumulator and to the interim fragment. *)
Lemma onmessage_run (m : LiveServerMessage) (s : Recorder) :
  onmessage m s = (Returns tt, state_after (onmessage m) s, [])
  /\ transcriptionRef (state_after (onmessage m) s)
     = transcriptionRef s
       ++ match message_transcription m with
          | Some t => if isFinal t then text t ++ str " " else []
          | None => []
          end
  /\ interimTranscription (state_after (onmessage m) s)
     = match message_transcription m with
       | Some t => if isFinal t then [] else text t
       | None => interimTranscription s
       end.
Proof.
  unfold state_after, onmessage.
  destruct (message_transcription m) as [[t [|]]|]; simpl.
  - repeat split; reflexivity.
  - rewrite app_nil_r. repeat split; reflexivity.
  - rewrite app_nil_r. repeat split; reflexivity.
Qed.

Lemma forEach_onmessage (messages : list LiveServerMessage) (s : Recorder) :
  forEach onmessage messages s
  = (Returns tt, fold_left (fun s m => state_after (onmessage m) s) messages s, []).
Proof.
  apply forEach_silent with (g := fun m s => state_after (onmessage m) s).
  intros m s'. apply onmessage_run.
Qed.

Lemma accumulated (messages : list LiveServerMessage) (s : Recorder) :
  transcriptionRef (fold_left (fun s m => state_after (onmessage m) s) messages s)
  = transcriptionRef s
    ++ List.concat (map (fun f => f ++ str " ") (final_fragments messages)).
Proof.
  revert s. induction messages as [|m messages IH]; intros s; simpl.
  - now rewrite app_nil_r.
  - rewrite IH. destruct (onmessage_run m s) as (_ & -> & _).
    destruct (message_transcription m) as [[t [|]]|]; simpl.
    + now rewrite <- !app_assoc.
    + now rewrite app_nil_r.
    + now rewrite app_nil_r.
Qed.

Lemma interim_after_finals (finals : list jsstring) (s : Recorder) :
  finals <> [] ->
  interimTranscription
    (fold_left (fun s m => state_after (onmessage m) s)
       (map (transcript_message true) finals) s) = [].
Proof.
  revert s. induction finals as [|t finals IH]; intros s Hne; [ congruence | ].
  cbn [map fold_left]. destruct finals as [|t' finals'].
  - cbn [map fold_left].
    destruct (onmessage_run (transcript_message true t) s) as (_ & _ & ->).
    reflexivity.
  - apply IH. discriminate.
Qed.

(** A statement without an [await], woven with what the others do. *)
Lemma woven_step (St Ev A : Type) (c : M St Ev A) (s s' : St)
  (during : list (St -> St)) (o : outcome A) (l : list Ev) :
  c s = (o, s', l) ->
  Async.woven (Async.lift c) (s, during) = (o, (s', during), l).
Proof. intros H. rewrite woven_lift, H. reflexivity. Qed.

(** At an [await] the first of what the others do takes place. *)
Lemma woven_yield (St Ev : Type) (s : St) (during : list (St -> St)) :
  Async.woven (Ev := Ev) Async.yield (s, during)
  = (Returns tt, (nth 0 during (fun s => s) s, tl during), []).
Proof. destruct during; reflexivity. Qed.

Lemma woven_await (St Ev A : Type) (p : promise A) (s : St)
  (during : list (St -> St)) :
  Async.woven (Ev := Ev) (Async.await p) (s, during)
  = (match p with Fulfilled a => Returns a | Rejected e => Throws e end,
     (nth 0 during (fun s => s) s, tl during), []).
Proof. destruct p, during; reflexivity. Qed.

Lemma interleaved_woven (St Ev A : Type) (c : Async.async St Ev A) (s s' : St)
  (during rest : list (St -> St)) (o : outcome A) (calls : list Ev) :
  Async.woven c (s, during) = (o, (s', rest), calls) ->
  Async.interleaved c during s = (o, s', calls).
Proof.
  intros H. unfold Async.interleaved. unfold Async.woven in H.
  cbn [fst snd] in H. rewrite H. reflexivity.
Qed.

Ltac woven_lifted :=
  rewrite woven_bind; eapply bind_ok; [ apply woven_step; reflexivity | ].

Ltac woven_released :=
  rewrite woven_bind; eapply bind_ok;
  [ apply woven_step; eapply release_run;
    [ intros; try apply forEach_emit; reflexivity | clear_noop ] | ].

(** The statements of [stopRecording] before its first [await]. *)
Lemma stopRecording_first (r : Recorder) (during : list (Recorder -> Recorder))
  (k : Async.async Recorder Call unit) (o : outcome unit)
  (x : Recorder * list (Recorder -> Recorder)) (calls : list Call) :
  Async.woven k (released r, during) = (o, x, calls) ->
  Async.woven
    (Async.bind (Async.lift (modify (setIsRecording false))) (fun _ =>
     Async.bind (Async.lift (modify (setAudioLevel 0))) (fun _ =>
     Async.bind (Async.lift (release animationFrameIdRef
        (fun id => emit (cancelAnimationFrame id))
        (set_animationFrameIdRef None))) (fun _ =>
     Async.bind (Async.lift (release mediaStreamRef
        (fun stream => forEach (fun track => emit (track_stop track)) stream)
        (set_mediaStreamRef None))) (fun _ =>
     Async.bind (Async.lift (release scriptProcessorRef
        (fun n => emit (node_disconnect ScriptProcessor n))
        (set_scriptProcessorRef None))) (fun _ =>
     Async.bind (Async.lift (release gainNodeRef
        (fun n => emit (node_disconnect Gain n))
        (set_gainNodeRef None))) (fun _ =>
     Async.bind (Async.lift (release analyserNodeRef
        (fun n => emit (node_disconnect Analyser n))
        (set_analyserNodeRef None))) (fun _ => k))))))))
    (r, during)
  = (o, x,
     match animationFrameIdRef r with
     | Some id => [cancelAnimationFrame id] | None => [] end
     ++ match mediaStreamRef r with
        | Some stream => map track_stop stream | None => [] end
     ++ match scriptProcessorRef r with
        | Some n => [node_disconnect ScriptProcessor n] | None => [] end
     ++ match gainNodeRef r with
        | Some n => [node_disconnect Gain n] | None => [] end
     ++ match analyserNodeRef r with
        | Some n => [node_disconnect Analyser n] | None => [] end
     ++ calls).
Proof.
  intros Hk. etransitivity.
  - do 2 woven_lifted. do 5 woven_released. exact Hk.
  - reflexivity.
Qed.

(** The statements of [stopRecording] from the session promise on. *)
Lemma stopRecording_last (s : Recorder) (later : list (Recorder -> Recorder)) :
  exists rest,
    Async.woven
      (Async.bind
         (Async.bind (Async.lift get) (fun r =>
            match sessionPromiseRef r with
            | Some p =>
                Async.bind (Async.await p) (fun session =>
                Async.bind (Async.lift (emit (session_close session))) (fun _ =>
                Async.lift (modify (set_sessionPromiseRef None))))
            | None => Async.ret tt
            end))
         (fun _ =>
            Async.bind (Async.lift get) (fun r =>
            Async.lift (emit (onRecordingComplete (trim (transcriptionRef r)))))))
      (s, later)
    = match sessionPromiseRef s with
      | Some p =>
          let s2 := nth 0 later (fun s => s) s in
          match p with
          | Fulfilled session =>
              (Returns tt, (set_sessionPromiseRef None s2, rest),
               [session_close session; onRecordingComplete (trim (transcriptionRef s2))])
          | Rejected e => (Throws e, (s2, rest), [])
          end
      | None =>
          (Returns tt, (s, rest), [onRecordingComplete (trim (transcriptionRef s))])
      end.
Proof.
  destruct (sessionPromiseRef s) as [[session|e]|] eqn:Hsess.
  - eexists. cbv zeta. etransitivity.
    + rewrite woven_bind; eapply bind_ok.
      * woven_lifted. cbn beta. rewrite Hsess.
        rewrite woven_bind; eapply bind_ok; [ rewrite woven_await; reflexivity | ].
        woven_lifted. apply woven_step. reflexivity.
      * woven_lifted. apply woven_step. reflexivity.
    + reflexivity.
  - eexists. cbv zeta.
    rewrite woven_bind; eapply bind_throw.
    rewrite woven_bind. etransitivity.
    + eapply bind_ok; [ apply woven_step; reflexivity | ].
      cbn beta. rewrite Hsess.
      rewrite woven_bind; eapply bind_throw. rewrite woven_await. reflexivity.
    + reflexivity.
  - eexists. etransitivity.
    + rewrite woven_bind; eapply bind_ok.
      * woven_lifted. cbn beta. rewrite Hsess. reflexivity.
      * woven_lifted. apply woven_step. reflexivity.
    + reflexivity.
Qed.

(** [stopRecording] of a render that shows a recording, amid what the
    others do, in closed form.  The first of [during] acts while the audio
    context closes, when there is one to close, and the next while the
    session promise is awaited, when the ref holds one. *)
Lemma stopRecording_amid (render r : Recorder) (during : list (Recorder -> Recorder)) :
  isRecording render = true ->
  Async.interleaved (Handler.stopRecording render) during r
  = let closing :=
      match audioContextRef r with
      | Some ctx => negb (is_closed ctx)
      | None => false
      end in
    let s1 := if closing
              then set_audioContextRef None (nth 0 during (fun s => s) (released r))
              else released r in
    let later := if closing then tl during else during in
    match sessionPromiseRef s1 with
    | Some p =>
        let s2 := nth 0 later (fun s => s) s1 in
        match p with
        | Fulfilled session =>
            (Returns tt, set_sessionPromiseRef None s2,
             released_at_once r
             ++ [session_close session; onRecordingComplete (trim (transcriptionRef s2))])
        | Rejected e => (Throws e, s2, released_at_once r)
        end
    | None =>
        (Returns tt, s1,
         released_at_once r ++ [onRecordingComplete (trim (transcriptionRef s1))])
    end.
Proof.
  intros Hrec.
  unfold Handler.stopRecording. rewrite Hrec. cbn [negb].
  unfold Async.modify, Async.emit, Async.get.
  cbv zeta.
  set (closing := match audioContextRef r with
                  | Some ctx => negb (is_closed ctx) | None => false end).
  set (s1 := if closing
             then set_audioContextRef None (nth 0 during (fun s => s) (released r))
             else released r).
  set (later := if closing then tl during else during).
  destruct (stopRecording_last s1 later) as (rest & Hlast).
  assert (Hclose :
            Async.woven
              (Async.bind (Async.lift get) (fun r0 =>
                 match audioContextRef r0 with
                 | Some ctx =>
                     if negb (is_closed ctx)
                     then Async.bind (Async.lift (emit (audioContext_close (ctx_id ctx))))
                            (fun _ => Async.bind Async.yield (fun _ =>
                             Async.lift (modify (set_audioContextRef None))))
                     else Async.ret tt
                 | None => Async.ret tt
                 end))
              (released r, during)
            = (Returns tt, (s1, later),
               match audioContextRef r with
               | Some ctx => if is_closed ctx then [] else [audioContext_close (ctx_id ctx)]
               | None => []
               end)).
  { subst s1 later closing.
    assert (Hsame : audioContextRef (released r) = audioContextRef r) by reflexivity.
    destruct (audioContextRef r) as [ctx|] eqn:Hctx; [ destruct (is_closed ctx) eqn:Hclosed | ];
      cbn [negb]; etransitivity.
    - woven_lifted. cbn beta. rewrite Hsame, Hclosed. reflexivity.
    - reflexivity.
    - woven_lifted. cbn beta. rewrite Hsame, Hclosed. cbn [negb].
      woven_lifted. rewrite woven_bind; eapply bind_ok; [ apply woven_yield | ].
      apply woven_step. reflexivity.
    - reflexivity.
    - woven_lifted. cbn beta. rewrite Hsame. reflexivity.
    - reflexivity. }
  assert (Hrun : exists o s calls,
             Async.woven
               (Async.bind
                  (Async.bind (Async.lift get) (fun r0 =>
                     match audioContextRef r0 with
                     | Some ctx =>
                         if negb (is_closed ctx)
                         then Async.bind (Async.lift (emit (audioContext_close (ctx_id ctx))))
                                (fun _ => Async.bind Async.yield (fun _ =>
                                 Async.lift (modify (set_audioContextRef None))))
                         else Async.ret tt
                     | None => Async.ret tt
                     end))
                  (fun _ =>
                     Async.bind
                       (Async.bind (Async.lift get) (fun r =>
                          match sessionPromiseRef r with
                          | Some p =>
                              Async.bind (Async.await p) (fun session =>
                              Async.bind (Async.lift (emit (session_close session))) (fun _ =>
                              Async.lift (modify (set_sessionPromiseRef None))))
                          | None => Async.ret tt
                          end))
                       (fun _ =>
                          Async.bind (Async.lift get) (fun r =>
                          Async.lift (emit (onRecordingComplete (trim (transcriptionRef r))))))))
               (released r, during)
             = (o, (s, rest),
                match audioContextRef r with
                | Some ctx => if is_closed ctx then [] else [audioContext_close (ctx_id ctx)]
                | None => []
                end ++ calls)
             /\ (o, s, calls)
                = match sessionPromiseRef s1 with
                  | Some p =>
                      let s2 := nth 0 later (fun s => s) s1 in
                      match p with
                      | Fulfilled session =>
                          (Returns tt, set_sessionPromiseRef None s2,
                           [session_close session;
                            onRecordingComplete (trim (transcriptionRef s2))])
                      | Rejected e => (Throws e, s2, [])
                      end
                  | None =>
                      (Returns tt, s1, [onRecordingComplete (trim (transcriptionRef s1))])
                  end).
  { destruct (sessionPromiseRef s1) as [[session|e]|]; cbv zeta in *;
      do 3 eexists; (split; [ | reflexivity ]);
      rewrite woven_bind; eapply bind_ok; [ exact Hclose | exact Hlast | exact Hclose | exact Hlast | exact Hclose | exact Hlast ]. }
  destruct Hrun as (o & s & calls & Hrun & Hshape).
  rewrite (interleaved_woven _ _ _ (stopRecording_first _ _ _ Hrun)).
  destruct (sessionPromiseRef s1) as [[session|e]|]; cbv zeta in *;
    inversion Hshape; subst; unfold released_at_once;
    rewrite <- ?app_assoc, ?app_nil_r; reflexivity.
Qed.

(** What the others do, one at a time, has a property that all of them and
    doing nothing have. *)
Lemma nth_during (P : (Recorder -> Recorder) -> Prop)
  (during : list (Recorder -> Recorder)) :
  P (fun s => s) -> Forall P during -> P (nth 0 during (fun s => s)).
Proof. intros Hid H. destruct H; [ exact Hid | assumption ]. Qed.

Lemma tl_during (P : (Recorder -> Recorder) -> Prop)
  (during : list (Recorder -> Recorder)) :
  Forall P during -> Forall P (tl during).
Proof. intros H. destruct H; [ constructor | assumption ]. Qed.

Lemma nothing_keeps_resources : keeps_resources (fun s => s).
Proof. repeat split. Qed.

(** The render of a prop leaves the resources alone: the recording it may
    start is suspended before it acquires any. *)
Lemma rendered_keeps_resources (initialState : InitialState)
  (media : promise MediaStream) (connect : promise LiveSession) :
  keeps_resources (rendered initialState media connect).
Proof.
  repeat split; intros s; unfold rendered, Handler.autostart;
    destruct initialState; try reflexivity;
    destruct (isRecording s); reflexivity.
Qed.

Lemma held_split (r : Recorder) :
  held r
  = released_at_once r
    ++ match sessionPromiseRef r with
       | Some (Fulfilled s) => [session_close s] | _ => [] end.
Proof. unfold held, released_at_once. rewrite <- !app_assoc. reflexivity. Qed.

(** [stopRecording] of a render that shows a recording, amid others that
    leave the resources alone: it ends as the session promise of its
    state settles, it releases what its state holds, and what it delivers
    is the accumulator as it is when it ends. *)
Lemma stopRecording_amid_kept (render r : Recorder)
  (during : list (Recorder -> Recorder)) :
  isRecording render = true ->
  Forall keeps_resources during ->
  exists r',
    Async.interleaved (Handler.stopRecording render) during r
    = (stop_outcome r, r',
       held r ++ match sessionPromiseRef r with
                 | Some (Rejected _) => []
                 | _ => [onRecordingComplete (trim (transcriptionRef r'))]
                 end)
    /\ held r' = []
    /\ (Forall (keeps transcriptionRef) during ->
        transcriptionRef r' = transcriptionRef r)
    /\ (Forall (keeps isRecording) during -> isRecording r' = false).
Proof.
  intros Hrec Hkeep.
  rewrite (@stopRecording_amid render r during Hrec). cbv zeta.
  set (closing := match audioContextRef r with
                  | Some ctx => negb (is_closed ctx) | None => false end).
  set (d1 := nth 0 during (fun s => s)).
  set (later := if closing then tl during else during).
  set (d2 := nth 0 later (fun s => s)).
  assert (Hlater : forall P : (Recorder -> Recorder) -> Prop,
             Forall P during -> Forall P later).
  { intros P H. unfold later. destruct closing; [ apply tl_during | ]; exact H. }
  assert (Hd1 : keeps_resources d1)
    by (apply nth_during; [ apply nothing_keeps_resources | exact Hkeep ]).
  assert (Hd2 : keeps_resources d2)
    by (apply nth_during; [ apply nothing_keeps_resources | apply Hlater; exact Hkeep ]).
  destruct Hd1 as (A1 & A2 & A3 & A4 & A5 & A6 & A7).
  destruct Hd2 as (B1 & B2 & B3 & B4 & B5 & B6 & B7).
  unfold keeps in *.
  set (s1 := if closing then set_audioContextRef None (d1 (released r)) else released r).
  assert (Hs1 : animationFrameIdRef s1 = None /\ mediaStreamRef s1 = None
                /\ scriptProcessorRef s1 = None /\ gainNodeRef s1 = None
                /\ analyserNodeRef s1 = None
                /\ sessionPromiseRef s1 = sessionPromiseRef r
                /\ match audioContextRef s1 with
                   | Some ctx => is_closed ctx = true | None => True end).
  { unfold s1, closing.
    destruct (audioContextRef r) as [ctx|] eqn:Hctx;
      [ destruct (is_closed ctx) eqn:Hclosed | ]; cbn [negb];
      cbn [animationFrameIdRef mediaStreamRef scriptProcessorRef gainNodeRef
           analyserNodeRef sessionPromiseRef audioContextRef set_audioContextRef];
      rewrite ?A1, ?A2, ?A3, ?A4, ?A5, ?A7; cbn; rewrite ?Hctx;
      repeat split; trivial. }
  destruct Hs1 as (E1 & E2 & E3 & E4 & E5 & E7 & E6).
  assert (Hheld : forall s, animationFrameIdRef s = None -> mediaStreamRef s = None ->
            scriptProcessorRef s = None -> gainNodeRef s = None ->
            analyserNodeRef s = None ->
            match audioContextRef s with Some ctx => is_closed ctx = true | None => True end ->
            match sessionPromiseRef s with Some (Fulfilled _) => False | _ => True end ->
            held s = []).
  { intros s F1 F2 F3 F4 F5 F6 F7. unfold held. rewrite F1, F2, F3, F4, F5.
    destruct (audioContextRef s) as [ctx|]; [ rewrite F6 | ];
      destruct (sessionPromiseRef s) as [[?|?]|]; simpl; tauto. }
  assert (Hcell : forall (T : Type) (cell : Recorder -> T),
             (forall v s, cell (set_audioContextRef v s) = cell s) ->
             cell (released r) = cell (setAudioLevel 0 (setIsRecording false r)) ->
             Forall (keeps cell) during ->
             cell s1 = cell (setAudioLevel 0 (setIsRecording false r))
             /\ cell (d2 s1) = cell (setAudioLevel 0 (setIsRecording false r))).
  { intros T cell Hset Hrel H.
    assert (T1 : keeps cell d1) by (apply nth_during; [ intros ?; reflexivity | exact H ]).
    assert (T2 : keeps cell d2)
      by (apply nth_during; [ intros ?; reflexivity | apply Hlater; exact H ]).
    unfold keeps in *. rewrite T2. unfold s1.
    destruct closing; rewrite ?Hset, ?T1, Hrel; split; reflexivity. }
  assert (Htr : Forall (keeps transcriptionRef) during ->
                transcriptionRef s1 = transcriptionRef r
                /\ transcriptionRef (d2 s1) = transcriptionRef r).
  { intros H. apply (Hcell _ transcriptionRef); [ reflexivity | reflexivity | exact H ]. }
  assert (Hrecd : Forall (keeps isRecording) during ->
                  isRecording s1 = false /\ isRecording (d2 s1) = false).
  { intros H. apply (Hcell _ isRecording); [ reflexivity | reflexivity | exact H ]. }
  rewrite E7. rewrite held_split. unfold stop_outcome.
  destruct (sessionPromiseRef r) as [[session|e]|] eqn:Hsess.
  - exists (set_sessionPromiseRef None (d2 s1)).
    split; [ rewrite <- app_assoc; reflexivity | ].
    split; [ | split ].
    + apply Hheld; cbn [animationFrameIdRef mediaStreamRef scriptProcessorRef
                        gainNodeRef analyserNodeRef audioContextRef sessionPromiseRef
                        set_sessionPromiseRef];
        rewrite ?B1, ?B2, ?B3, ?B4, ?B5, ?B6; trivial.
    + intros H. apply (Htr H).
    + intros H. apply (Hrecd H).
  - eexists. split; [ rewrite !app_nil_r; reflexivity | ].
    split; [ | split ].
    + apply Hheld; rewrite ?B1, ?B2, ?B3, ?B4, ?B5, ?B6, ?B7, ?E7; trivial.
    + intros H. apply (Htr H).
    + intros H. apply (Hrecd H).
  - eexists. split; [ rewrite !app_nil_r; reflexivity | ].
    split; [ | split ].
    + apply Hheld; rewrite ?E7; trivial.
    + intros H. apply (Htr H).
    + intros H. apply (Hrecd H).
Qed.
(** A stop that has an [await]: a cell that the stop itself does not write
    is, when the stop ends, what the first of the others made of it, when
    the others that follow leave it alone. *)
Lemma stopRecording_amid_first (render r : Recorder)
  (during : list (Recorder -> Recorder)) :
  isRecording render = true ->
  Forall keeps_resources during ->
  sessionPromiseRef r <> None ->
  let r' := state_after (Async.interleaved (Handler.stopRecording render) during) r in
  (forall (T : Type) (cell : Recorder -> T),
      (forall v s, cell (set_audioContextRef v s) = cell s) ->
      (forall v s, cell (set_sessionPromiseRef v s) = cell s) ->
      Forall (keeps cell) (tl during) ->
      cell r' = cell (nth 0 during (fun s => s) (released r))).
Proof.
  intros Hrec Hkeep Hsome r'.
  intros T cell Hctx Hsess Hcell.
  unfold r', state_after. rewrite (@stopRecording_amid render r during Hrec). cbv zeta.
  set (closing := match audioContextRef r with
                  | Some ctx => negb (is_closed ctx) | None => false end).
  set (d1 := nth 0 during (fun s => s)).
  set (later := if closing then tl during else during).
  set (d2 := nth 0 later (fun s => s)).
  assert (Hd1 : keeps_resources d1)
    by (apply nth_during; [ apply nothing_keeps_resources | exact Hkeep ]).
  destruct Hd1 as (_ & _ & _ & _ & _ & _ & A7). unfold keeps in A7.
  set (s1 := if closing then set_audioContextRef None (d1 (released r)) else released r).
  assert (E7 : sessionPromiseRef s1 = sessionPromiseRef r).
  { unfold s1. destruct closing; cbn [sessionPromiseRef set_audioContextRef];
      rewrite ?A7; reflexivity. }
  assert (Hgoal : cell (d2 s1) = cell (d1 (released r))).
  { unfold d2, later, s1. destruct closing.
    - assert (T2 : keeps cell (nth 0 (tl during) (fun s => s)))
        by (apply nth_during; [ intros ?; reflexivity | exact Hcell ]).
      rewrite T2, Hctx. reflexivity.
    - reflexivity. }
  rewrite E7.
  destruct (sessionPromiseRef r) as [[session|e]|]; [ | | contradiction ];
    cbn [fst snd]; rewrite ?Hsess; exact Hgoal.
Qed.

(** The render of a prop adds nothing to an empty accumulator: the
    recording it may start empties it. *)
Lemma rendered_keeps_silence (initialState : InitialState)
  (media : promise MediaStream) (connect : promise LiveSession) :
  keeps_silence (rendered initialState media connect).
Proof.
  intros s Hs. unfold rendered, Handler.autostart.
  destruct initialState; [ exact Hs | ].
  destruct (isRecording s); [ exact Hs | reflexivity ].
Qed.

(** A stop on an empty accumulator, amid others that add nothing to it,
    ends on an empty accumulator. *)
Lemma stopRecording_amid_silent (render r : Recorder)
  (during : list (Recorder -> Recorder)) :
  isRecording render = true ->
  transcriptionRef r = [] ->
  Forall keeps_silence during ->
  transcriptionRef (state_after (Async.interleaved (Handler.stopRecording render) during) r)
  = [].
Proof.
  intros Hrec Hempty Hquiet.
  unfold state_after. rewrite (@stopRecording_amid render r during Hrec). cbv zeta.
  set (closing := match audioContextRef r with
                  | Some ctx => negb (is_closed ctx) | None => false end).
  set (d1 := nth 0 during (fun s => s)).
  set (later := if closing then tl during else during).
  set (d2 := nth 0 later (fun s => s)).
  assert (Hd1 : keeps_silence d1)
    by (apply nth_during; [ intros s Hs; exact Hs | exact Hquiet ]).
  assert (Hd2 : keeps_silence d2).
  { apply nth_during; [ intros s Hs; exact Hs | ].
    unfold later. destruct closing; [ apply tl_during | ]; exact Hquiet. }
  set (s1 := if closing then set_audioContextRef None (d1 (released r)) else released r).
  assert (Hs1 : transcriptionRef s1 = []).
  { unfold s1. destruct closing; [ apply (Hd1 (released r)) | ]; exact Hempty. }
  destruct (sessionPromiseRef s1) as [[session|e]|]; cbn [fst snd];
    [ apply (Hd2 s1 Hs1) | apply (Hd2 s1 Hs1) | exact Hs1 ].
Qed.







(** The release steps of a state, in program order, each present when its
    ref is set (and the context not closed, the session promise
    fulfilled). *)
Lemma steps_held (r : Recorder) :
  steps (held r)
  = match animationFrameIdRef r with
    | Some _ => [CancelVisualization] | None => [] end
    ++ match mediaStreamRef r with
       | Some stream => map (fun _ => StopTracks) stream | None => [] end
    ++ match scriptProcessorRef r with
       | Some _ => [DisconnectProcessor] | None => [] end
    ++ match gainNodeRef r with
       | Some _ => [DisconnectGain] | None => [] end
    ++ match analyserNodeRef r with
       | Some _ => [DisconnectAnalyser] | None => [] end
    ++ match audioContextRef r with
       | Some ctx => if is_closed ctx then [] else [CloseContext]
       | None => [] end
    ++ match sessionPromiseRef r with
       | Some (Fulfilled _) => [CloseSession] | _ => [] end.
Proof.
  unfold held, steps. rewrite !flat_map_app.
  repeat (f_equal; [ | ]).
  all: try (destruct (mediaStreamRef r) as [stream|]; [ | reflexivity ];
            induction stream; simpl; [ reflexivity | f_equal; assumption ]).
  all: repeat match goal with
       | |- context [match ?x with _ => _ end] => destruct x
       end; reflexivity.
Qed.


Lemma steps_delivery (r : Recorder) : steps (stop_delivery r) = [].
Proof. unfold stop_delivery. destruct (sessionPromiseRef r) as [[?|?]|]; reflexivity. Qed.

Lemma Forall_const_map (A B : Type) (P : B -> Prop) (b : B) (l : list A) :
  P b -> Forall P (map (fun _ => b) l).
Proof. intros Hb. induction l; simpl; constructor; trivial. Qed.

Ltac step_segment :=
  match goal with
  | |- Forall _ (map (fun _ => _) _) => apply Forall_const_map; reflexivity
  | |- Forall _ (match ?x with _ => _ end) => destruct x; try step_segment
  | |- Forall _ (if ?x then _ else _) => destruct x; try step_segment
  | |- Forall _ _ => repeat constructor
  end.

(** C8.  On an active session the release steps run in program order:
    cancel the visualization callback, stop the media tracks, disconnect the
    processing node (then the gain and analyser nodes), close the audio
    context, close the remote session.  A step whose ref is null (or whose
    context is closed already) is skipped, the others run, and skipping makes
    no step fail: the run returns unless the awaited session promise is
    rejected.  The transcript is delivered after the last release. *)
Theorem stopRecording_release_order (r : Recorder) :
  isRecording r = true ->
  steps (calls_of stopRecording r)
  = match animationFrameIdRef r with
    | Some _ => [CancelVisualization] | None => [] end
    ++ match mediaStreamRef r with
       | Some stream => map (fun _ => StopTracks) stream | None => [] end
    ++ match scriptProcessorRef r with
       | Some _ => [DisconnectProcessor] | None => [] end
    ++ match gainNodeRef r with
       | Some _ => [DisconnectGain] | None => [] end
    ++ match analyserNodeRef r with
       | Some _ => [DisconnectAnalyser] | None => [] end
    ++ match audioContextRef r with
       | Some ctx => if is_closed ctx then [] else [CloseContext]
       | None => [] end
    ++ match sessionPromiseRef r with
       | Some (Fulfilled _) => [CloseSession] | _ => [] end
  /\ StronglySorted (fun a b => rank a <= rank b) (steps (calls_of stopRecording r))
  /\ (session_settled_ok r = true -> outcome_of stopRecording r = Returns tt)
  /\ (exists releases,
        calls_of stopRecording r = releases ++ stop_delivery r
        /\ Forall (fun c => is_release c = true) releases).
Proof.
  intros Hrec.
  destruct (stopRecording_active r Hrec) as (r' & Hrun & _).
  unfold calls_of, outcome_of. rewrite Hrun. simpl.
  assert (Hsteps : steps (held r ++ stop_delivery r) = steps (held r)).
  { unfold steps at 1. rewrite flat_map_app. fold (steps (held r)).
    fold (steps (stop_delivery r)). rewrite steps_delivery. apply app_nil_r. }
  rewrite Hsteps, steps_held.
  split; [ reflexivity | split; [ | split ] ].
  - assert (Hlast : Forall (fun s => 6 <= rank s)
              match sessionPromiseRef r with
              | Some (Fulfilled _) => [CloseSession] | _ => [] end).
    { destruct (sessionPromiseRef r) as [[?|?]|]; repeat constructor. }
    assert (Hlast' : StronglySorted (fun a b => rank a <= rank b)
              match sessionPromiseRef r with
              | Some (Fulfilled _) => [CloseSession] | _ => [] end).
    { destruct (sessionPromiseRef r) as [[?|?]|]; repeat constructor. }
    apply (sorted_app rank (k := 0)); [ step_segment | | ].
    { repeat (apply from_app; [ step_segment | ]). exact Hlast. }
    apply (sorted_app rank (k := 1)); [ step_segment | | ].
    { repeat (apply from_app; [ step_segment | ]). exact Hlast. }
    apply (sorted_app rank (k := 2)); [ step_segment | | ].
    { repeat (apply from_app; [ step_segment | ]). exact Hlast. }
    apply (sorted_app rank (k := 3)); [ step_segment | | ].
    { repeat (apply from_app; [ step_segment | ]). exact Hlast. }
    apply (sorted_app rank (k := 4)); [ step_segment | | ].
    { repeat (apply from_app; [ step_segment | ]). exact Hlast. }
    apply (sorted_app rank (k := 5)); [ step_segment | exact Hlast | exact Hlast' ].
  - unfold session_settled_ok, stop_outcome.
    destruct (sessionPromiseRef r) as [[?|?]|]; try discriminate; reflexivity.
  - exists (held r). split; [ reflexivity | ].
    unfold held. repeat (apply Forall_app; split); segment.
Qed.

(** C8 on the opened session, every ref set: the steps are those of
    [release_order], in that order. *)
Lemma stopRecording_release_order_witness :
  isRecording (Samples.session Samples.two_finals) = true
  /\ steps (calls_of stopRecording (Samples.session Samples.two_finals)) = release_order.
Proof.
  split; [ reflexivity | ].
  exact (proj1 (stopRecording_release_order (Samples.session Samples.two_finals) eq_refl)).
Defined.

End RecorderFacts.

(* ===================================================================== *)
(** ** createBlob *)
(* ===================================================================== *)

Section BlobFacts.
Import DreamRecorder.
Local Open Scope Z_scope.

(** Wrapping subtracts the multiple of 2^16 that brings the value into the
    16-bit signed range. *)
Lemma wrap16_closed (n : Z) :
  wrap16 n = n - 65536 * ((n + 32768) / 65536).
Proof.
  unfold wrap16.
  pose proof (Z.div_mod n 65536 ltac:(lia)) as Hn.
  pose proof (Z.mod_pos_bound n 65536 ltac:(lia)) as Hb.
  destruct (32768 <=? n mod 65536) eqn:Hk.
  - apply Z.leb_le in Hk.
    assert ((n + 32768) / 65536 = n / 65536 + 1) as ->; [ | lia ].
    symmetry. apply (Z.div_unique _ _ _ (n mod 65536 - 32768)); lia.
  - apply Z.leb_gt in Hk.
    assert ((n + 32768) / 65536 = n / 65536) as ->; [ | lia ].
    symmetry. apply (Z.div_unique _ _ _ (n mod 65536 + 32768)); lia.
Qed.

Lemma wrap16_range (n : Z) : -32768 <= wrap16 n <= 32767.
Proof.
  unfold wrap16.
  pose proof (Z.mod_pos_bound n 65536 ltac:(lia)) as Hb.
  destruct (32768 <=? n mod 65536) eqn:Hk;
    [ apply Z.leb_le in Hk | apply Z.leb_gt in Hk ]; lia.
Qed.

Lemma wrap16_small (n : Z) : -32768 <= n <= 32767 -> wrap16 n = n.
Proof.
  intros Hn. rewrite wrap16_closed.
  assert ((n + 32768) / 65536 = 0) as ->; [ | lia ].
  apply Z.div_small. lia.
Qed.

(** A sample in [-1, 1] scales to a product whose truncation is in the
    16-bit signed range. *)
Lemma truncate_scaled_range (x : Q) :
  (-1 <= x)%Q -> (x <= 1)%Q ->
  -32768 <= truncate (if Qlt_le_dec x 0 then x * 32768 else x * 32767)%Q <= 32767.
Proof.
  intros Hlo Hhi. unfold truncate.
  destruct x as [n d]. unfold Qle in Hlo, Hhi. simpl in Hlo, Hhi.
  destruct (Qlt_le_dec (n # d) 0) as [Hneg|Hpos].
  - unfold Qlt in Hneg. simpl in Hneg. simpl.
    rewrite Pos.mul_1_r.
    assert (Hq : Z.quot (n * 32768) (Z.pos d) = - ((- (n * 32768)) / Z.pos d)).
    { rewrite <- (Z.opp_involutive (n * 32768)) at 1.
      rewrite Z.quot_opp_l by lia. f_equal.
      apply Z.quot_div_nonneg; lia. }
    rewrite Hq.
    assert (0 <= (- (n * 32768)) / Z.pos d) by (apply Z.div_pos; lia).
    assert ((- (n * 32768)) / Z.pos d <= 32768).
    { apply Z.div_le_upper_bound; lia. }
    lia.
  - unfold Qle in Hpos. simpl in Hpos. simpl.
    rewrite Pos.mul_1_r.
    rewrite Z.quot_div_nonneg by lia.
    assert (0 <= (n * 32767) / Z.pos d) by (apply Z.div_pos; lia).
    assert ((n * 32767) / Z.pos d <= 32767).
    { apply Z.div_le_upper_bound; lia. }
    lia.
Qed.

(** C7.  [createBlob] converts sample by sample.  A finite sample is
    multiplied by 32768 when negative and by 32767 otherwise, truncated, and
    stored modulo 2^16 as a signed 16-bit integer: the stored value is the
    truncated product minus a multiple of 65536 and lies in the 16-bit
    range.  For a sample in [-1, 1] nothing wraps.  Nothing is clamped: 1.5
    is stored as -16386 and -2 as 0, where clamping would give 32767 and
    -32768. *)
Theorem createBlob_wraps_unclamped (data : list sample) :
  List.length (createBlob_int16 data) = List.length data
  /\ (forall i x,
        nth_error data i = Some (Finite x) ->
        let product := (if Qlt_le_dec x 0 then x * 32768 else x * 32767)%Q in
        let stored := wrap16 (truncate product) in
        nth_error (createBlob_int16 data) i = Some stored
        /\ stored = truncate product - 65536 * ((truncate product + 32768) / 65536)
        /\ -32768 <= stored <= 32767
        /\ ((-1 <= x)%Q -> (x <= 1)%Q -> stored = truncate product))
  /\ (forall i v,
        nth_error data i = Some v -> v = NaN \/ (exists b, v = Infinite b) ->
        nth_error (createBlob_int16 data) i = Some 0)
  /\ createBlob_int16 [Finite (3 # 2); Finite (-2 # 1)] = [-16386; 0]
  /\ map clamped_int16 [Finite (3 # 2); Finite (-2 # 1)] = [32767; -32768].
Proof.
  split; [ apply length_map | ].
  split; [ | split; [ | split; reflexivity ] ].
  - intros i x Hi product stored.
    split; [ | split; [ | split ] ].
    + unfold createBlob_int16. rewrite nth_error_map, Hi. simpl.
      unfold stored, product. destruct (Qlt_le_dec x 0); reflexivity.
    + apply wrap16_closed.
    + apply wrap16_range.
    + intros Hlo Hhi. apply wrap16_small.
      apply truncate_scaled_range; assumption.
  - intros i v Hi Hv. unfold createBlob_int16. rewrite nth_error_map, Hi.
    destruct Hv as [->|[b ->]]; reflexivity.
Qed.

End BlobFacts.

(* ===================================================================== *)
(** ** The history store and the application handlers *)
(* ===================================================================== *)

Section AppFacts.
Import JS Eff Types Host App.
Variable env : Env.

(** [getSavedDreams], case by case. *)
Lemma getSavedDreams_run (w : World) :
  getSavedDreams env w
  = match localStorage w with
    | Some s =>
        if truthy s then
          match JSON_parse env s with
          | Some dreams => (Returns dreams, w, [])
          | None =>
              (Returns [], with_localStorage None w,
               [console_error "Failed to parse dreams from local storage:"])
          end
        else (Returns [], w, [])
    | None => (Returns [], w, [])
    end.
Proof.
  cbv [getSavedDreams try_catch bind localStorage_getItem get ret parse].
  destruct (localStorage w) as [s|]; [ | reflexivity ].
  destruct (truthy s); [ | reflexivity ].
  destruct (JSON_parse env s); reflexivity.
Qed.

(** [saveDreams]: the blob is written when the store accepts it; a rejected
    write is logged and leaves the store as it was. *)
Lemma saveDreams_run (dreams : list DreamEntry) (w : World) :
  saveDreams env dreams w
  = if quota_exceeded env (JSON_stringify env dreams)
    then (Returns tt, w, [console_error "Failed to save dreams to local storage:"])
    else (Returns tt, with_localStorage (Some (JSON_stringify env dreams)) w, []).
Proof.
  cbv [saveDreams try_catch localStorage_setItem].
  destruct (quota_exceeded env (JSON_stringify env dreams)); reflexivity.
Qed.

(** [saveNewDream] returns, leaves the component alone, and either leaves
    the store as it was, or drops a blob that does not parse, or writes a
    list headed by the new entry. *)
Lemma saveNewDream_run (newDream : DreamEntry) (w : World) :
  exists w' calls,
    saveNewDream env newDream w = (Returns tt, w', calls)
    /\ ui w' = ui w
    /\ (localStorage w' = localStorage w
        \/ localStorage w' = None
        \/ exists existing,
             localStorage w' = Some (JSON_stringify env (newDream :: existing)))
    /\ Forall (fun c => exists what, c = console_error what) calls.
Proof.
  unfold saveNewDream, try_catch, bind.
  rewrite getSavedDreams_run.
  destruct (localStorage w) as [s|] eqn:Hs;
    [ destruct (truthy s); [ destruct (JSON_parse env s) as [dreams|] | ] | ];
    rewrite saveDreams_run;
    match goal with
    | |- context [quota_exceeded env ?b] => destruct (quota_exceeded env b)
    end;
    do 2 eexists; (split; [ reflexivity | ]); simpl;
    (split; [ reflexivity | ]);
    (split; [ | repeat constructor; eexists; reflexivity ]);
    rewrite ?Hs; eauto.
Qed.

(** [generateDreamAnalysis] sends both requests and returns when both
    succeed; otherwise it logs and throws, the state untouched either
    way. *)
Lemma generateDreamAnalysis_run (St : Type) (transcription style : jsstring)
  (ratio : AspectRatio) (custom : jsstring) (s : St) :
  let prompt := GeminiService.image_prompt transcription style custom in
  let requests :=
    [ai_generateImages prompt ratio;
     ai_generateContent "gemini-2.5-pro" transcription] in
  GeminiService.generateDreamAnalysis env transcription style ratio custom s
  = match image_of (generateImages env prompt ratio),
          text_of (generateContent env transcription) with
    | Some bytes, Some text =>
        (Returns (str "data:image/jpeg;base64," ++ bytes, text), s, requests)
    | _, _ =>
        (Throws "Failed to generate dream analysis."%string, s,
         requests ++ [console_error "Error in generateDreamAnalysis:"])
    end.
Proof.
  intros prompt requests.
  cbv [GeminiService.generateDreamAnalysis try_catch Promise_all2
       GeminiService.generateDreamImage GeminiService.interpretDream bind emit
       await ret throw].
  fold prompt.
  destruct (generateImages env prompt ratio) as [[[|bytes rest]|]|e1];
    destruct (generateContent env transcription) as [text|e2]; reflexivity.
Qed.


Lemma trimStart_whitespace (t : jsstring) :
  forallb isWhiteSpace t = true -> trimStart t = [].
Proof.
  induction t as [|c t IH]; simpl; [ reflexivity | ].
  intros H. apply andb_prop in H as [Hc Ht]. rewrite Hc. auto.
Qed.

Lemma trim_whitespace (t : jsstring) :
  forallb isWhiteSpace t = true -> trim t = [].
Proof.
  intros H. unfold trim. rewrite (trimStart_whitespace t H). reflexivity.
Qed.

Lemma handleRecordingComplete_blank (transcription : jsstring) (w : World) :
  truthy (trim transcription) = false ->
  handleRecordingComplete env transcription w
  = (Returns tt, back_to_idle "The recording was empty. Please try again." w, []).
Proof.
  intros Hblank. unfold handleRecordingComplete.
  unfold bind at 1. unfold get at 1. cbn iota beta. rewrite Hblank.
  reflexivity.
Qed.

Lemma handleRecordingComplete_failure (transcription : jsstring) (w : World) :
  truthy (trim transcription) = true ->
  image_of (generateImages env
              (GeminiService.image_prompt transcription (artStyle (ui w))
                 (customImagePrompt (ui w)))
              (aspectRatio (ui w))) = None
  \/ text_of (generateContent env transcription) = None ->
  handleRecordingComplete env transcription w
  = (Returns tt,
     back_to_idle
       "There was an error analyzing your dream. Please check your API key and try again." w,
     analysis_requests transcription w
     ++ [console_error "Error in generateDreamAnalysis:";
         console_error "Error during dream analysis:"]).
Proof.
  intros Hfull Hfail. unfold handleRecordingComplete.
  unfold bind at 1. unfold get at 1. cbn iota beta. rewrite Hfull. cbn [negb].
  unfold bind at 1. unfold setAppState at 1, modify at 1. cbn iota beta.
  unfold bind at 1. unfold setError at 1, modify at 1. cbn iota beta.
  unfold try_catch. unfold bind at 1.
  rewrite generateDreamAnalysis_run. cbn [ui with_ui artStyle aspectRatio customImagePrompt].
  unfold analysis_requests.
  destruct Hfail as [Hfail|Hfail]; rewrite Hfail;
    [ | destruct (image_of _) ]; reflexivity.
Qed.

Lemma handleRecordingComplete_success (transcription bytes text : jsstring) (w : World) :
  truthy (trim transcription) = true ->
  image_of (generateImages env
              (GeminiService.image_prompt transcription (artStyle (ui w))
                 (customImagePrompt (ui w)))
              (aspectRatio (ui w))) = Some bytes ->
  text_of (generateContent env transcription) = Some text ->
  exists w' logged,
    handleRecordingComplete env transcription w
    = (Returns tt, w', analysis_requests transcription w ++ logged)
    /\ Forall (fun c => exists what, c = console_error what) logged
    /\ allDreams (ui w') = new_entry env transcription bytes text :: allDreams (ui w)
    /\ currentDream (ui w') = Some (new_entry env transcription bytes text)
    /\ appState (ui w') = VIEWING
    /\ error (ui w') = None
    /\ (localStorage w' = localStorage w
        \/ localStorage w' = None
        \/ exists existing,
             localStorage w'
             = Some (JSON_stringify env
                       (new_entry env transcription bytes text :: existing))).
Proof.
  intros Hfull Himage Htext.
  pose (w0 := state_after (bind (setAppState ANALYZING) (fun _ => setError None)) w).
  destruct (saveNewDream_run (new_entry env transcription bytes text) w0)
    as (w1 & logged & Hsave & Hui & Hstore & Hlogged).
  do 2 eexists. split; [ | split; [ exact Hlogged | ] ].
  - unfold handleRecordingComplete.
    unfold bind at 1. unfold get at 1. cbn iota beta. rewrite Hfull. cbn [negb].
    unfold bind at 1. unfold setAppState at 1, modify at 1. cbn iota beta.
    unfold bind at 1. unfold setError at 1, modify at 1. cbn iota beta.
    unfold try_catch. unfold bind at 1.
    rewrite generateDreamAnalysis_run.
    cbn [ui with_ui artStyle aspectRatio customImagePrompt].
    rewrite Himage, Htext. cbn iota beta. cbn [fst snd].
    unfold bind at 1. fold (new_entry env transcription bytes text).
    change (saveNewDream env (new_entry env transcription bytes text) _)
      with (saveNewDream env (new_entry env transcription bytes text) w0).
    rewrite Hsave. cbn iota beta.
    cbv [bind setAllDreams setCurrentDream setAppState modify].
    cbn [app]. rewrite !app_nil_r. reflexivity.
  - simpl. rewrite Hui. subst w0. simpl. repeat split; trivial.
Qed.


(** C1.  [handleRecordingComplete] never throws.  When the image request or
    the interpretation request fails, the stored blob, the in-memory list
    and the current dream are what they were: no entry exists anywhere, and
    the application is idle with an error message.  Conversely, when the
    stored blob or the in-memory list changed, both requests had succeeded:
    the in-memory list gained one entry with all six fields set, and the
    store was left as it was, cleared of a blob that does not parse, or
    written with a list headed by that same whole entry. *)
Theorem dream_entry_is_atomic (transcription : jsstring) (w : World) :
  let image :=
    image_of (generateImages env
                (GeminiService.image_prompt transcription (artStyle (ui w))
                   (customImagePrompt (ui w)))
                (aspectRatio (ui w))) in
  let interpretation := text_of (generateContent env transcription) in
  let w' := state_after (handleRecordingComplete env transcription) w in
  outcome_of (handleRecordingComplete env transcription) w = Returns tt
  /\ (image = None \/ interpretation = None ->
      localStorage w' = localStorage w
      /\ allDreams (ui w') = allDreams (ui w)
      /\ currentDream (ui w') = currentDream (ui w)
      /\ appState (ui w') = IDLE
      /\ error (ui w') <> None)
  /\ (localStorage w' <> localStorage w \/ allDreams (ui w') <> allDreams (ui w) ->
      exists bytes text,
        image = Some bytes /\ interpretation = Some text
        /\ allDreams (ui w') = new_entry env transcription bytes text :: allDreams (ui w)
        /\ currentDream (ui w') = Some (new_entry env transcription bytes text)
        /\ (localStorage w' = localStorage w
            \/ localStorage w' = None
            \/ exists existing,
                 localStorage w'
                 = Some (JSON_stringify env
                           (new_entry env transcription bytes text :: existing)))).
Proof.
  intros image interpretation w'.
  destruct (truthy (trim transcription)) eqn:Hfull.
  - destruct image as [bytes|] eqn:Himage; [ destruct interpretation as [text|] eqn:Htext | ].
    + destruct (handleRecordingComplete_success transcription w Hfull Himage Htext)
        as (w1 & logged & Hrun & _ & Hall & Hcur & _ & _ & Hstore).
      unfold outcome_of. subst w'. unfold state_after. rewrite Hrun. simpl.
      split; [ reflexivity | split ].
      * intros [H|H]; discriminate H.
      * intros _. exists bytes, text. repeat split; assumption.
    + subst w'. unfold outcome_of, state_after.
      rewrite (handleRecordingComplete_failure transcription w Hfull)
        by (right; exact Htext).
      simpl. split; [ reflexivity | split ].
      * intros _. repeat split; try reflexivity. discriminate.
      * intros [H|H]; contradiction H; reflexivity.
    + subst w'. unfold outcome_of, state_after.
      rewrite (handleRecordingComplete_failure transcription w Hfull)
        by (left; exact Himage).
      simpl. split; [ reflexivity | split ].
      * intros _. repeat split; try reflexivity. discriminate.
      * intros [H|H]; contradiction H; reflexivity.
  - subst w'. unfold outcome_of, state_after.
    rewrite (handleRecordingComplete_blank transcription w Hfull).
    simpl. split; [ reflexivity | split ].
    + intros _. repeat split; try reflexivity. discriminate.
    + intros [H|H]; contradiction H; reflexivity.
Qed.

(** C9.  A transcript that is empty or made of whitespace only creates no
    entry and sends no request: the run makes no call at all, and the only
    changes are the error message and the return to the idle state. *)
Theorem empty_recording_is_dropped (transcription : jsstring) (w : World) :
  forallb isWhiteSpace transcription = true ->
  handleRecordingComplete env transcription w
  = (Returns tt,
     {| ui :=
          {| appState := IDLE;
             currentDream := currentDream (ui w);
             allDreams := allDreams (ui w);
             error := Some (str "The recording was empty. Please try again.");
             artStyle := artStyle (ui w);
             aspectRatio := aspectRatio (ui w);
             customImagePrompt := customImagePrompt (ui w) |};
        localStorage := localStorage w |},
     []).
Proof.
  intros Hblank.
  apply handleRecordingComplete_blank.
  rewrite (trim_whitespace transcription Hblank). reflexivity.
Qed.

(** C6.  [getSavedDreams] always returns.  When the key is missing, when
    the stored blob is the empty string and when the blob does not parse,
    it returns the empty list; a blob that does not parse is removed from
    the store.  A blob that parses is returned and kept.  The history
    loaded on mount is then empty in the first three cases. *)
Theorem getSavedDreams_never_throws (w : World) :
  (exists dreams, outcome_of (getSavedDreams env) w = Returns dreams)
  /\ (localStorage w = None \/ localStorage w = Some [] ->
      getSavedDreams env w = (Returns [], w, []))
  /\ (forall s, localStorage w = Some s -> JSON_parse env s = None ->
      outcome_of (getSavedDreams env) w = Returns []
      /\ (s <> [] ->
          localStorage (state_after (getSavedDreams env) w) = None
          /\ ui (state_after (getSavedDreams env) w) = ui w))
  /\ (forall s dreams,
        localStorage w = Some s -> s <> [] -> JSON_parse env s = Some dreams ->
        getSavedDreams env w = (Returns dreams, w, []))
  /\ outcome_of (load env) w = Returns tt
  /\ (localStorage w = None \/ localStorage w = Some []
      \/ (exists s, localStorage w = Some s /\ JSON_parse env s = None) ->
      allDreams (ui (state_after (load env) w)) = []).
Proof.
  assert (Hload : load env w
                  = (Returns tt,
                     state_after (setAllDreams (fun _ => match outcome_of (getSavedDreams env) w with
                                           | Returns d => d | Throws _ => [] end))
                       (state_after (getSavedDreams env) w),
                     calls_of (getSavedDreams env) w)).
  { unfold load, bind, outcome_of, state_after, calls_of.
    rewrite getSavedDreams_run.
    destruct (localStorage w) as [s|];
      [ destruct (truthy s); [ destruct (JSON_parse env s) | ] | ]; reflexivity. }
  unfold outcome_of, state_after in *. rewrite Hload.
  rewrite getSavedDreams_run.
  split; [ | split; [ | split; [ | split; [ | split ] ] ] ].
  - destruct (localStorage w) as [s|];
      [ destruct (truthy s); [ destruct (JSON_parse env s) | ] | ]; eexists; reflexivity.
  - intros [->| ->]; reflexivity.
  - intros s -> Hparse. rewrite Hparse.
    destruct s as [|c s]; simpl; split; try reflexivity.
    + intros H. contradiction H. reflexivity.
    + intros _. split; reflexivity.
  - intros s dreams -> Hne ->. destruct s; [ contradiction Hne | ]; reflexivity.
  - reflexivity.
  - intros [->|[->|(s & -> & ->)]]; try reflexivity.
    destruct s; reflexivity.
Qed.

(** C10.  [handleToggleFavorite] returns and keeps the length and the
    order of the list.  Each entry whose id is the given one keeps its id,
    date, transcription, image and interpretation and has its favorite flag
    negated (an absent flag reads as false); every other entry is the same
    entry.  Nothing else in the component changes.  The store receives the
    serialization of exactly this updated list; a write that the store
    rejects is logged and leaves the blob as it was.  The detail view's
    toggle treats the viewed entry and the entries with another id the same
    way. *)
Theorem handleToggleFavorite_frame (dreamId : jsstring) (w : World) :
  let w' := state_after (handleToggleFavorite env dreamId) w in
  let updated := allDreams (ui w') in
  outcome_of (handleToggleFavorite env dreamId) w = Returns tt
  /\ List.length updated = List.length (allDreams (ui w))
  /\ (forall i d,
        nth_error (allDreams (ui w)) i = Some d ->
        exists d',
          nth_error updated i = Some d'
          /\ id d' = id d /\ date d' = date d
          /\ transcription d' = transcription d
          /\ imageUrl d' = imageUrl d
          /\ interpretation d' = interpretation d
          /\ (id d = dreamId ->
              isFavorite d' = Some (negb (truthy_flag (isFavorite d))))
          /\ (id d <> dreamId -> d' = d))
  /\ (appState (ui w') = appState (ui w)
      /\ currentDream (ui w') = currentDream (ui w)
      /\ error (ui w') = error (ui w))
  /\ localStorage w'
     = (if quota_exceeded env (JSON_stringify env updated)
        then localStorage w
        else Some (JSON_stringify env updated))
  /\ (forall dream,
        let v := state_after
                   (DreamAnalysis.handleToggleFavorite (handleUpdateDream env) dream) w in
        forall i d,
          nth_error (allDreams (ui w)) i = Some d ->
          (d = dream ->
           nth_error (allDreams (ui v)) i
           = Some (with_isFavorite (negb (truthy_flag (isFavorite d))) d))
          /\ (id d <> id dream -> nth_error (allDreams (ui v)) i = Some d)).
Proof.
  intros w' updated.
  assert (Hrun : handleToggleFavorite env dreamId w
                 = saveDreams env (map (toggle dreamId) (allDreams (ui w)))
                     (with_ui (fun s =>
                        {| appState := appState s;
                           currentDream := currentDream s;
                           allDreams := map (toggle dreamId) (allDreams (ui w));
                           error := error s;
                           artStyle := artStyle s;
                           aspectRatio := aspectRatio s;
                           customImagePrompt := customImagePrompt s |}) w)).
  { unfold handleToggleFavorite. cbv [bind get setAllDreams modify].
    destruct (saveDreams env _ _) as [[o s] l]. reflexivity. }
  assert (Hupdated : updated = map (toggle dreamId) (allDreams (ui w))).
  { unfold updated, w', state_after. rewrite Hrun, saveDreams_run.
    destruct (quota_exceeded env _); reflexivity. }
  split; [ | split; [ | split; [ | split; [ | split ] ] ] ].
  - unfold outcome_of. rewrite Hrun, saveDreams_run.
    destruct (quota_exceeded env _); reflexivity.
  - rewrite Hupdated. apply length_map.
  - intros i d Hi. rewrite Hupdated, nth_error_map, Hi. simpl.
    eexists. split; [ reflexivity | ].
    unfold toggle, eqb.
    destruct (list_eq_dec N.eq_dec (id d) dreamId) as [Heq|Hne]; simpl.
    + repeat split; trivial. intros H. contradiction.
    + repeat split; trivial. intros H. contradiction.
  - unfold w', state_after. rewrite Hrun, saveDreams_run.
    destruct (quota_exceeded env _); repeat split; reflexivity.
  - rewrite Hupdated. unfold w', state_after. rewrite Hrun, saveDreams_run.
    destruct (quota_exceeded env _); reflexivity.
  - intros dream v i d Hi.
    assert (Hv : allDreams (ui v)
                 = map (fun d0 =>
                          if eqb (id d0) (id dream)
                          then with_isFavorite (negb (truthy_flag (isFavorite dream))) dream
                          else d0)
                       (allDreams (ui w))).
    { unfold v, state_after, DreamAnalysis.handleToggleFavorite, handleUpdateDream.
      cbv [bind get setCurrentDream setAllDreams modify].
      rewrite saveDreams_run. destruct (quota_exceeded env _); reflexivity. }
    rewrite Hv, nth_error_map, Hi. simpl. unfold eqb.
    destruct (list_eq_dec N.eq_dec (id d) (id dream)) as [Heq|Hne]; split.
    + intros ->. reflexivity.
    + intros H. contradiction.
    + intros ->. contradiction Hne. reflexivity.
    + intros _. reflexivity.
Qed.

End AppFacts.

(** C9 on a transcript of five kinds of whitespace. *)
Lemma empty_recording_is_dropped_witness :
  forallb JS.isWhiteSpace Samples.blank_transcript = true
  /\ Eff.calls_of (App.handleRecordingComplete Samples.host Samples.blank_transcript)
       Samples.world = []
  /\ App.allDreams
       (App.ui (Eff.state_after
                  (App.handleRecordingComplete Samples.host Samples.blank_transcript)
                  Samples.world))
     = Samples.history.
Proof.
  split; [ reflexivity | ].
  pose proof (@empty_recording_is_dropped Samples.host Samples.blank_transcript
                Samples.world eq_refl) as Hrun.
  unfold Eff.calls_of, Eff.state_after. rewrite Hrun. split; reflexivity.
Defined.

(* ===================================================================== *)
(** ** The history view *)
(* ===================================================================== *)

Section InsertionSort.
Import App.
Variable T : Type.
Variable comparefn : T -> T -> Z.
(** The elements the comparator orders consistently, and the order. *)
Variable ok : T -> Prop.
Variable before : T -> T -> Prop.
Hypothesis before_of_le :
  forall x y, ok x -> ok y -> (comparefn x y <= 0)%Z -> before x y.
Hypothesis before_of_gt :
  forall x y, ok x -> ok y -> (0 < comparefn x y)%Z -> before y x.
Hypothesis before_trans :
  forall x y z, ok x -> ok y -> ok z -> before x y -> before y z -> before x z.

Lemma insert_perm (x : T) (l : list T) :
  Permutation (x :: l) (insert comparefn x l).
Proof.
  induction l as [|y l IH]; simpl; [ reflexivity | ].
  destruct (0 <? comparefn x y)%Z; [ | reflexivity ].
  rewrite perm_swap. constructor. exact IH.
Qed.

Lemma Array_sort_perm (l : list T) : Permutation l (Array_sort comparefn l).
Proof.
  induction l as [|x l IH]; simpl; [ constructor | ].
  rewrite <- insert_perm. constructor. exact IH.
Qed.

Lemma insert_sorted (x : T) (l : list T) :
  ok x -> Forall ok l -> StronglySorted before l ->
  StronglySorted before (insert comparefn x l).
Proof.
  intros Hx Hl Hs. induction Hs as [|y l Hs IH Hy]; simpl.
  - repeat constructor.
  - inversion Hl as [|? ? Hoky Hokl]; subst.
    destruct (0 <? comparefn x y)%Z eqn:Hc.
    + apply Z.ltb_lt in Hc. constructor; [ apply IH; exact Hokl | ].
      apply (Permutation_Forall (insert_perm x l)).
      constructor; [ apply before_of_gt; assumption | exact Hy ].
    + apply Z.ltb_ge in Hc.
      assert (Hxy : before x y) by (apply before_of_le; assumption).
      constructor; [ constructor; assumption | ].
      constructor; [ exact Hxy | ].
      rewrite Forall_forall in *. intros z Hz.
      apply (before_trans (y := y)); auto.
Qed.

Lemma Array_sort_sorted (l : list T) :
  Forall ok l -> StronglySorted before (Array_sort comparefn l).
Proof.
  induction 1 as [|x l Hx Hl IH]; simpl; [ constructor | ].
  apply insert_sorted; [ exact Hx | | exact IH ].
  apply (Permutation_Forall (Array_sort_perm l)). exact Hl.
Qed.

End InsertionSort.

Section HistoryFacts.
Import JS Types Host App.
Variable env : Env.

Lemma history_order_of_le (a b : DreamEntry) :
  dated env a -> dated env b -> (compareDreams env a b <= 0)%Z -> history_order env a b.
Proof.
  unfold dated, history_order, compareDreams. intros Ha Hb.
  destruct (Date_getTime env (date a)) as [ta|]; [ | contradiction ].
  destruct (Date_getTime env (date b)) as [tb|]; [ | contradiction ].
  destruct (truthy_flag (isFavorite a)), (truthy_flag (isFavorite b)); simpl;
    intros Hc; split; intros H; try discriminate; try reflexivity; try lia.
  - exists ta, tb. repeat split. lia.
  - exists ta, tb. repeat split. lia.
Qed.

Lemma history_order_of_gt (a b : DreamEntry) :
  dated env a -> dated env b -> (0 < compareDreams env a b)%Z -> history_order env b a.
Proof.
  unfold dated, history_order, compareDreams. intros Ha Hb.
  destruct (Date_getTime env (date a)) as [ta|]; [ | contradiction ].
  destruct (Date_getTime env (date b)) as [tb|]; [ | contradiction ].
  destruct (truthy_flag (isFavorite a)), (truthy_flag (isFavorite b)); simpl;
    intros Hc; split; intros H; try discriminate; try reflexivity; try lia.
  - exists tb, ta. repeat split. lia.
  - exists tb, ta. repeat split. lia.
Qed.

Lemma history_order_trans (a b c : DreamEntry) :
  dated env a -> dated env b -> dated env c ->
  history_order env a b -> history_order env b c -> history_order env a c.
Proof.
  unfold dated, history_order. intros Ha Hb Hc [Hab1 Hab2] [Hbc1 Hbc2].
  destruct (Date_getTime env (date a)) as [ta|]; [ | contradiction ].
  destruct (Date_getTime env (date b)) as [tb|]; [ | contradiction ].
  destruct (Date_getTime env (date c)) as [tc|]; [ | contradiction ].
  destruct (truthy_flag (isFavorite a)), (truthy_flag (isFavorite b)),
    (truthy_flag (isFavorite c)); split; intros H; auto; try discriminate;
    try (specialize (Hab1 eq_refl); discriminate);
    try (specialize (Hbc1 eq_refl); discriminate).
  - destruct (Hab2 eq_refl) as (x & y & Hx & Hy & Hxy).
    destruct (Hbc2 eq_refl) as (y' & z & Hy' & Hz & Hyz).
    inversion Hx; inversion Hy; inversion Hy'; inversion Hz; subst.
    exists x, z. repeat split. lia.
  - destruct (Hab2 eq_refl) as (x & y & Hx & Hy & Hxy).
    destruct (Hbc2 eq_refl) as (y' & z & Hy' & Hz & Hyz).
    inversion Hx; inversion Hy; inversion Hy'; inversion Hz; subst.
    exists x, z. repeat split. lia.
Qed.

(** C5.  When the dates of the entries can be read, the history view is a
    rearrangement of the list in which, for any two positions, the entry
    standing first is a favorite whenever the other one is (so a favorite
    precedes every plain entry, whatever the dates), and of two entries with
    the same favorite status the one standing first is at least as new. *)
Theorem sortedDreams_order (allDreams : list DreamEntry) :
  Forall (fun d => Date_getTime env (date d) <> None) allDreams ->
  Permutation allDreams (sortedDreams env allDreams)
  /\ (forall i j a b,
        i < j ->
        nth_error (sortedDreams env allDreams) i = Some a ->
        nth_error (sortedDreams env allDreams) j = Some b ->
        (truthy_flag (isFavorite b) = true -> truthy_flag (isFavorite a) = true)
        /\ (truthy_flag (isFavorite a) = truthy_flag (isFavorite b) ->
            exists ta tb,
              Date_getTime env (date a) = Some ta
              /\ Date_getTime env (date b) = Some tb
              /\ (tb <= ta)%Z)).
Proof.
  intros Hdated. split; [ apply Array_sort_perm | ].
  assert (Hsorted : StronglySorted (history_order env) (sortedDreams env allDreams)).
  { unfold sortedDreams. apply Array_sort_sorted with (ok := dated env).
    - exact history_order_of_le.
    - exact history_order_of_gt.
    - exact history_order_trans.
    - exact Hdated. }
  revert Hsorted. generalize (sortedDreams env allDreams) as l.
  intros l Hsorted. induction Hsorted as [|x l Hs IH Hx]; intros i j a b Hij Hi Hj.
  - destruct i; discriminate.
  - destruct j as [|j]; [ lia | ]. simpl in Hj.
    destruct i as [|i]; simpl in Hi.
    + inversion Hi; subst. rewrite Forall_forall in Hx.
      apply Hx. eapply nth_error_In. exact Hj.
    + apply (IH i j); [ lia | assumption | assumption ].
Qed.

End HistoryFacts.

(** C5 on the sample history: the favorite of 1 January stands before
    the plain entries of 3 and 2 January, themselves newest first, and
    after the favorite of 4 January. *)
Lemma sortedDreams_order_witness :
  App.sortedDreams Samples.host Samples.history
  = [Samples.newest_favorite; Samples.older_favorite;
     Samples.newest_plain; Samples.newer_plain]
  /\ Permutation Samples.history (App.sortedDreams Samples.host Samples.history).
Proof.
  split; [ reflexivity | ].
  refine (proj1 (@sortedDreams_order Samples.host Samples.history _)).
  repeat constructor; discriminate.
Defined.

(* ===================================================================== *)
(** ** More on the recording session *)
(* ===================================================================== *)

Section SessionFacts.
Import JS Eff DreamRecorder.
Local Open Scope eff_scope.

(** [startRecording] when the microphone is granted. *)
Lemma startRecording_granted (stream : MediaStream) (connect : promise LiveSession)
  (r : Recorder) :
  exists r',
    startRecording (Fulfilled stream) connect r = (Returns tt, r', [onRecordingStart])
    /\ isRecording r' = true
    /\ transcriptionRef r' = []
    /\ finalTranscription r' = []
    /\ interimTranscription r' = []
    /\ mediaStreamRef r' = Some stream
    /\ sessionPromiseRef r' = Some connect
    /\ audioContextRef r' = audioContextRef r
    /\ scriptProcessorRef r' = scriptProcessorRef r
    /\ gainNodeRef r' = gainNodeRef r
    /\ analyserNodeRef r' = analyserNodeRef r
    /\ animationFrameIdRef r' = animationFrameIdRef r.
Proof.
  eexists. split; [ reflexivity | ]. simpl. repeat split; reflexivity.
Qed.

(** Messages leave the recording flag and every ref alone. *)
Lemma messages_keep_resources (messages : list LiveServerMessage) (s : Recorder) :
  let s' := fold_left (fun s m => state_after (onmessage m) s) messages s in
  isRecording s' = isRecording s
  /\ sessionPromiseRef s' = sessionPromiseRef s
  /\ held s' = held s
  /\ audioLevel s' = audioLevel s.
Proof.
  revert s. induction messages as [|m messages IH]; intros s; simpl.
  - repeat split; reflexivity.
  - destruct (IH (state_after (onmessage m) s)) as (H1 & H2 & H3 & H4).
    simpl in H1, H2, H3, H4. rewrite H1, H2, H3, H4.
    unfold state_after, onmessage.
    destruct (message_transcription m) as [[t [|]]|]; simpl; repeat split; reflexivity.
Qed.

(** A state that holds nothing has no analyser. *)
Lemma nothing_held_no_analyser (r : Recorder) :
  held r = [] -> analyserNodeRef r = None.
Proof.
  unfold held. intros H.
  do 4 (apply app_eq_nil in H; destruct H as [_ H]).
  apply app_eq_nil in H. destruct H as [H _].
  destruct (analyserNodeRef r); [ discriminate | reflexivity ].
Qed.


(** X1.  A session started with the microphone granted and the connection
    established, fed any messages and then stopped by a click, the others
    leaving the resources, the accumulator and the recording flag alone
    after the render that follows the click.  The stop returns; it releases
    what the session holds, the tracks of the stream and the session among
    it, and its last call delivers a transcript.  With the prop [idle] the
    render starts nothing: the transcript is made of the final fragments of
    this session only, each followed by one space, trimmed, whatever text
    the component accumulated before the start, and the component is no
    longer recording.  With the prop [recording], which the application
    passes while it records, the render starts a recording, which empties
    the accumulator: the stop delivers the empty transcript, the fragments
    are lost, and the component is recording again. *)
Theorem session_delivers_its_own_finals (stream : MediaStream) (session : LiveSession)
  (messages : list LiveServerMessage) (r : Recorder) (initialState : InitialState)
  (media : promise MediaStream) (connect : promise LiveSession)
  (rest : list (Recorder -> Recorder)) (w : App.World) :
  Forall keeps_resources rest ->
  Forall (keeps transcriptionRef) rest ->
  Forall (keeps isRecording) rest ->
  let r1 :=
    state_after
      (startRecording (Fulfilled stream) (Fulfilled session) ;;
       forEach onmessage messages) r in
  let stop :=
    Async.interleaved (Handler.stopRecording r1)
      (rendered initialState media connect :: rest) in
  isRecording r1 = true
  /\ outcome_of stop r1 = Returns tt
  /\ calls_of stop r1
     = held r1
       ++ [onRecordingComplete
             match initialState with
             | idle =>
                 trim (List.concat (map (fun f => f ++ str " ")
                                        (final_fragments messages)))
             | recording => []
             end]
  /\ incl (map track_stop stream) (held r1)
  /\ In (session_close session) (held r1)
  /\ isRecording (state_after stop r1)
     = match initialState with idle => false | recording => true end
  /\ App.initialState (state_after App.onRecordingStart w) = recording.
Proof.
  intros Hkeep Hacc Hflag r1 stop.
  destruct (startRecording_granted stream (Fulfilled session) r)
    as (r0 & Hstart & Hrec0 & Htr0 & _ & _ & Hmedia0 & Hsess0 & _).
  pose (r2 := fold_left (fun s m => state_after (onmessage m) s) messages r0).
  destruct (messages_keep_resources messages r0) as (Hrec2 & Hsess2 & Hheld2 & _).
  fold r2 in Hrec2, Hsess2, Hheld2.
  assert (Hr1 : r1 = r2).
  { unfold r1, state_after.
    erewrite bind_ok; [ | exact Hstart | apply forEach_onmessage ]. reflexivity. }
  assert (Htr2 : transcriptionRef r2
                 = List.concat (map (fun f => f ++ str " ") (final_fragments messages))).
  { unfold r2. rewrite accumulated, Htr0. reflexivity. }
  assert (Hrec1 : isRecording r1 = true) by (rewrite Hr1, Hrec2; exact Hrec0).
  assert (Hsess1 : sessionPromiseRef r1 = Some (Fulfilled session))
    by (rewrite Hr1, Hsess2; exact Hsess0).
  assert (Hall : Forall keeps_resources (rendered initialState media connect :: rest))
    by (constructor; [ apply rendered_keeps_resources | exact Hkeep ]).
  destruct (@stopRecording_amid_kept r1 r1 _ Hrec1 Hall) as (r3 & Hrun & _).
  assert (Hfirst := @stopRecording_amid_first r1 r1
                      (rendered initialState media connect :: rest) Hrec1 Hall).
  cbv zeta in Hfirst.
  specialize (Hfirst ltac:(rewrite Hsess1; discriminate)).
  fold stop in Hrun, Hfirst.
  assert (Hr3 : state_after stop r1 = r3) by (unfold state_after; rewrite Hrun; reflexivity).
  rewrite Hr3 in Hfirst.
  assert (Hdelivered :
            transcriptionRef r3
            = match initialState with
              | idle => List.concat (map (fun f => f ++ str " ") (final_fragments messages))
              | recording => []
              end).
  { rewrite (Hfirst _ transcriptionRef) by (try reflexivity; exact Hacc).
    cbn [nth]. destruct initialState; [ | reflexivity ].
    change (rendered idle media connect (released r1)) with (released r1).
    change (transcriptionRef (released r1)) with (transcriptionRef r1).
    rewrite Hr1. exact Htr2. }
  split; [ exact Hrec1 | ].
  unfold outcome_of, calls_of. rewrite Hr3, Hrun. cbn [fst snd].
  unfold stop_outcome. rewrite Hsess1, Hdelivered.
  split; [ reflexivity | ].
  split; [ | split; [ | split ] ].
  - destruct initialState; reflexivity.
  - rewrite Hr1, Hheld2. unfold held. rewrite Hmedia0. intros c Hc.
    apply in_or_app. right. apply in_or_app. left. exact Hc.
  - rewrite Hr1, Hheld2. unfold held. rewrite Hsess0.
    do 6 (apply in_or_app; right). left. reflexivity.
  - split; [ | reflexivity ].
    rewrite (Hfirst _ isRecording) by (try reflexivity; exact Hflag).
    cbn [nth]. destruct initialState; reflexivity.
Qed.

(** X1 on the opened sample session, in the application: the two final
    fragments are lost. *)
Lemma session_delivers_its_own_finals_witness :
  calls_of
    (Async.interleaved
       (Handler.stopRecording
          (state_after
             (startRecording (Fulfilled [1%N]) (Fulfilled 7%N) ;;
              forEach onmessage Samples.two_finals) (mount false)))
       [rendered recording (Fulfilled [2%N]) (Fulfilled 8%N)])
    (state_after
       (startRecording (Fulfilled [1%N]) (Fulfilled 7%N) ;;
        forEach onmessage Samples.two_finals) (mount false))
  = [track_stop 1%N; session_close 7%N; onRecordingComplete []]
  /\ isRecording
       (state_after
          (Async.interleaved
             (Handler.stopRecording
                (state_after
                   (startRecording (Fulfilled [1%N]) (Fulfilled 7%N) ;;
                    forEach onmessage Samples.two_finals) (mount false)))
             [rendered recording (Fulfilled [2%N]) (Fulfilled 8%N)])
          (state_after
             (startRecording (Fulfilled [1%N]) (Fulfilled 7%N) ;;
              forEach onmessage Samples.two_finals) (mount false)))
     = true.
Proof.
  pose proof (@session_delivers_its_own_finals [1%N] 7%N Samples.two_finals
                (mount false) recording (Fulfilled [2%N]) (Fulfilled 8%N) []
                Samples.world
                (Forall_nil _) (Forall_nil _) (Forall_nil _)) as H.
  cbv zeta in H. destruct H as (_ & _ & Hcalls & _ & _ & Hflag & _).
  split; [ exact Hcalls | exact Hflag ].
Defined.

(** X2.  When no final message arrived before the stop, whatever interim
    text was shown, the session delivers the empty transcript, and the
    application treats the recording as empty: no request is sent, no entry
    is created, and it is back to idle with the error message. *)
Theorem interim_only_session_is_dropped (env : Host.Env) (stream : MediaStream)
  (session : LiveSession) (messages : list LiveServerMessage) (r : Recorder)
  (w : App.World) :
  final_fragments messages = [] ->
  let run :=
    startRecording (Fulfilled stream) (Fulfilled session) ;;
    forEach onmessage messages ;;
    stopRecording in
  last (calls_of run r) onRecordingStart = onRecordingComplete []
  /\ (forall t, In (onRecordingComplete t) (calls_of run r) -> t = [])
  /\ App.handleRecordingComplete env [] w
     = (Returns tt,
        App.back_to_idle "The recording was empty. Please try again." w, []).
Proof.
  intros Hnone run.
  destruct (startRecording_granted stream (Fulfilled session) r)
    as (r1 & Hstart & Hrec1 & Htr1 & _ & _ & _ & Hsess1 & _).
  pose (r2 := fold_left (fun s m => state_after (onmessage m) s) messages r1).
  destruct (messages_keep_resources messages r1) as (Hrec2 & Hsess2 & _).
  fold r2 in Hrec2, Hsess2.
  assert (Htr2 : transcriptionRef r2 = []).
  { unfold r2. rewrite accumulated, Htr1, Hnone. reflexivity. }
  destruct (stopRecording_active r2) as (r3 & Hstop & _).
  { rewrite Hrec2. exact Hrec1. }
  assert (Hrun : calls_of run r
                 = (onRecordingStart :: held r2) ++ [onRecordingComplete []]).
  { unfold calls_of, run.
    erewrite bind_ok; [ | exact Hstart | ].
    2: { eapply bind_ok; [ apply forEach_onmessage | ]. fold r2. exact Hstop. }
    unfold stop_delivery. rewrite Hsess2, Hsess1, Htr2. reflexivity. }
  rewrite Hrun. split; [ apply last_last | split ].
  - intros t Hin. apply in_app_or in Hin. destruct Hin as [Hin|Hin].
    + destruct Hin as [Hin|Hin]; [ discriminate Hin | ].
      pose proof (held_releases r2) as Hrel.
      rewrite <- Hrel in Hin. apply filter_In in Hin. destruct Hin as [_ Hin].
      discriminate Hin.
    + destruct Hin as [Hin|[]]. now inversion Hin.
  - apply handleRecordingComplete_blank. reflexivity.
Qed.

(** X2 on a session that received one interim fragment only. *)
Lemma interim_only_session_is_dropped_witness :
  final_fragments [transcript_message false (str "a river")] = []
  /\ last (calls_of
             (startRecording (Fulfilled [1%N]) (Fulfilled 7%N) ;;
              forEach onmessage [transcript_message false (str "a river")] ;;
              stopRecording)
             (mount false)) onRecordingStart
     = onRecordingComplete [].
Proof.
  split; [ reflexivity | ].
  exact (proj1 (@interim_only_session_is_dropped Samples.host [1%N] 7%N
                  [transcript_message false (str "a river")] (mount false)
                  Samples.world eq_refl)).
Defined.

(** X3.  When the microphone is refused, [startRecording] catches the
    error: it returns with the component not recording, acquires no stream
    and opens no session, and logs; the parent was already told that the
    recording started.  A stop by the render that follows is a no-op.  What
    that render does depends on the prop.  With [idle] its effect starts
    nothing.  With [recording], which the application passes from the
    moment it is told that the recording started, its effect starts a
    recording again, and a second refusal leaves the component as the first
    did: the attempts go on.  Between such an attempt and its refusal the
    component shows a recording, and a click on stop delivers the empty
    transcript after releasing what was held, amid others that leave the
    resources alone and add nothing to an empty accumulator, as the render
    of either prop does. *)
Theorem startRecording_microphone_refused (e : exn) (connect : promise LiveSession)
  (r : Recorder) (e' : exn) (connect' : promise LiveSession) (w : App.World) :
  let r' := state_after (startRecording (Rejected e) connect) r in
  let attempt := rendered recording (Rejected e') connect' r' in
  startRecording (Rejected e) connect r
  = (Returns tt, r', [onRecordingStart; console_error "Failed to start recording:"])
  /\ App.initialState (state_after App.onRecordingStart w) = recording
  /\ isRecording r' = false
  /\ mediaStreamRef r' = mediaStreamRef r
  /\ sessionPromiseRef r' = sessionPromiseRef r
  /\ held r' = held r
  /\ stopRecording r' = (Returns tt, r', [])
  /\ Async.uninterrupted (Handler.autostart idle r' (Rejected e') connect') r'
     = (Returns tt, r', [])
  /\ Async.uninterrupted (Handler.autostart recording r' (Rejected e') connect') r'
     = (Returns tt, r', [onRecordingStart; console_error "Failed to start recording:"])
  /\ isRecording attempt = true
  /\ (forall initialState media connect'',
        keeps_resources (rendered initialState media connect'')
        /\ keeps_silence (rendered initialState media connect''))
  /\ (forall during,
        session_settled_ok r = true ->
        Forall keeps_resources during ->
        Forall keeps_silence during ->
        let stop := Async.interleaved (Handler.stopRecording attempt) during in
        outcome_of stop attempt = Returns tt
        /\ calls_of stop attempt = held r ++ [onRecordingComplete []]).
Proof.
  intros r' attempt.
  assert (Hoff : isRecording r' = false) by reflexivity.
  split; [ reflexivity | ].
  split; [ reflexivity | ].
  split; [ exact Hoff | ].
  split; [ reflexivity | split; [ reflexivity | split; [ reflexivity | ] ] ].
  split; [ apply stopRecording_inactive; exact Hoff | ].
  split; [ reflexivity | ].
  split; [ destruct r; reflexivity | ].
  split; [ reflexivity | ].
  split.
  { intros initialState media connect''.
    split; [ apply rendered_keeps_resources | apply rendered_keeps_silence ]. }
  intros during Hok Hkeep Hquiet stop.
  assert (Hon : isRecording attempt = true) by reflexivity.
  assert (Hempty : transcriptionRef attempt = []) by reflexivity.
  destruct (@stopRecording_amid_kept attempt attempt during Hon Hkeep)
    as (s & Hrun & _).
  pose proof (@stopRecording_amid_silent attempt attempt during Hon Hempty Hquiet)
    as Hsilent.
  fold stop in Hrun, Hsilent.
  unfold state_after in Hsilent. unfold outcome_of, calls_of.
  rewrite Hrun in *. cbn [fst snd] in *. rewrite Hsilent.
  assert (Hsame : sessionPromiseRef attempt = sessionPromiseRef r) by reflexivity.
  assert (Hheld : held attempt = held r) by reflexivity.
  unfold stop_outcome, session_settled_ok in *.
  rewrite Hsame, Hheld.
  destruct (sessionPromiseRef r) as [[?|?]|]; try discriminate; split; reflexivity.
Qed.

Ltac local_release :=
  eapply bind_ok;
  [ eapply release_run;
    [ intros; try apply forEach_emit; reflexivity
    | let H := fresh in
      intros H;
      match goal with |- _ ?s = ?s => destruct s end;
      simpl in H; rewrite H; reflexivity ]
  | ].

Ltac reduce_refs :=
  cbn [audioContextRef sessionPromiseRef set_audioContextRef set_analyserNodeRef
       set_gainNodeRef set_scriptProcessorRef set_mediaStreamRef
       set_animationFrameIdRef setAudioLevel setIsRecording].

Ltac stop_chain Hrec Hctx Hsess :=
  rewrite stopRecording_sequential;
  (eapply bind_ok; [ reflexivity | ]); rewrite Hrec; cbn [negb];
  do 2 (eapply bind_ok; [ reflexivity | ]);
  do 5 local_release;
  (eapply bind_ok;
    [ eapply bind_ok; [ reflexivity | ];
      reduce_refs; rewrite Hctx; cbn [is_closed ctx_state negb];
      first [ eapply bind_ok; reflexivity | reflexivity ]
    | ]);
  first
    [ eapply bind_ok;
      [ unfold release; (eapply bind_ok; [ reflexivity | ]);
        reduce_refs; rewrite Hsess;
        first [ eapply bind_ok; [ eapply bind_ok; reflexivity | reflexivity ]
              | reflexivity ]
      | eapply bind_ok; reflexivity ]
    | eapply bind_throw;
      unfold release; (eapply bind_ok; [ reflexivity | ]);
      reduce_refs; rewrite Hsess; eapply bind_throw; eapply bind_throw; reflexivity ].

(** The state left by [stopRecording] on an active session: the flag and
    the level are reset, the five local refs are null, the context ref is
    null unless the context was closed already, and the session ref is null
    when its promise was fulfilled. *)
Lemma stopRecording_state (r : Recorder) :
  isRecording r = true ->
  let r' := state_after stopRecording r in
  isRecording r' = false
  /\ audioLevel r' = 0%Q
  /\ animationFrameIdRef r' = None
  /\ mediaStreamRef r' = None
  /\ scriptProcessorRef r' = None
  /\ gainNodeRef r' = None
  /\ analyserNodeRef r' = None
  /\ transcriptionRef r' = transcriptionRef r
  /\ finalTranscription r' = finalTranscription r
  /\ interimTranscription r' = interimTranscription r.
Proof.
  intros Hrec r'.
  assert (Hrun : exists o calls s,
             stopRecording r = (o, s, calls)
             /\ isRecording s = false /\ audioLevel s = 0%Q
             /\ animationFrameIdRef s = None /\ mediaStreamRef s = None
             /\ scriptProcessorRef s = None /\ gainNodeRef s = None
             /\ analyserNodeRef s = None
             /\ transcriptionRef s = transcriptionRef r
             /\ finalTranscription s = finalTranscription r
             /\ interimTranscription s = interimTranscription r).
  { destruct (audioContextRef r) as [[cid [| |]]|] eqn:Hctx;
      destruct (sessionPromiseRef r) as [[session|e]|] eqn:Hsess.
    all: do 3 eexists;
      (split; [ stop_chain Hrec Hctx Hsess | simpl; repeat split; reflexivity ]). }
  destruct Hrun as (o & calls & s & Hrun & H).
  unfold r', state_after. rewrite Hrun. exact H.
Qed.


Lemma sum_nonneg (data : list Z) (acc : Z) :
  Forall (fun b => (0 <= b <= 255)%Z) data -> (0 <= acc)%Z ->
  (0 <= fold_left Z.add data acc)%Z.
Proof.
  intros Hdata. revert acc.
  induction Hdata as [|b data Hb Hdata IH]; intros acc Hacc; simpl.
  - exact Hacc.
  - apply IH. lia.
Qed.

(** The level computed by [visualize] from byte data. *)
Lemma level_of_bytes (data : list Z) :
  Forall (fun b => (0 <= b <= 255)%Z) data ->
  (0 <= Qmin 1 (inject_Z (fold_left Z.add data 0%Z) / 128 / 128))%Q
  /\ (Qmin 1 (inject_Z (fold_left Z.add data 0%Z) / 128 / 128) <= 1)%Q.
Proof.
  intros Hdata. split; [ | apply Q.le_min_l ].
  apply Q.min_glb; [ discriminate | ].
  pose proof (@sum_nonneg data 0%Z Hdata ltac:(lia)) as Hsum.
  apply Qle_shift_div_l; [ reflexivity | ].
  apply Qle_shift_div_l; [ reflexivity | ].
  unfold Qle. simpl. lia.
Qed.

(** X4.  The audio level shown by the component stays between 0 and 1:
    it is 0 on mount, and from a state where it is in range every handler
    leaves it in range, [visualize] and [onopen] for any frequency data made
    of bytes. *)
Theorem audioLevel_stays_in_range (r : Recorder) :
  (0 <= audioLevel r)%Q /\ (audioLevel r <= 1)%Q ->
  let in_range (s : Recorder) := (0 <= audioLevel s)%Q /\ (audioLevel s <= 1)%Q in
  (forall b, audioLevel (mount b) = 0%Q)
  /\ (forall media connect, in_range (state_after (startRecording media connect) r))
  /\ (forall ctx gain analyser processor handle data,
        Forall (fun b => (0 <= b <= 255)%Z) data ->
        in_range (state_after (onopen ctx gain analyser processor handle data) r))
  /\ (forall handle data,
        Forall (fun b => (0 <= b <= 255)%Z) data ->
        in_range (state_after (visualize handle data) r))
  /\ (forall message, in_range (state_after (onmessage message) r))
  /\ in_range (state_after stopRecording r).
Proof.
  intros Hr in_range. unfold in_range.
  split; [ reflexivity | split; [ | split; [ | split; [ | split ] ] ] ].
  - intros [stream|e] connect; exact Hr.
  - intros ctx gain analyser processor handle data Hdata.
    unfold state_after. simpl. apply level_of_bytes. exact Hdata.
  - intros handle data Hdata. unfold state_after, visualize, bind, get.
    destruct (analyserNodeRef r); simpl; [ apply level_of_bytes; exact Hdata | exact Hr ].
  - intros message. unfold state_after, onmessage.
    destruct (message_transcription message) as [[t [|]]|]; exact Hr.
  - destruct (isRecording r) eqn:Hrec.
    + destruct (stopRecording_state r Hrec) as (_ & -> & _). split; discriminate.
    + unfold state_after. rewrite (stopRecording_inactive r Hrec). exact Hr.
Qed.

(** X4 on the opened sample session, stopped. *)
Lemma audioLevel_stays_in_range_witness :
  ((0 <= audioLevel (Samples.session []))%Q /\ (audioLevel (Samples.session []) <= 1)%Q)
  /\ ((0 <= audioLevel (state_after stopRecording (Samples.session [])))%Q
      /\ (audioLevel (state_after stopRecording (Samples.session [])) <= 1)%Q).
Proof.
  assert (H : (0 <= audioLevel (Samples.session []))%Q
              /\ (audioLevel (Samples.session []) <= 1)%Q)
    by (split; discriminate).
  split; [ exact H | ].
  exact (proj2 (proj2 (proj2 (proj2 (proj2
           (@audioLevel_stays_in_range (Samples.session []) H)))))).
Defined.



End SessionFacts.

(* ===================================================================== *)
(** ** Trimming *)
(* ===================================================================== *)

Section TrimFacts.
Import JS Text.

Lemma trimStart_starts_clean (s : jsstring) : starts_clean (trimStart s) = true.
Proof.
  induction s as [|c s IH]; simpl; [ reflexivity | ].
  destruct (isWhiteSpace c) eqn:Hc; [ exact IH | ].
  simpl. rewrite Hc. reflexivity.
Qed.

Lemma trimStart_clean_id (s : jsstring) :
  starts_clean s = true -> trimStart s = s.
Proof.
  destruct s as [|c s]; simpl; [ reflexivity | ].
  intros H. apply negb_true_iff in H. rewrite H. reflexivity.
Qed.

(** Leading whitespace goes, whatever follows. *)
Lemma trimStart_whitespace_app (ws s : jsstring) :
  forallb isWhiteSpace ws = true -> trimStart (ws ++ s) = trimStart s.
Proof.
  induction ws as [|c ws IH]; simpl; [ reflexivity | ].
  intros H. apply andb_prop in H as [Hc Hws]. rewrite Hc. auto.
Qed.

(** A character that is not whitespace stops the trimming. *)
Lemma trimStart_app_solid (l m : jsstring) (c : N) :
  isWhiteSpace c = false -> trimStart (l ++ c :: m) = trimStart l ++ c :: m.
Proof.
  intros Hc. induction l as [|x l IH]; simpl.
  - rewrite Hc. reflexivity.
  - destruct (isWhiteSpace x); [ exact IH | reflexivity ].
Qed.

Lemma trimEnd_ends_clean (s : jsstring) : ends_clean (trimEnd s) = true.
Proof.
  unfold ends_clean, trimEnd. rewrite rev_involutive. apply trimStart_starts_clean.
Qed.

Lemma trimEnd_clean_id (s : jsstring) : ends_clean s = true -> trimEnd s = s.
Proof.
  unfold ends_clean, trimEnd. intros H.
  rewrite (trimStart_clean_id _ H). apply rev_involutive.
Qed.

Lemma trimEnd_keeps_start (s : jsstring) :
  starts_clean s = true -> starts_clean (trimEnd s) = true.
Proof.
  destruct s as [|c s]; [ reflexivity | ].
  simpl. intros H. apply negb_true_iff in H.
  unfold trimEnd. simpl rev.
  rewrite (@trimStart_app_solid (rev s) [] c H).
  rewrite rev_app_distr. simpl. rewrite H. reflexivity.
Qed.

Lemma trimEnd_whitespace_app (s ws : jsstring) :
  forallb isWhiteSpace ws = true -> trimEnd (s ++ ws) = trimEnd s.
Proof.
  intros H. unfold trimEnd. rewrite rev_app_distr.
  rewrite trimStart_whitespace_app; [ reflexivity | ].
  rewrite forallb_forall in *. intros c Hc. apply H. apply in_rev. exact Hc.
Qed.

Lemma trim_clean (s : jsstring) :
  starts_clean (trim s) = true /\ ends_clean (trim s) = true.
Proof.
  unfold trim. split.
  - apply trimEnd_keeps_start. apply trimStart_starts_clean.
  - apply trimEnd_ends_clean.
Qed.

Lemma trim_clean_id (s : jsstring) :
  starts_clean s = true -> ends_clean s = true -> trim s = s.
Proof.
  intros H1 H2. unfold trim. rewrite (trimStart_clean_id _ H1).
  apply trimEnd_clean_id. exact H2.
Qed.

(** Trimming twice is trimming once. *)
Lemma trim_idem (s : jsstring) : trim (trim s) = trim s.
Proof. apply trim_clean_id; apply trim_clean. Qed.

Lemma word_trim (s : jsstring) : truthy (trim s) = true -> word (trim s) = true.
Proof.
  intros H. unfold word. rewrite H. destruct (trim_clean s) as [-> ->]. reflexivity.
Qed.

(** A word in front keeps what follows from being trimmed at the start;
    a word at the end keeps what precedes from being trimmed at the end. *)
Lemma trimStart_word_app (a s : jsstring) :
  word a = true -> trimStart (a ++ s) = a ++ s.
Proof.
  unfold word. intros H. apply andb_prop in H as [H _]. apply andb_prop in H as [Ha Hs].
  destruct a as [|c a]; [ discriminate | ].
  apply trimStart_clean_id. exact Hs.
Qed.

Lemma trimEnd_app_word (s b : jsstring) :
  word b = true -> trimEnd (s ++ b) = s ++ b.
Proof.
  unfold word. intros H. apply andb_prop in H as [H He]. apply andb_prop in H as [Hb _].
  apply trimEnd_clean_id. unfold ends_clean in *. rewrite rev_app_distr.
  destruct (rev b) as [|c r] eqn:Hr.
  - destruct b; [ discriminate | ].
    apply (f_equal (@List.length N)) in Hr. rewrite length_rev in Hr. discriminate.
  - exact He.
Qed.

End TrimFacts.

(* ===================================================================== *)
(** ** More on the persisted history *)
(* ===================================================================== *)

Section Sequencing.
Import JS Eff.
Variables St Ev : Type.

(** A run that continues after a step that returned. *)
Lemma bind_after (A B : Type) (c : M St Ev A) (k : A -> M St Ev B) (s : St) (a : A) :
  outcome_of c s = Returns a ->
  outcome_of (bind c k) s = outcome_of (k a) (state_after c s)
  /\ state_after (bind c k) s = state_after (k a) (state_after c s)
  /\ calls_of (bind c k) s = calls_of c s ++ calls_of (k a) (state_after c s).
Proof.
  unfold outcome_of, state_after, calls_of, bind.
  destruct (c s) as [[o s1] l1]. simpl. intros ->.
  destruct (k a s1) as [[o2 s2] l2]. repeat split; reflexivity.
Qed.

End Sequencing.

Section StoreFacts.
Import JS Eff Types Host App History.
Local Open Scope eff_scope.
Variable env : Env.

(** [getSavedDreams] in terms of what the store holds. *)
Lemma getSavedDreams_stored (w : World) :
  outcome_of (getSavedDreams env) w = Returns (stored_dreams env w)
  /\ ui (state_after (getSavedDreams env) w) = ui w
  /\ localStorage (state_after (getSavedDreams env) w)
     = (if corrupt env w then None else localStorage w).
Proof.
  unfold outcome_of, state_after, stored_dreams, corrupt.
  rewrite getSavedDreams_run.
  destruct (localStorage w) as [s|] eqn:Hs;
    [ destruct (truthy s); [ destruct (JSON_parse env s) | ] | ];
    simpl; rewrite ?Hs; repeat split; reflexivity.
Qed.

(** X6.  What [saveDreams] writes, [getSavedDreams] reads back: when the
    store accepts the blob and the blob parses back to the list, a read that
    follows returns the list, calls nothing and leaves the store alone, and
    the history loaded on mount is that list. *)
Theorem saved_dreams_are_read_back (dreams : list DreamEntry) (w : World) :
  quota_exceeded env (JSON_stringify env dreams) = false ->
  JSON_parse env (JSON_stringify env dreams) = Some dreams ->
  JSON_stringify env dreams <> [] ->
  let w1 := state_after (saveDreams env dreams) w in
  getSavedDreams env w1 = (Returns dreams, w1, [])
  /\ ui w1 = ui w
  /\ allDreams (ui (state_after (saveDreams env dreams ;; load env) w)) = dreams.
Proof.
  intros Hquota Hparse Hne w1.
  assert (Hw1 : saveDreams env dreams w
                = (Returns tt, with_localStorage (Some (JSON_stringify env dreams)) w, [])).
  { rewrite saveDreams_run, Hquota. reflexivity. }
  assert (Hread : getSavedDreams env
                    (with_localStorage (Some (JSON_stringify env dreams)) w)
                  = (Returns dreams,
                     with_localStorage (Some (JSON_stringify env dreams)) w, [])).
  { rewrite getSavedDreams_run. simpl.
    destruct (JSON_stringify env dreams) as [|c s] eqn:Hblob; [ contradiction Hne; reflexivity | ].
    simpl. rewrite Hparse. reflexivity. }
  unfold w1, state_after. rewrite Hw1. simpl.
  split; [ exact Hread | split; [ reflexivity | ] ].
  erewrite bind_ok; [ | exact Hw1 | ].
  2: { unfold load. eapply bind_ok; [ exact Hread | reflexivity ]. }
  reflexivity.
Qed.


(** [saveNewDream], in terms of what the store holds. *)
Lemma saveNewDream_stored (newDream : DreamEntry) (w : World) :
  let blob := JSON_stringify env (newDream :: stored_dreams env w) in
  outcome_of (saveNewDream env newDream) w = Returns tt
  /\ ui (state_after (saveNewDream env newDream) w) = ui w
  /\ localStorage (state_after (saveNewDream env newDream) w)
     = (if quota_exceeded env blob
        then (if corrupt env w then None else localStorage w)
        else Some blob)
  /\ filter is_request (calls_of (saveNewDream env newDream) w) = [].
Proof.
  intros blob. unfold blob, outcome_of, state_after, calls_of, stored_dreams, corrupt.
  unfold saveNewDream, try_catch, bind.
  rewrite getSavedDreams_run.
  destruct (localStorage w) as [s|] eqn:Hs;
    [ destruct (truthy s); [ destruct (JSON_parse env s) as [dreams|] | ] | ];
    rewrite saveDreams_run;
    match goal with
    | |- context [quota_exceeded env ?b] => destruct (quota_exceeded env b)
    end; simpl; rewrite ?Hs; repeat split; reflexivity.
Qed.

(** X7.  [saveNewDream] never throws and leaves the component alone.  When
    the store accepts the write, it then holds the new entry at the head of
    the list it held; a blob that did not parse counts as the empty list, so
    the entry is saved alone in its place.  When the store rejects the
    write, a readable blob is kept as it was and a blob that did not parse
    has been removed. *)
Theorem saveNewDream_prepends (newDream : DreamEntry) (w : World) :
  let w' := state_after (saveNewDream env newDream) w in
  let blob := JSON_stringify env (newDream :: stored_dreams env w) in
  outcome_of (saveNewDream env newDream) w = Returns tt
  /\ ui w' = ui w
  /\ (quota_exceeded env blob = false -> localStorage w' = Some blob)
  /\ (quota_exceeded env blob = false -> corrupt env w = true ->
      localStorage w' = Some (JSON_stringify env [newDream]))
  /\ (quota_exceeded env blob = true ->
      localStorage w' = (if corrupt env w then None else localStorage w)).
Proof.
  intros w' blob.
  destruct (saveNewDream_stored newDream w) as (Ho & Hui & Hstore & _).
  fold w' in Hui, Hstore. fold blob in Hstore.
  split; [ exact Ho | split; [ exact Hui | split; [ | split ] ] ].
  - intros Hq. rewrite Hstore, Hq. reflexivity.
  - intros Hq Hc. rewrite Hstore, Hq. unfold blob.
    assert (stored_dreams env w = []) as ->; [ | reflexivity ].
    unfold stored_dreams, corrupt in *.
    destruct (localStorage w) as [s|]; [ | reflexivity ].
    destruct (truthy s); [ | reflexivity ].
    destruct (JSON_parse env s); [ discriminate | reflexivity ].
  - intros Hq. rewrite Hstore, Hq. reflexivity.
Qed.

(** X8.  The store and the list in memory stay in step.  After a favorite
    toggle or an update whose write the store accepts, the store holds the
    serialization of the list in memory.  A completed recording keeps them
    in step: when they are in step before, the blob parses back to the list
    and the store accepts the write, both requests succeeding, then the list
    and the store both hold the new entry, with the transcript as delivered,
    at the head of the same list; and a recording that is dropped or whose
    analysis fails changes neither. *)
Theorem store_follows_memory (w : World) :
  (forall dreamId,
      let w' := state_after (handleToggleFavorite env dreamId) w in
      quota_exceeded env (JSON_stringify env (allDreams (ui w'))) = false ->
      in_sync env w')
  /\ (forall updatedDream,
      let w' := state_after (handleUpdateDream env updatedDream) w in
      quota_exceeded env (JSON_stringify env (allDreams (ui w'))) = false ->
      in_sync env w')
  /\ (forall transcription,
      let w' := state_after (handleRecordingComplete env transcription) w in
      in_sync env w ->
      (allDreams (ui w') = allDreams (ui w) /\ in_sync env w')
      \/ (exists bytes text,
            allDreams (ui w')
            = new_entry env transcription bytes text :: allDreams (ui w)
            /\ (stored_dreams env w = allDreams (ui w) ->
                quota_exceeded env
                  (JSON_stringify env
                     (new_entry env transcription bytes text :: allDreams (ui w)))
                = false ->
                in_sync env w'))).
Proof.
  split; [ | split ].
  - intros dreamId w' Hq. unfold in_sync.
    assert (Hrun : handleToggleFavorite env dreamId w
                   = saveDreams env (map (toggle dreamId) (allDreams (ui w)))
                       (state_after
                          (setAllDreams (fun _ => map (toggle dreamId) (allDreams (ui w)))) w)).
    { unfold handleToggleFavorite. cbv [bind get setAllDreams modify state_after].
      destruct (saveDreams env _ _) as [[o s] l]. reflexivity. }
    unfold w', state_after in *. rewrite Hrun, saveDreams_run in *.
    destruct (quota_exceeded env (JSON_stringify env (map (toggle dreamId) (allDreams (ui w)))))
      eqn:Hq'; simpl in *; [ congruence | reflexivity ].
  - intros updatedDream w' Hq. unfold in_sync.
    assert (Hrun : handleUpdateDream env updatedDream w
                   = saveDreams env
                       (map (fun d => if eqb (id d) (id updatedDream) then updatedDream else d)
                            (allDreams (ui w)))
                       (state_after
                          (setCurrentDream (Some updatedDream) ;;
                           setAllDreams (fun _ =>
                             map (fun d => if eqb (id d) (id updatedDream)
                                           then updatedDream else d)
                                 (allDreams (ui w)))) w)).
    { unfold handleUpdateDream.
      cbv [bind get setCurrentDream setAllDreams modify state_after].
      destruct (saveDreams env _ _) as [[o s] l]. reflexivity. }
    unfold w', state_after in *. rewrite Hrun, saveDreams_run in *.
    match goal with
    | |- context [quota_exceeded env ?b] => destruct (quota_exceeded env b) eqn:Hq'
    end; simpl in *; [ congruence | reflexivity ].
  - intros transcription w' Hsync.
    destruct (truthy (trim transcription)) eqn:Hfull.
    + destruct (image_of (generateImages env
                            (GeminiService.image_prompt transcription (artStyle (ui w))
                               (customImagePrompt (ui w)))
                            (aspectRatio (ui w)))) as [bytes|] eqn:Himage;
        [ destruct (text_of (generateContent env transcription)) as [text|] eqn:Htext | ].
      * right. exists bytes, text.
        assert (Hrun : state_after (handleRecordingComplete env transcription) w
                   = state_after
                       (setAllDreams (fun prev => new_entry env transcription bytes text :: prev) ;;
                        setCurrentDream (Some (new_entry env transcription bytes text)) ;;
                        setAppState VIEWING)
                       (state_after (saveNewDream env (new_entry env transcription bytes text))
                          (state_after (setAppState ANALYZING ;; setError None) w))).
        { pose (w0 := state_after (setAppState ANALYZING ;; setError None) w).
          fold w0.
          destruct (saveNewDream_run env (new_entry env transcription bytes text) w0)
            as (w1 & logged & Hsave & _).
          assert (Hw1 : state_after (saveNewDream env (new_entry env transcription bytes text)) w0
                        = w1).
          { unfold state_after. rewrite Hsave. reflexivity. }
          rewrite Hw1.
          unfold state_after at 1. unfold handleRecordingComplete.
          unfold bind at 1. unfold get at 1. cbn iota beta. rewrite Hfull. cbn [negb].
          unfold bind at 1. unfold setAppState at 1, modify at 1. cbn iota beta.
          unfold bind at 1. unfold setError at 1, modify at 1. cbn iota beta.
          unfold try_catch. unfold bind at 1.
          rewrite generateDreamAnalysis_run.
          cbn [ui with_ui artStyle aspectRatio customImagePrompt].
          rewrite Himage, Htext. cbn iota beta. cbn [fst snd].
          unfold bind at 1. fold (new_entry env transcription bytes text).
          change (saveNewDream env (new_entry env transcription bytes text) _)
            with (saveNewDream env (new_entry env transcription bytes text) w0).
          rewrite Hsave. reflexivity. }
        unfold w'. rewrite Hrun.
        destruct (saveNewDream_stored (new_entry env transcription bytes text)
                    (state_after (setAppState ANALYZING ;; setError None) w))
          as (_ & Hui & Hstore & _).
        set (w1 := state_after (saveNewDream env (new_entry env transcription bytes text))
                     (state_after (setAppState ANALYZING ;; setError None) w)) in *.
        assert (Hlist : allDreams (ui (state_after
                           (setAllDreams (fun prev => new_entry env transcription bytes text :: prev) ;;
                            setCurrentDream (Some (new_entry env transcription bytes text)) ;;
                            setAppState VIEWING) w1))
                        = new_entry env transcription bytes text :: allDreams (ui w)).
        { change (new_entry env transcription bytes text :: allDreams (ui w1)
                  = new_entry env transcription bytes text :: allDreams (ui w)).
          rewrite Hui. reflexivity. }
        split; [ exact Hlist | ].
        intros Hstored Hq. unfold in_sync. rewrite Hlist.
        change (localStorage w1
                = Some (JSON_stringify env
                          (new_entry env transcription bytes text :: allDreams (ui w)))).
        rewrite Hstore.
        change (stored_dreams env (state_after (setAppState ANALYZING ;; setError None) w))
          with (stored_dreams env w).
        rewrite Hstored, Hq. reflexivity.
      * left. unfold w', state_after.
        rewrite (handleRecordingComplete_failure env transcription w Hfull)
          by (right; exact Htext).
        split; [ reflexivity | exact Hsync ].
      * left. unfold w', state_after.
        rewrite (handleRecordingComplete_failure env transcription w Hfull)
          by (left; exact Himage).
        split; [ reflexivity | exact Hsync ].
    + left. unfold w', state_after.
      rewrite (handleRecordingComplete_blank env transcription w Hfull).
      split; [ reflexivity | exact Hsync ].
Qed.


Lemma handleToggleFavorite_list (dreamId : jsstring) (w : World) :
  outcome_of (handleToggleFavorite env dreamId) w = Returns tt
  /\ allDreams (ui (state_after (handleToggleFavorite env dreamId) w))
     = map (toggle dreamId) (allDreams (ui w)).
Proof.
  unfold outcome_of, state_after, handleToggleFavorite.
  cbv [bind get setAllDreams modify]. rewrite saveDreams_run.
  destruct (quota_exceeded env _); split; reflexivity.
Qed.

(** X9.  Toggling the same entry twice restores the history: the list has
    the same entries in the same order, each with the same five fields and
    the same favorite status (an absent flag and [false] both reading as
    not favorite), and when every flag was present the list is exactly the
    list before. *)
Theorem toggle_twice_restores (dreamId : jsstring) (w : World) :
  let twice := handleToggleFavorite env dreamId ;; handleToggleFavorite env dreamId in
  let before := allDreams (ui w) in
  let after := allDreams (ui (state_after twice w)) in
  outcome_of twice w = Returns tt
  /\ List.length after = List.length before
  /\ (forall i d,
        nth_error before i = Some d ->
        exists d',
          nth_error after i = Some d'
          /\ id d' = id d /\ date d' = date d
          /\ transcription d' = transcription d
          /\ imageUrl d' = imageUrl d
          /\ interpretation d' = interpretation d
          /\ truthy_flag (isFavorite d') = truthy_flag (isFavorite d))
  /\ (Forall (fun d => isFavorite d <> None) before -> after = before).
Proof.
  intros twice before after.
  destruct (handleToggleFavorite_list dreamId w) as (Ho1 & Hl1).
  destruct (handleToggleFavorite_list dreamId
              (state_after (handleToggleFavorite env dreamId) w)) as (Ho2 & Hl2).
  destruct (bind_after (handleToggleFavorite env dreamId)
              (fun _ => handleToggleFavorite env dreamId) w Ho1) as (Ho & Hs & _).
  fold twice in Ho, Hs.
  assert (Hafter : after = map (toggle dreamId) (map (toggle dreamId) before)).
  { unfold after. rewrite Hs, Hl2, Hl1. reflexivity. }
  assert (Htwice : forall d,
             let d' := toggle dreamId (toggle dreamId d) in
             id d' = id d /\ date d' = date d /\ transcription d' = transcription d
             /\ imageUrl d' = imageUrl d /\ interpretation d' = interpretation d
             /\ truthy_flag (isFavorite d') = truthy_flag (isFavorite d)
             /\ (isFavorite d <> None -> d' = d)).
  { intros d. unfold toggle at 2.
    destruct (eqb (id d) dreamId) eqn:Hid.
    - unfold toggle. cbn [id with_isFavorite]. rewrite Hid.
      destruct d as [i dt tr im it [[|]|]]; simpl; repeat split; trivial.
      intros H. contradiction H. reflexivity.
    - unfold toggle. rewrite Hid. repeat split; trivial. }
  split; [ rewrite Ho; exact Ho2 | split; [ | split ] ].
  - rewrite Hafter, !length_map. reflexivity.
  - intros i d Hi. rewrite Hafter, !nth_error_map, Hi. simpl.
    eexists. split; [ reflexivity | ].
    destruct (Htwice d) as (H1 & H2 & H3 & H4 & H5 & H6 & _).
    repeat split; assumption.
  - intros Hflags. rewrite Hafter, map_map.
    rewrite <- (map_id before) at 2.
    apply map_ext_in. intros d Hd.
    rewrite Forall_forall in Hflags.
    apply (Htwice d). apply Hflags. exact Hd.
Qed.

(** X10.  A recording with a transcript that is not blank costs exactly
    two requests, the image request first and the interpretation request
    second, whether they succeed or not: a failure of one does not spare the
    other.  The requests carry the transcript as delivered and the style,
    keywords and aspect ratio chosen when the recording completed. *)
Theorem recording_sends_both_requests (transcription : jsstring) (w : World) :
  truthy (trim transcription) = true ->
  filter is_request (calls_of (handleRecordingComplete env transcription) w)
  = [ai_generateImages
       (GeminiService.image_prompt transcription (artStyle (ui w))
          (customImagePrompt (ui w)))
       (aspectRatio (ui w));
     ai_generateContent "gemini-2.5-pro" transcription].
Proof.
  intros Hfull.
  destruct (image_of (generateImages env
                        (GeminiService.image_prompt transcription (artStyle (ui w))
                           (customImagePrompt (ui w)))
                        (aspectRatio (ui w)))) as [bytes|] eqn:Himage;
    [ destruct (text_of (generateContent env transcription)) as [text|] eqn:Htext | ].
  - destruct (handleRecordingComplete_success env transcription w Hfull Himage Htext)
      as (w1 & logged & Hrun & Hlogged & _).
    unfold calls_of. rewrite Hrun. simpl.
    f_equal. f_equal. clear Hrun.
    induction Hlogged as [|c logged [what ->] _ IH]; simpl; [ reflexivity | exact IH ].
  - unfold calls_of.
    rewrite (handleRecordingComplete_failure env transcription w Hfull)
      by (right; exact Htext). reflexivity.
  - unfold calls_of.
    rewrite (handleRecordingComplete_failure env transcription w Hfull)
      by (left; exact Himage). reflexivity.
Qed.

End StoreFacts.

(** X6 on the sample history. *)
Lemma saved_dreams_are_read_back_witness :
  App.getSavedDreams History.reading_host
    (Eff.state_after (App.saveDreams History.reading_host Samples.history)
       History.corrupt_world)
  = (JS.Returns Samples.history,
     Eff.state_after (App.saveDreams History.reading_host Samples.history)
       History.corrupt_world, []).
Proof.
  refine (proj1 (@saved_dreams_are_read_back History.reading_host Samples.history
                   History.corrupt_world eq_refl eq_refl _)).
  discriminate.
Defined.

(** X10 on the host whose image request returns no image. *)
Lemma recording_sends_both_requests_witness :
  JS.truthy (JS.trim (JS.str "a river of glass")) = true
  /\ List.length
       (filter History.is_request
          (Eff.calls_of
             (App.handleRecordingComplete Samples.host_without_image
                (JS.str "a river of glass"))
             Samples.world)) = 2.
Proof.
  split; [ reflexivity | ].
  rewrite (@recording_sends_both_requests Samples.host_without_image
             (JS.str "a river of glass") Samples.world eq_refl).
  reflexivity.
Defined.

(* ===================================================================== *)
(** ** The payload of createBlob *)
(* ===================================================================== *)

Section PcmFacts.
Import JS DreamRecorder Pcm.

Ltac euclid := zify; Z.to_euclidean_division_equations; lia.

(** Lists three elements at a time. *)
Lemma list_ind3 (A : Type) (P : list A -> Prop) :
  P [] -> (forall a, P [a]) -> (forall a b, P [a; b]) ->
  (forall a b c l, P l -> P (a :: b :: c :: l)) ->
  forall l, P l.
Proof.
  intros H0 H1 H2 H3 l.
  assert (H : P l /\ (forall a, P (a :: l)) /\ (forall a b, P (a :: b :: l))).
  { induction l as [|x l (IH0 & IH1 & IH2)].
    - repeat split; auto.
    - repeat split; auto. }
  apply H.
Qed.

Lemma digits_checked :
  forallb digit_check (map N.of_nat (seq 0 64)) = true.
Proof. vm_compute. reflexivity. Qed.

(** The 64 digits are characters of the alphabet, none is the padding
    character, and [undigit] reads each of them back. *)
Lemma digit_ok (n : N) :
  (n < 64)%N ->
  undigit (digit n) = n /\ digit n <> pad /\ In (digit n) alphabet.
Proof.
  intros Hn.
  pose proof digits_checked as H. rewrite forallb_forall in H.
  specialize (H n).
  assert (Hin : In n (map N.of_nat (seq 0 64))).
  { apply in_map_iff. exists (N.to_nat n). split; [ apply N2Nat.id | ].
    apply in_seq. lia. }
  specialize (H Hin). unfold digit_check in H.
  apply andb_prop in H as [H H3]. apply andb_prop in H as [H1 H2].
  apply N.eqb_eq in H1. apply negb_true_iff in H2. apply N.eqb_neq in H2.
  apply existsb_exists in H3 as (c & Hc & Heq). apply N.eqb_eq in Heq. subst c.
  repeat split; assumption.
Qed.

Lemma int16_bytes_small (n : Z) : Forall (fun b => (b < 256)%N) (int16_bytes n).
Proof.
  unfold int16_bytes.
  apply Forall_cons; [ euclid | ].
  apply Forall_cons; [ euclid | apply Forall_nil ].
Qed.

Lemma Uint8Array_small (int16 : list Z) :
  Forall (fun b => (b < 256)%N) (Uint8Array_of int16).
Proof.
  unfold Uint8Array_of. induction int16 as [|n l IH]; cbn [flat_map].
  - constructor.
  - apply Forall_app. split; [ apply int16_bytes_small | exact IH ].
Qed.

Lemma Uint8Array_length (int16 : list Z) :
  List.length (Uint8Array_of int16) = 2 * List.length int16.
Proof.
  unfold Uint8Array_of. induction int16 as [|n l IH]; cbn [flat_map];
    [ reflexivity | ].
  rewrite length_app, IH. unfold int16_bytes. cbn [List.length]. lia.
Qed.

Lemma base64_length (bytes : list N) :
  List.length (base64 bytes) = 4 * ((List.length bytes + 2) / 3).
Proof.
  induction bytes as [| a | a b | a b c rest IH] using list_ind3;
    try reflexivity.
  cbn [base64 List.length]. rewrite IH.
  replace (S (S (S (List.length rest))) + 2) with ((List.length rest + 2) + 1 * 3) by lia.
  rewrite Nat.div_add by lia. lia.
Qed.

Lemma base64_alphabet (bytes : list N) :
  Forall (fun b => (b < 256)%N) bytes ->
  Forall (fun c => In c alphabet \/ c = pad) (base64 bytes).
Proof.
  assert (Hdigit : forall n, (n < 64)%N -> In (digit n) alphabet \/ digit n = pad).
  { intros n Hn. left. apply digit_ok. exact Hn. }
  assert (Hpad : In pad alphabet \/ pad = pad) by (right; reflexivity).
  induction bytes as [| a | a b | a b c rest IH] using list_ind3; intros Hb.
  - constructor.
  - inversion Hb; subst. cbn [base64].
    apply Forall_cons; [ apply Hdigit; euclid | ].
    apply Forall_cons; [ apply Hdigit; euclid | ].
    apply Forall_cons; [ exact Hpad | ].
    apply Forall_cons; [ exact Hpad | apply Forall_nil ].
  - inversion Hb as [|? ? Ha Hb']; subst. inversion Hb'; subst. cbn [base64].
    apply Forall_cons; [ apply Hdigit; euclid | ].
    apply Forall_cons; [ apply Hdigit; euclid | ].
    apply Forall_cons; [ apply Hdigit; euclid | ].
    apply Forall_cons; [ exact Hpad | apply Forall_nil ].
  - inversion Hb as [|? ? Ha Hb1]; subst. inversion Hb1 as [|? ? Hb' Hb2]; subst.
    inversion Hb2 as [|? ? Hc Hrest]; subst. cbn [base64].
    apply Forall_cons; [ apply Hdigit; euclid | ].
    apply Forall_cons; [ apply Hdigit; euclid | ].
    apply Forall_cons; [ apply Hdigit; euclid | ].
    apply Forall_cons; [ apply Hdigit; euclid | ].
    apply IH. exact Hrest.
Qed.

(** Base64 decoding reads back what base64 encoding wrote. *)
Lemma unbase64_base64 (bytes : list N) :
  Forall (fun b => (b < 256)%N) bytes -> unbase64 (base64 bytes) = bytes.
Proof.
  induction bytes as [| a | a b | a b c rest IH] using list_ind3; intros Hb.
  - reflexivity.
  - inversion Hb; subst. cbn [base64 unbase64].
    rewrite N.eqb_refl.
    destruct (@digit_ok (a / 4)%N) as (-> & _ & _); [ euclid | ].
    destruct (@digit_ok ((a mod 4) * 16)%N) as (-> & _ & _); [ euclid | ].
    f_equal. euclid.
  - inversion Hb as [|? ? Ha Hb']; subst. inversion Hb'; subst.
    cbn [base64 unbase64].
    destruct (@digit_ok (a / 4)%N) as (-> & _ & _); [ euclid | ].
    destruct (@digit_ok ((a mod 4) * 16 + b / 16)%N) as (-> & _ & _); [ euclid | ].
    destruct (@digit_ok ((b mod 16) * 4)%N) as (-> & Hp & _); [ euclid | ].
    apply N.eqb_neq in Hp. rewrite Hp, N.eqb_refl.
    f_equal; [ euclid | f_equal; euclid ].
  - inversion Hb as [|? ? Ha Hb1]; subst. inversion Hb1 as [|? ? Hb' Hb2]; subst.
    inversion Hb2 as [|? ? Hc Hrest]; subst.
    cbn [base64 unbase64].
    destruct (@digit_ok (a / 4)%N) as (-> & _ & _); [ euclid | ].
    destruct (@digit_ok ((a mod 4) * 16 + b / 16)%N) as (-> & _ & _); [ euclid | ].
    destruct (@digit_ok ((b mod 16) * 4 + c / 64)%N) as (-> & Hp3 & _); [ euclid | ].
    destruct (@digit_ok (c mod 64)%N) as (-> & Hp4 & _); [ euclid | ].
    apply N.eqb_neq in Hp3. apply N.eqb_neq in Hp4. rewrite Hp3, Hp4.
    rewrite (IH Hrest).
    f_equal; [ euclid | f_equal; [ euclid | f_equal; euclid ] ].
Qed.

Lemma wrap16_idem (n : Z) : wrap16 (wrap16 n) = wrap16 n.
Proof. apply wrap16_small. apply wrap16_range. Qed.

(** The bytes of a buffer read back as the 16-bit values stored in it. *)
Lemma int16_of_Uint8Array (int16 : list Z) :
  int16_of_bytes (Uint8Array_of int16) = map wrap16 int16.
Proof.
  unfold Uint8Array_of. induction int16 as [|n l IH]; cbn [flat_map map];
    [ reflexivity | ].
  unfold int16_bytes at 1. cbn [app int16_of_bytes].
  rewrite IH. f_equal.
  assert (Hu : (Z.of_N (Z.to_N ((n mod 65536) mod 256))
                + 256 * Z.of_N (Z.to_N ((n mod 65536) / 256)) = n mod 65536)%Z)
    by euclid.
  rewrite Hu. unfold wrap16. rewrite Z.mod_mod by lia. reflexivity.
Qed.

Lemma createBlob_int16_wrapped (samples : list sample) :
  map wrap16 (createBlob_int16 samples) = createBlob_int16 samples.
Proof.
  unfold createBlob_int16. rewrite map_map. apply map_ext. intros v.
  destruct v as [x| |]; simpl; try reflexivity.
  destruct (Qlt_le_dec x 0); simpl; apply wrap16_idem.
Qed.

Lemma encode_returns (bytes : list N) :
  Forall (fun b => (b < 256)%N) bytes -> encode bytes = Returns (base64 bytes).
Proof.
  intros Hb. unfold encode, btoa.
  assert (forallb (fun c => (c <=? 255)%N) bytes = true) as ->; [ | reflexivity ].
  apply forallb_forall. rewrite Forall_forall in Hb.
  intros c Hc. apply N.leb_le. specialize (Hb c Hc). lia.
Qed.

(** X11.  [createBlob] returns for every buffer, whatever the samples,
    NaN and infinities included: the characters handed to [btoa] are bytes.
    The blob has the PCM mime type, and its payload is made of characters of
    the base64 alphabet and padding, four for every three bytes of the two
    bytes per sample, rounded up. *)
Theorem createBlob_returns (samples : list sample) :
  exists blob,
    createBlob samples = Returns blob
    /\ mimeType blob = str "audio/pcm;rate=16000"
    /\ List.length (data blob) = 4 * ((2 * List.length samples + 2) / 3)
    /\ Forall (fun c => In c alphabet \/ c = pad) (data blob).
Proof.
  unfold createBlob.
  rewrite (encode_returns (Uint8Array_small (createBlob_int16 samples))).
  eexists. split; [ reflexivity | ]. cbn [mimeType data].
  split; [ reflexivity | split ].
  - rewrite base64_length, Uint8Array_length.
    unfold createBlob_int16. rewrite length_map. reflexivity.
  - apply base64_alphabet. apply Uint8Array_small.
Qed.

(** X12.  The payload of [createBlob] loses nothing: decoded from base64
    and read as little-endian signed 16-bit integers, it is exactly the
    sequence of values the conversion loop stored, one per sample and in
    order. *)
Theorem createBlob_decodes (samples : list sample) :
  exists blob,
    createBlob samples = Returns blob
    /\ decode_pcm (data blob) = createBlob_int16 samples.
Proof.
  unfold createBlob.
  rewrite (encode_returns (Uint8Array_small (createBlob_int16 samples))).
  eexists. split; [ reflexivity | ]. cbn [data]. unfold decode_pcm.
  rewrite (unbase64_base64 (Uint8Array_small (createBlob_int16 samples))).
  rewrite int16_of_Uint8Array. apply createBlob_int16_wrapped.
Qed.

End PcmFacts.

(* ===================================================================== *)
(** ** Prompts and titles *)
(* ===================================================================== *)

Section ThemeFacts.
Import JS Text Theme.

(** X13.  The image prompt depends on the keywords only through their
    trimmed text: whitespace around them is dropped, keywords made of
    whitespace only add nothing, and in every case the prompt starts with
    the style and the whole transcript between quotes. *)
Theorem image_prompt_trims_keywords (transcription style customPrompt : jsstring) :
  let base :=
    str "A " ++ style
    ++ str ", high-resolution, emotionally evocative painting representing the core essence of this dream: "
    ++ dquote ++ transcription ++ dquote in
  GeminiService.image_prompt transcription style customPrompt
  = GeminiService.image_prompt transcription style (trim customPrompt)
  /\ (forallb isWhiteSpace customPrompt = true ->
      GeminiService.image_prompt transcription style customPrompt = base)
  /\ (trim customPrompt <> [] ->
      GeminiService.image_prompt transcription style customPrompt
      = base ++ str ". Also, incorporate the following creative direction: "
        ++ dquote ++ trim customPrompt ++ dquote).
Proof.
  intros base. unfold GeminiService.image_prompt. fold base.
  rewrite trim_idem. split; [ reflexivity | split ].
  - intros H. rewrite (trim_whitespace customPrompt H). reflexivity.
  - intros H. destruct (trim customPrompt); [ contradiction H; reflexivity | reflexivity ].
Qed.

Lemma line_terminator_is_whitespace (c : N) :
  isLineTerminator c = true -> isWhiteSpace c = true.
Proof.
  unfold isLineTerminator, isWhiteSpace. intros H.
  repeat (apply orb_prop in H; destruct H as [H|H]);
    apply N.eqb_eq in H; subst c; reflexivity.
Qed.

Lemma line_has_no_terminator (s : jsstring) :
  Forall (fun c => isLineTerminator c = false) (line s).
Proof.
  induction s as [|c s IH]; simpl; [ constructor | ].
  destruct (isLineTerminator c) eqn:Hc; constructor; assumption.
Qed.

Lemma line_keeps_start (s : jsstring) :
  starts_clean s = true -> starts_clean (line s) = true.
Proof.
  destruct s as [|c s]; simpl; [ reflexivity | ].
  intros H. destruct (isLineTerminator c) eqn:Hc; [ reflexivity | exact H ].
Qed.

(** A line followed by nothing or by a line terminator is read whole. *)
Lemma line_app (theme rest : jsstring) :
  Forall (fun c => isLineTerminator c = false) theme ->
  line rest = [] ->
  line (theme ++ rest) = theme.
Proof.
  intros Ht Hrest. induction Ht as [|c theme Hc Ht IH]; simpl.
  - exact Hrest.
  - rewrite Hc, IH. reflexivity.
Qed.

Lemma strip_prefix_app (p s : jsstring) : strip_prefix p (p ++ s) = Some s.
Proof.
  induction p as [|a p IH]; simpl; [ destruct s; reflexivity | ].
  rewrite N.eqb_refl. exact IH.
Qed.

Lemma find_after_found (p s rest : jsstring) :
  strip_prefix p s = Some rest -> find_after p s = Some rest.
Proof. intros H. destruct s; simpl; rewrite H; reflexivity. Qed.

(** Before the first asterisk there is no occurrence of the marker. *)
Lemma find_after_marker (pre s : jsstring) :
  Forall (fun c => c <> 42%N) pre ->
  find_after marker (pre ++ marker ++ s) = Some s.
Proof.
  induction 1 as [|c pre Hc Hpre IH].
  - change ([] ++ marker ++ s) with (marker ++ s).
    apply find_after_found. apply strip_prefix_app.
  - change ((c :: pre) ++ marker ++ s) with (c :: (pre ++ marker ++ s)).
    cbn [find_after].
    assert (strip_prefix marker (c :: pre ++ marker ++ s) = None) as ->.
    { change marker with (42%N :: tl marker). cbn [strip_prefix].
      destruct (42 =? c)%N eqn:Heq; [ | reflexivity ].
      apply N.eqb_eq in Heq. contradiction Hc. symmetry. exact Heq. }
    exact IH.
Qed.

(** X14.  When the pattern matches, the captured theme is a single line
    that does not start with whitespace, and it is both the title of the
    history item and the initial keywords of the detail view; when it does
    not, the title is the default one and the keywords are empty.  A marker
    followed by whitespace only, up to the end of the text, matches with an
    empty theme: the title is then empty, not the default. *)
Theorem core_theme_is_a_clean_line (interpretation : jsstring) :
  match core_theme interpretation with
  | Some theme =>
      Forall (fun c => isLineTerminator c = false) theme
      /\ starts_clean theme = true
      /\ title interpretation = theme
      /\ initialPrompt interpretation = theme
  | None =>
      title interpretation = str "A Recorded Dream"
      /\ initialPrompt interpretation = []
  end
  /\ (forall pre ws,
        Forall (fun c => c <> 42%N) pre -> forallb isWhiteSpace ws = true ->
        title (pre ++ marker ++ ws) = []).
Proof.
  split.
  - unfold title, initialPrompt, core_theme.
    destruct (find_after marker interpretation) as [rest|]; [ | split; reflexivity ].
    split; [ apply line_has_no_terminator | split; [ | split; reflexivity ] ].
    apply line_keeps_start. apply trimStart_starts_clean.
  - intros pre ws Hpre Hws. unfold title, core_theme.
    rewrite (find_after_marker ws Hpre).
    rewrite (trimStart_whitespace ws Hws). reflexivity.
Qed.

(** X15.  An interpretation in the format the system instruction asks for
    gives its theme back: when no asterisk precedes the marker, whitespace
    (line breaks included) follows it, and then comes a theme that is not
    empty, does not start with whitespace, has no line break and is ended by
    a line break or by the end of the text, the captured theme is that
    theme. *)
Theorem core_theme_of_formatted (pre ws theme rest : jsstring) :
  Forall (fun c => c <> 42%N) pre ->
  forallb isWhiteSpace ws = true ->
  theme <> [] -> starts_clean theme = true ->
  Forall (fun c => isLineTerminator c = false) theme ->
  line rest = [] ->
  core_theme (pre ++ marker ++ ws ++ theme ++ rest) = Some theme
  /\ title (pre ++ marker ++ ws ++ theme ++ rest) = theme.
Proof.
  intros Hpre Hws Hne Hclean Hline Hrest.
  assert (H : core_theme (pre ++ marker ++ ws ++ theme ++ rest) = Some theme).
  { unfold core_theme. rewrite (find_after_marker (ws ++ theme ++ rest) Hpre).
    rewrite (@trimStart_whitespace_app ws (theme ++ rest) Hws).
    destruct theme as [|c theme]; [ contradiction Hne; reflexivity | ].
    rewrite trimStart_clean_id by exact Hclean.
    rewrite (@line_app (c :: theme) rest Hline Hrest). reflexivity. }
  split; [ exact H | ]. unfold title. rewrite H. reflexivity.
Qed.

(** X15 on the interpretation of the sample entries, continued on a second
    line. *)
Lemma core_theme_of_formatted_witness :
  core_theme (str "1.  " ++ marker ++ str " " ++ str "calm"
              ++ (10%N :: str "2.  **Key Symbols and Archetypes:** water"))
  = Some (str "calm")
  /\ title (str "1.  " ++ marker ++ str " " ++ str "calm"
            ++ (10%N :: str "2.  **Key Symbols and Archetypes:** water"))
     = str "calm".
Proof.
  refine (@core_theme_of_formatted (str "1.  ") (str " ") (str "calm")
            (10%N :: str "2.  **Key Symbols and Archetypes:** water")
            _ eq_refl _ eq_refl _ eq_refl).
  - repeat constructor; discriminate.
  - discriminate.
  - repeat constructor.
Defined.

End ThemeFacts.

(* ===================================================================== *)
(** ** The chat *)
(* ===================================================================== *)

Section ChatFacts.
Import JS Eff Text ChatInterface.
Local Open Scope eff_scope.

(** With nothing else happening during their awaits, the handlers of the
    render that shows the current state are the runs of their statements
    in program order. *)
Lemma stopVoiceRecording_sequential (c : Chat) :
  stopVoiceRecording c
  = (c <- get ;;
      if negb (isVoiceRecording c) then ret tt
      else
        modify (setIsVoiceRecording false) ;;
        (c <- get ;;
         match mediaStreamRef c with
         | Some stream =>
             forEach (fun track => emit (track_stop track)) stream ;;
             modify (set_mediaStreamRef None)
         | None => ret tt
         end) ;;
        (c <- get ;;
         match scriptProcessorRef c with
         | Some n => emit (processor_disconnect n) ;; modify (set_scriptProcessorRef None)
         | None => ret tt
         end) ;;
        (c <- get ;;
         match audioContextRef c with
         | Some ctx =>
             if negb (DreamRecorder.is_closed ctx)
             then emit (audioContext_close (DreamRecorder.ctx_id ctx)) ;;
                  modify (set_audioContextRef None)
             else ret tt
         | None => ret tt
         end) ;;
        (c <- get ;;
         match sessionPromiseRef c with
         | Some p =>
             session <- await p ;;
             emit (session_close session) ;;
             modify (set_sessionPromiseRef None)
         | None => ret tt
         end))%eff c.
Proof.
  unfold stopVoiceRecording, Handler.stopVoiceRecording.
  rewrite bind_get.
  destruct (isVoiceRecording c); cbn [negb]; [ | reflexivity ].
  unfold Async.modify, Async.emit, Async.get.
  sequential.
Qed.

Lemma startVoiceRecording_sequential (media : promise DreamRecorder.MediaStream)
  (connect : promise DreamRecorder.LiveSession) (c : Chat) :
  startVoiceRecording media connect c
  = (modify (setIsVoiceRecording true) ;;
      try_catch
        (stream <- await media ;;
         modify (set_mediaStreamRef (Some stream)) ;;
         modify (set_sessionPromiseRef (Some connect)))
        (fun _ =>
           emit (console_error "Failed to start voice recording:") ;;
           modify (setIsVoiceRecording false)))%eff c.
Proof.
  unfold startVoiceRecording, Handler.startVoiceRecording.
  unfold Async.modify, Async.emit, Async.get.
  sequential.
Qed.

Lemma handleSend_sequential (sendMessage : jsstring -> promise jsstring) (c : Chat) :
  handleSend sendMessage c
  = (c <- get ;;
      (if isVoiceRecording c then stopVoiceRecording else ret tt) ;;
      now <- get ;;
      if negb (truthy (trim (input c))) || isLoading c
         || match chatRef now with Some _ => false | None => true end
      then ret tt
      else
        let userMessage := {| role := user; text := input c |} in
        modify (setMessages (fun prev => prev ++ [userMessage])) ;;
        modify (setInput (fun _ => [])) ;;
        modify (setIsLoading true) ;;
        Control.try_finally
          (try_catch
             (response <- (c0 <- get ;;
                          match chatRef c0 with
                          | Some chat =>
                              emit (chat_sendMessage chat (input c)) ;;
                              await (sendMessage (input c))
                          | None => throw "TypeError"%string
                          end) ;;
              let modelMessage := {| role := model; text := response |} in
              modify (setMessages (fun prev => prev ++ [modelMessage])))
             (fun _ =>
                emit (console_error "Chat error:") ;;
                let errorMessage := {| role := model; text := apology |} in
                modify (setMessages (fun prev => prev ++ [errorMessage]))))
          (modify (setIsLoading false)))%eff c.
Proof.
  unfold handleSend, Handler.handleSend, Handler.send.
  rewrite bind_get.
  unfold Async.modify, Async.emit, Async.get, Async.throw.
  rewrite uninterrupted_bind; apply bind_ext.
  - destruct (isVoiceRecording c); [ | reflexivity ].
    apply uninterrupted_await_call.
  - intros _ s. sequential.
Qed.

Lemma handleMicClick_sequential (media : promise DreamRecorder.MediaStream)
  (connect : promise DreamRecorder.LiveSession) (c : Chat) :
  handleMicClick media connect c
  = (c <- get ;;
      if isVoiceRecording c then stopVoiceRecording
      else startVoiceRecording media connect)%eff c.
Proof.
  unfold handleMicClick, Handler.handleMicClick.
  rewrite bind_get.
  destruct (isVoiceRecording c); reflexivity.
Qed.

Lemma stopVoiceRecording_inactive (c : Chat) :
  isVoiceRecording c = false -> stopVoiceRecording c = (Returns tt, c, []).
Proof.
  intros H. rewrite stopVoiceRecording_sequential. unfold bind, get. rewrite H. reflexivity.
Qed.

(** [stopVoiceRecording] on an active dictation, in closed form. *)
Lemma stopVoiceRecording_active (c : Chat) :
  isVoiceRecording c = true ->
  exists c',
    stopVoiceRecording c = (stop_outcome c, c', held c)
    /\ isVoiceRecording c' = false
    /\ held c' = []
    /\ messages c' = messages c
    /\ input c' = input c
    /\ isLoading c' = isLoading c
    /\ chatRef c' = chatRef c.
Proof.
  destruct c as [msgs inp load rec chat sess ctx proc media].
  cbn [isVoiceRecording]. intros ->.
  destruct media as [stream|], proc as [n|], ctx as [[cid [| |]]|],
    sess as [[session|e]|].
  all: eexists; split;
    [ rewrite stopVoiceRecording_sequential;
      cbv [bind get modify ret await throw isVoiceRecording negb mediaStreamRef
           scriptProcessorRef audioContextRef sessionPromiseRef
           setIsVoiceRecording set_mediaStreamRef set_scriptProcessorRef
           set_audioContextRef set_sessionPromiseRef DreamRecorder.is_closed
           DreamRecorder.ctx_state DreamRecorder.ctx_id];
      rewrite ?forEach_emit; cbv [emit held stop_outcome];
      cbn [app mediaStreamRef scriptProcessorRef audioContextRef sessionPromiseRef
           DreamRecorder.is_closed DreamRecorder.ctx_state DreamRecorder.ctx_id];
      rewrite ?app_nil_r; reflexivity
    | repeat split; reflexivity ].
Qed.


(** The turns of the event loop, one at a time. *)
Lemma step_call_suspended (St Ev : Type) (h : Async.async St Ev unit)
  (now : Async.Loop St Ev) (s : St) (l : list Ev) (k : St -> Async.task St Ev unit) :
  h (Async.state now) = Async.suspended s l k ->
  Async.step (Async.call h) now
  = {| Async.state := s; Async.waiting := Async.waiting now ++ [k];
       Async.log := Async.log now ++ l; Async.unhandled := Async.unhandled now |}.
Proof. intros H. unfold Async.step, Async.land. rewrite H. reflexivity. Qed.

Lemma step_call_settled (St Ev : Type) (h : Async.async St Ev unit)
  (now : Async.Loop St Ev) (o : outcome unit) (s : St) (l : list Ev) :
  h (Async.state now) = Async.settled o s l ->
  Async.step (Async.call h) now
  = {| Async.state := s; Async.waiting := Async.waiting now;
       Async.log := Async.log now ++ l;
       Async.unhandled := Async.unhandled now
                          ++ match o with Returns _ => [] | Throws e => [e] end |}.
Proof.
  intros H. unfold Async.step, Async.land. rewrite H.
  destruct o; [ rewrite app_nil_r | ]; reflexivity.
Qed.

Lemma step_resume_suspended (St Ev : Type) (now : Async.Loop St Ev)
  (rest : St -> Async.task St Ev unit) (others : list (St -> Async.task St Ev unit))
  (s : St) (l : list Ev) (k : St -> Async.task St Ev unit) :
  Async.waiting now = rest :: others ->
  rest (Async.state now) = Async.suspended s l k ->
  Async.step (Async.resume 0) now
  = {| Async.state := s; Async.waiting := others ++ [k];
       Async.log := Async.log now ++ l; Async.unhandled := Async.unhandled now |}.
Proof.
  intros Hw H. unfold Async.step, Async.land. rewrite Hw. cbn [nth_error Async.without].
  rewrite H. reflexivity.
Qed.

Lemma step_resume_settled (St Ev : Type) (now : Async.Loop St Ev)
  (rest : St -> Async.task St Ev unit) (others : list (St -> Async.task St Ev unit))
  (o : outcome unit) (s : St) (l : list Ev) :
  Async.waiting now = rest :: others ->
  rest (Async.state now) = Async.settled o s l ->
  Async.step (Async.resume 0) now
  = {| Async.state := s; Async.waiting := others;
       Async.log := Async.log now ++ l;
       Async.unhandled := Async.unhandled now
                          ++ match o with Returns _ => [] | Throws e => [e] end |}.
Proof.
  intros Hw H. unfold Async.step, Async.land. rewrite Hw. cbn [nth_error Async.without].
  rewrite H. destruct o; [ rewrite app_nil_r | ]; reflexivity.
Qed.

Lemma step_resume_nothing (St Ev : Type) (now : Async.Loop St Ev) :
  Async.waiting now = [] -> Async.step (Async.resume 0) now = now.
Proof. intros Hw. unfold Async.step. rewrite Hw. reflexivity. Qed.

(** [stopVoiceRecording] of a render that shows a dictation, on a state
    with no audio context to close and a session promise: it is suspended
    on the promise, having released the stream and the processing node,
    and closes the session when it resumes. *)
Lemma stopVoiceRecording_suspended (render c : Chat)
  (p : promise DreamRecorder.LiveSession) :
  isVoiceRecording render = true ->
  context_open c = false ->
  sessionPromiseRef c = Some p ->
  exists k,
    Handler.stopVoiceRecording render c
    = Async.suspended (released c) (released_at_once c) k
    /\ forall s,
         k s = match p with
               | Fulfilled x =>
                   Async.settled (Returns tt) (set_sessionPromiseRef None s)
                     [session_close x]
               | Rejected e => Async.settled (Throws e) s []
               end.
Proof.
  intros Hrec Hctx Hsess.
  unfold Handler.stopVoiceRecording. rewrite Hrec. cbn [negb].
  unfold context_open in Hctx.
  destruct c as [ms inp ld rec chat sp ctx proc stream].
  cbn in Hctx, Hsess. subst sp.
  unfold released, released_at_once.
  cbn [mediaStreamRef scriptProcessorRef setIsVoiceRecording set_mediaStreamRef
       set_scriptProcessorRef messages input isLoading isVoiceRecording chatRef
       sessionPromiseRef audioContextRef].
  assert (Hclosed : forall a, ctx = Some a -> negb (DreamRecorder.is_closed a) = false).
  { intros a ->. exact Hctx. }
  destruct stream as [stream|], proc as [n|], ctx as [a|];
    try rewrite (Hclosed _ eq_refl);
    unfold Async.bind, Async.modify, Async.get, Async.emit, Async.lift, Async.await,
      Async.yield, Async.ret;
    cbn [Async.continue Async.said modify get emit app
         mediaStreamRef scriptProcessorRef audioContextRef sessionPromiseRef
         setIsVoiceRecording set_mediaStreamRef set_scriptProcessorRef].
  all: rewrite ?forEach_emit; cbn; rewrite ?Hctx; cbn; rewrite ?app_nil_r;
    eexists; (split; [ reflexivity | intros s; destruct p; reflexivity ]).
Qed.



(** [handleSend] when no dictation is active. *)
Lemma handleSend_quiet (sendMessage : jsstring -> promise jsstring) (c : Chat) :
  isVoiceRecording c = false ->
  handleSend sendMessage c
  = match chatRef c with
    | Some chat =>
        if negb (truthy (trim (input c))) || isLoading c then (Returns tt, c, [])
        else
          (Returns tt,
           setIsLoading false
             (setMessages
                (fun prev =>
                   prev ++ [{| role := model;
                               text := match sendMessage (input c) with
                                       | Fulfilled response => response
                                       | Rejected _ => apology
                                       end |}])
                (setIsLoading true
                   (setInput (fun _ => [])
                      (setMessages
                         (fun prev => prev ++ [{| role := user; text := input c |}]) c)))),
           chat_sendMessage chat (input c)
           :: match sendMessage (input c) with
              | Fulfilled _ => []
              | Rejected _ => [console_error "Chat error:"]
              end)
    | None => (Returns tt, c, [])
    end.
Proof.
  intros Hquiet. rewrite handleSend_sequential.
  unfold bind at 1. unfold get at 1. cbn iota beta. rewrite Hquiet.
  unfold bind at 1. unfold ret at 1. cbn iota beta.
  unfold bind at 1. unfold get at 1. cbn iota beta.
  destruct (chatRef c) as [chat|] eqn:Hchat.
  - destruct (negb (truthy (trim (input c))) || isLoading c) eqn:Hguard;
      cbn [orb]; [ reflexivity | ].
    cbv [bind modify Control.try_finally try_catch get emit await ret throw].
    cbn [chatRef setIsLoading setInput setMessages]. rewrite Hchat.
    destruct (sendMessage (input c)) as [response|e]; reflexivity.
  - rewrite orb_true_r. reflexivity.
Qed.

(** X17.  When no dictation is active, without a chat, with an input that
    is blank, or while a reply is awaited, [handleSend] does nothing: no
    message is sent and the conversation, the input and the loading flag
    are what they were. *)
Theorem handleSend_guard (sendMessage : jsstring -> promise jsstring) (c : Chat) :
  isVoiceRecording c = false ->
  chatRef c = None \/ forallb isWhiteSpace (input c) = true \/ isLoading c = true ->
  handleSend sendMessage c = (Returns tt, c, []).
Proof.
  intros Hquiet Hguard. rewrite (handleSend_quiet sendMessage c Hquiet).
  destruct (chatRef c); [ | reflexivity ].
  destruct Hguard as [H|[H|H]]; [ discriminate | | ].
  - rewrite (trim_whitespace _ H). reflexivity.
  - rewrite H, orb_true_r. reflexivity.
Qed.

(** X17 on a chat whose input box holds spaces. *)
Lemma handleSend_guard_witness :
  handleSend (fun _ => Fulfilled (str "a reply"))
    (setInput (fun _ => str "   ") (state_after (onDreamChange 1%N) mount))
  = (Returns tt, setInput (fun _ => str "   ") (state_after (onDreamChange 1%N) mount), []).
Proof.
  refine (@handleSend_guard (fun _ => Fulfilled (str "a reply"))
            (setInput (fun _ => str "   ") (state_after (onDreamChange 1%N) mount))
            eq_refl _).
  right. left. reflexivity.
Defined.

(** X18.  A send that passes the guard never throws and makes one
    exchange: the conversation gains the message of the user, with the input
    as typed (not trimmed), followed by one message of the model, the reply
    when the request succeeds and the apology when it fails.  The message is
    sent once, to the chat of the dream; the input box is emptied and the
    loading flag is down again when the send ends. *)
Theorem handleSend_makes_one_exchange (sendMessage : jsstring -> promise jsstring)
  (chat : N) (c : Chat) :
  isVoiceRecording c = false -> chatRef c = Some chat ->
  truthy (trim (input c)) = true -> isLoading c = false ->
  let c' := state_after (handleSend sendMessage) c in
  outcome_of (handleSend sendMessage) c = Returns tt
  /\ messages c'
     = messages c
       ++ [{| role := user; text := input c |};
           {| role := model;
              text := match sendMessage (input c) with
                      | Fulfilled response => response
                      | Rejected _ => apology
                      end |}]
  /\ input c' = []
  /\ isLoading c' = false
  /\ filter (fun call => match call with chat_sendMessage _ _ => true | _ => false end)
       (calls_of (handleSend sendMessage) c)
     = [chat_sendMessage chat (input c)]
  /\ chatRef c' = chatRef c
  /\ held c' = held c.
Proof.
  intros Hquiet Hchat Hfull Hload c'.
  unfold c', outcome_of, state_after, calls_of.
  rewrite (handleSend_quiet sendMessage c Hquiet), Hchat, Hfull, Hload.
  cbn [negb orb fst snd messages input isLoading chatRef setIsLoading setMessages setInput].
  rewrite <- app_assoc.
  repeat split; try reflexivity; try exact Hchat.
  destruct (sendMessage (input c)); reflexivity.
Qed.

(** X18 on a request that fails. *)
Lemma handleSend_makes_one_exchange_witness :
  messages
    (state_after (handleSend (fun _ => Rejected "offline"%string))
       (setInput (fun _ => str "why water?") (state_after (onDreamChange 1%N) mount)))
  = [{| role := user; text := str "why water?" |};
     {| role := model; text := apology |}].
Proof.
  exact (proj1 (proj2
           (@handleSend_makes_one_exchange (fun _ => Rejected "offline"%string) 1%N
              (setInput (fun _ => str "why water?") (state_after (onDreamChange 1%N) mount))
              eq_refl eq_refl eq_refl eq_refl))).
Defined.


(** The part of [handleSend] that follows the stop of the dictation, on
    the state [now] it finds, with the input and the loading flag of the
    state [c] the handler started on. *)
Lemma handleSend_after_stop (sendMessage : jsstring -> promise jsstring)
  (c c1 : Chat) (calls : list Call) :
  isVoiceRecording c = true ->
  stopVoiceRecording c = (Returns tt, c1, calls) ->
  isVoiceRecording c1 = false -> input c1 = input c -> isLoading c1 = isLoading c ->
  handleSend sendMessage c
  = (outcome_of (handleSend sendMessage) c1,
     state_after (handleSend sendMessage) c1,
     calls ++ calls_of (handleSend sendMessage) c1).
Proof.
  intros Hrec Hstop Hoff Hinput Hload.
  unfold outcome_of, state_after, calls_of.
  rewrite (handleSend_quiet sendMessage c1 Hoff), Hinput, Hload.
  rewrite handleSend_sequential.
  unfold bind at 1. unfold get at 1. cbn iota beta. rewrite Hrec.
  unfold bind at 1. rewrite Hstop. cbn iota beta.
  unfold bind at 1. unfold get at 1. cbn iota beta.
  destruct (chatRef c1) as [chat|] eqn:Hchat.
  - destruct (negb (truthy (trim (input c))) || isLoading c) eqn:Hguard;
      cbn [orb fst snd].
    + cbv [ret]. cbn [app]. rewrite app_nil_r. reflexivity.
    + cbv [bind modify Control.try_finally try_catch get emit await ret throw].
      cbn [chatRef setIsLoading setInput setMessages]. rewrite Hchat.
      destruct (sendMessage (input c)) as [response|e];
        cbn [app]; rewrite ?app_nil_r; reflexivity.
  - rewrite orb_true_r. cbn [fst snd]. cbv [ret]. cbn [app].
    rewrite app_nil_r. reflexivity.
Qed.

(** [handleSend] of a render that shows a dictation, on the state of that
    render, with no audio context to close, a session promise, a chat, an
    input that is not blank and no reply awaited: segment by segment. *)
Lemma handleSend_suspended (sendMessage : jsstring -> promise jsstring) (c : Chat)
  (chat : N) (p : promise DreamRecorder.LiveSession) :
  isVoiceRecording c = true ->
  context_open c = false ->
  sessionPromiseRef c = Some p ->
  truthy (trim (input c)) = true ->
  isLoading c = false ->
  exists k1,
    Handler.handleSend sendMessage c c
    = Async.suspended (released c) (released_at_once c) k1
    /\ forall s,
         match p with
         | Rejected e => k1 s = Async.settled (Throws e) s []
         | Fulfilled x =>
             exists k2,
               k1 s = Async.suspended (set_sessionPromiseRef None s) [session_close x] k2
               /\ forall s2,
                    chatRef s2 = Some chat ->
                    exists k3,
                      k2 s2
                      = Async.suspended
                          (setIsLoading true
                             (setInput (fun _ => [])
                                (setMessages
                                   (fun prev => prev ++ [{| role := user; text := input c |}])
                                   s2)))
                          [chat_sendMessage chat (input c)] k3
                      /\ forall s3,
                           k3 s3
                           = Async.settled (Returns tt)
                               (setIsLoading false
                                  (setMessages
                                     (fun prev =>
                                        prev ++ [{| role := model;
                                                    text := match sendMessage (input c) with
                                                            | Fulfilled response => response
                                                            | Rejected _ => apology
                                                            end |}])
                                     s3))
                               match sendMessage (input c) with
                               | Fulfilled _ => []
                               | Rejected _ => [console_error "Chat error:"]
                               end
         end.
Proof.
  intros Hrec Hctx Hsess Hfull Hload.
  destruct (@stopVoiceRecording_suspended c c p Hrec Hctx Hsess) as (k & H & Hk).
  unfold Handler.handleSend. rewrite Hrec, Hfull, Hload. cbn [negb orb].
  unfold Async.bind at 1. unfold Async.await_call. unfold Async.bind at 1.
  rewrite H. cbn [Async.continue].
  eexists. split; [ reflexivity | ].
  intros s. cbn beta. rewrite (Hk s).
  destruct p as [x|e]; [ | reflexivity ].
  cbn [Async.continue Async.said Async.bind Async.yield Async.ret app].
  eexists. split; [ reflexivity | ].
  intros s2 Hchat. cbn beta.
  cbn [Async.continue Async.said app].
  unfold Async.bind at 1. unfold Async.get at 1, Async.lift at 1. cbn [get Async.continue Async.said app].
  rewrite Hchat.
  unfold Handler.send, Async.modify, Async.emit, Async.get, Async.throw, Async.await,
    Async.try_finally, Async.try_catch, Async.bind, Async.lift, Async.yield.
  cbn [Async.continue Async.said Async.catching Async.finishing modify get emit app
       chatRef setIsLoading setInput setMessages].
  rewrite Hchat.
  cbn [Async.continue Async.said Async.catching Async.finishing modify get emit app].
  eexists. split; [ reflexivity | ].
  intros s3. cbn beta.
  destruct (sendMessage (input c)) as [response|e]; reflexivity.
Qed.



Lemma exchanges_app (l : list ChatMessage) (q a : jsstring) :
  exchanges l = true ->
  exchanges (l ++ [{| role := user; text := q |}; {| role := model; text := a |}]) = true.
Proof.
  assert (H : forall l,
             (exchanges l = true ->
              exchanges (l ++ [{| role := user; text := q |};
                               {| role := model; text := a |}]) = true)
             /\ (forall x, exchanges (x :: l) = true ->
                 exchanges (x :: l ++ [{| role := user; text := q |};
                                       {| role := model; text := a |}]) = true)).
  { clear l. induction l as [|y l [IH1 IH2]].
    - split; [ reflexivity | ]. intros x Hx. discriminate Hx.
    - split; [ apply IH2 | ].
      intros x Hx. cbn [exchanges app] in *.
      destruct (role x), (role y); try discriminate. apply IH1. exact Hx. }
  apply H.
Qed.




Lemma trim_word_then_spaces (a ws : jsstring) :
  word a = true -> forallb isWhiteSpace ws = true -> trim (a ++ ws) = a.
Proof.
  intros Ha Hws. unfold trim. rewrite (@trimStart_word_app a ws Ha).
  rewrite (@trimEnd_whitespace_app a ws Hws).
  change a with ([] ++ a) at 1. rewrite (@trimEnd_app_word [] a Ha). reflexivity.
Qed.

Lemma trim_two_words (a b ws : jsstring) :
  word a = true -> word b = true -> forallb isWhiteSpace ws = true ->
  trim ((a ++ str " ") ++ b ++ ws) = a ++ str " " ++ b.
Proof.
  intros Ha Hb Hws. unfold trim.
  rewrite <- app_assoc. rewrite (@trimStart_word_app a (str " " ++ b ++ ws) Ha).
  replace (a ++ str " " ++ b ++ ws) with (((a ++ str " ") ++ b) ++ ws)
    by (rewrite <- !app_assoc; reflexivity).
  rewrite (@trimEnd_whitespace_app ((a ++ str " ") ++ b) ws Hws).
  rewrite (@trimEnd_app_word (a ++ str " ") b Hb).
  rewrite <- app_assoc. reflexivity.
Qed.

(** One dictated fragment: the trimmed input is the trimmed previous input
    and the trimmed fragment, those that are not empty, joined by a space. *)
Lemma dictate_trim (fragment prev : jsstring) :
  trim (dictate fragment prev)
  = join_words (filter truthy [trim prev; trim fragment]).
Proof.
  unfold dictate.
  destruct (truthy (trim prev)) eqn:Hp; destruct (truthy (trim fragment)) eqn:Hf;
    cbn [filter]; rewrite ?Hp, ?Hf; cbn [join_words].
  - apply trim_two_words; [ apply word_trim; exact Hp | apply word_trim; exact Hf | reflexivity ].
  - destruct (trim fragment); [ | discriminate ].
    rewrite <- app_assoc. apply trim_word_then_spaces; [ apply word_trim; exact Hp | reflexivity ].
  - rewrite app_nil_l.
    apply trim_word_then_spaces; [ apply word_trim; exact Hf | reflexivity ].
  - destruct (trim fragment); [ reflexivity | discriminate ].
Qed.

Lemma join_words_cons (w : jsstring) (rest : list jsstring) :
  join_words (w :: rest)
  = match rest with [] => w | _ :: _ => w ++ str " " ++ join_words rest end.
Proof. destruct rest; reflexivity. Qed.

Lemma dictation_trim (texts : list jsstring) (prev : jsstring) :
  trim (fold_left (fun p t => dictate t p) texts prev)
  = join_words (words_of (prev :: texts)).
Proof.
  revert prev. induction texts as [|t texts IH]; intros prev.
  - unfold words_of. cbn [fold_left map filter].
    destruct (truthy (trim prev)) eqn:Hp; [ reflexivity | ].
    destruct (trim prev); [ reflexivity | discriminate ].
  - cbn [fold_left]. rewrite IH. unfold words_of. cbn [map filter].
    rewrite dictate_trim. cbn [filter].
    destruct (truthy (trim prev)) eqn:Hp; destruct (truthy (trim t)) eqn:Ht;
      cbn [join_words].
    + assert (truthy (trim prev ++ str " " ++ trim t) = true) as ->
        by (destruct (trim prev); [ discriminate | reflexivity ]).
      rewrite !join_words_cons.
      destruct (filter truthy (map trim texts)); [ reflexivity | ].
      rewrite <- !app_assoc. reflexivity.
    + rewrite Hp. reflexivity.
    + rewrite Ht. reflexivity.
    + reflexivity.
Qed.

Lemma onmessage_input (message : DreamRecorder.LiveServerMessage) (c : Chat) :
  onmessage message c = (Returns tt, state_after (onmessage message) c, []).
Proof.
  unfold state_after, onmessage.
  destruct (DreamRecorder.message_transcription message) as [t|]; [ | reflexivity ].
  destruct (DreamRecorder.isFinal t && truthy (DreamRecorder.text t)); reflexivity.
Qed.

Lemma dictated_input (msgs : list DreamRecorder.LiveServerMessage) (c : Chat) :
  let c' := fold_left (fun s m => state_after (onmessage m) s) msgs c in
  input c' = fold_left (fun p t => dictate t p) (dictated msgs) (input c)
  /\ messages c' = messages c /\ isLoading c' = isLoading c
  /\ isVoiceRecording c' = isVoiceRecording c /\ held c' = held c.
Proof.
  revert c. induction msgs as [|m msgs IH]; intros c; cbn [fold_left dictated].
  - repeat split; reflexivity.
  - destruct (IH (state_after (onmessage m) c)) as (H1 & H2 & H3 & H4 & H5).
    cbv zeta in *. rewrite H1, H2, H3, H4, H5.
    unfold state_after, onmessage.
    destruct (DreamRecorder.message_transcription m) as [t|];
      [ | repeat split; reflexivity ].
    destruct (DreamRecorder.isFinal t && truthy (DreamRecorder.text t));
      repeat split; reflexivity.
Qed.

(** X21.  Dictated text is joined by single spaces.  After any messages
    of the live session, the input box, trimmed, holds what it held, trimmed,
    followed by the trimmed texts of the final messages in receipt order,
    blank ones left out, one space between any two; interim messages and
    final messages without text change nothing.  The messages never throw,
    call nothing and leave the conversation alone. *)
Theorem dictation_joins_words (msgs : list DreamRecorder.LiveServerMessage) (c : Chat) :
  let c' := state_after (forEach onmessage msgs) c in
  forEach onmessage msgs c = (Returns tt, c', [])
  /\ trim (input c') = join_words (words_of (input c :: dictated msgs))
  /\ (dictated msgs = [] -> input c' = input c)
  /\ messages c' = messages c
  /\ isLoading c' = isLoading c
  /\ held c' = held c.
Proof.
  intros c'.
  assert (Hrun : forEach onmessage msgs c
                 = (Returns tt,
                    fold_left (fun s m => state_after (onmessage m) s) msgs c, [])).
  { apply forEach_silent with (g := fun m s => state_after (onmessage m) s).
    intros m s. apply onmessage_input. }
  assert (Hc' : c' = fold_left (fun s m => state_after (onmessage m) s) msgs c).
  { unfold c', state_after. rewrite Hrun. reflexivity. }
  destruct (dictated_input msgs c) as (Hin & Hm & Hl & _ & Hh). cbv zeta in *.
  rewrite <- Hc' in *.
  split; [ rewrite Hrun, Hc'; reflexivity | ].
  split; [ rewrite Hin; apply dictation_trim | ].
  split; [ intros Hnone; rewrite Hin, Hnone; reflexivity | ].
  repeat split; assumption.
Qed.

End ChatFacts.


(* ===================================================================== *)
(** ** Regenerating the image *)
(* ===================================================================== *)

Section ViewFacts.
Import JS Eff Types Host DetailView.
Local Open Scope eff_scope.
Variable env : Env.

(** [generateDreamImage]: one request, and the data URL of the first image
    or an error. *)
Lemma generateDreamImage_run (St : Type) (transcription style : jsstring)
  (ratio : AspectRatio) (custom : jsstring) (s : St) :
  GeminiService.generateDreamImage env transcription style ratio custom s
  = (match image_of (generateImages env
                       (GeminiService.image_prompt transcription style custom) ratio) with
     | Some bytes => Returns (str "data:image/jpeg;base64," ++ bytes)
     | None =>
         Throws match generateImages env
                        (GeminiService.image_prompt transcription style custom) ratio with
                | Rejected e => e
                | Fulfilled _ => "Image generation failed or returned no images."%string
                end
     end, s,
     [ai_generateImages (GeminiService.image_prompt transcription style custom) ratio]).
Proof.
  cbv [GeminiService.generateDreamImage bind emit await ret throw].
  destruct (generateImages env _ ratio) as [[[|bytes rest]|]|e]; reflexivity.
Qed.

(** X22.  A regeneration that gets no image changes nothing in the
    application: the list, the store and the current dream are what they
    were.  It never throws; it sends one image request and no other, shows
    the error message, leaves the options open or closed as they were, and
    is no longer regenerating when it ends. *)
Theorem handleRegenerate_failure (dream : DreamEntry) (p : Page) :
  image_of (generateImages env
              (GeminiService.image_prompt (transcription dream) (artStyle (view p))
                 (customImagePrompt (view p)))
              (aspectRatio (view p))) = None ->
  let p' := state_after (handleRegenerate env dream) p in
  outcome_of (handleRegenerate env dream) p = Returns tt
  /\ calls_of (handleRegenerate env dream) p
     = [regeneration_request dream p; console_error "Error regenerating image:"]
  /\ world p' = world p
  /\ error (view p') = Some (str "Failed to generate a new image. Please try again.")
  /\ isRegenerating (view p') = false
  /\ showRegenOptions (view p') = showRegenOptions (view p).
Proof.
  intros Hnone p'.
  assert (Hrun : exists q,
             handleRegenerate env dream p
             = (Returns tt, q,
                [regeneration_request dream p; console_error "Error regenerating image:"])
             /\ world q = world p
             /\ error (view q) = Some (str "Failed to generate a new image. Please try again.")
             /\ isRegenerating (view q) = false
             /\ showRegenOptions (view q) = showRegenOptions (view p)).
  { eexists. split.
    - unfold handleRegenerate.
      unfold bind at 1. unfold get at 1. cbn iota beta.
      unfold bind at 1. unfold setIsRegenerating at 1, modify at 1. cbn iota beta.
      unfold bind at 1. unfold setError at 1, modify at 1. cbn iota beta.
      unfold bind at 1. unfold setIsImageLoaded at 1, modify at 1. cbn iota beta.
      unfold Control.try_finally, try_catch. unfold bind at 1.
      rewrite generateDreamImage_run, Hnone.
      cbv [bind emit setError setIsRegenerating modify]. reflexivity.
    - simpl. repeat split; reflexivity. }
  destruct Hrun as (q & Hrun & H).
  unfold p', outcome_of, calls_of, state_after. rewrite Hrun. cbn [fst snd].
  split; [ reflexivity | split; [ reflexivity | exact H ] ].
Qed.


End ViewFacts.

Section ViewSamples.
Import JS Eff Types Host DetailView.

(** X22 on the host that returns no image. *)
Lemma handleRegenerate_failure_witness :
  App.allDreams (App.ui (world
    (state_after (handleRegenerate Samples.host_without_image Samples.newest_favorite)
       page)))
  = Samples.history
  /\ isRegenerating (view
       (state_after (handleRegenerate Samples.host_without_image Samples.newest_favorite)
          page)) = false.
Proof.
  pose proof (@handleRegenerate_failure Samples.host_without_image
                Samples.newest_favorite page eq_refl) as H.
  destruct H as (_ & _ & Hw & _ & Hr & _).
  rewrite Hw. split; [ reflexivity | exact Hr ].
Defined.


End ViewSamples.
